(** * bds-planner: vote aggregation and deadline classification

    A shallow embedding of the logic of two React components,
    [ProgressSummary] (src/components/ProgressSummary.tsx) and
    [IdeaVotingBoard], together with the part of the JavaScript runtime and
    of the date-fns library that this logic calls.

    Conventions of the embedding.
    - A JavaScript number that holds an integer or NaN is [option Z]:
      [None] is NaN.  Vote counts and time values stay far below 2^53, where
      the arithmetic of doubles on integers is exact.
    - A [Date] object is its time value: milliseconds since the epoch in UTC,
      or NaN for an Invalid Date.
    - The local time zone is a fixed offset [tz] (milliseconds east of UTC);
      daylight-saving changes are not modelled.
    - The system clock read by [new Date()] and [Date.now()] is passed in as
      the argument [now].
    - The database behind the supabase client is an explicit state; which
      requests it answers with an [error] is a parameter of the handler.
    - An object used as a map from identifiers is a finite map; keys that
      name a property of [Object.prototype] are left out.
    - [parseISO] and the Date constructor are two readers and do not read
      the same strings.  Both read the calendar date YYYY-MM-DD, which is
      what the application writes as a due date.  Of the other forms the
      embedding keeps the basic form YYYYMMDD, which [parseISO] reads and
      the Date constructor does not, a day past the end of its month, which
      the Date constructor carries over and [parseISO] refuses, and the
      timestamp with a zone, which the Date constructor reads.  A string in
      any other form counts as one that neither of them can read.
    - The completion rate is a double: binary64 as [SpecFloat] of the
      standard library defines it, with division and product rounded to
      nearest, ties to even. *)

From Stdlib Require Import ZArith QArith Qabs Qpower Lia Lqa List Ascii String Sorting.Sorted Permutation.
From Stdlib Require Import DecimalString Floats.SpecFloat.
From stdpp Require Import base option list strings gmap.

Local Open Scope Z_scope.

(** ** The JavaScript runtime *)

Module JS.

(** A number: an integer, or NaN. *)
Definition number := option Z.

Definition NaN : number := None.

(** [a - b] *)
Definition sub (a b : number) : number :=
  match a, b with
  | Some x, Some y => Some (x - y)
  | _, _ => NaN
  end.

(** [a < b]: false as soon as one side is NaN. *)
Definition lt (a b : number) : bool :=
  match a, b with
  | Some x, Some y => x <? y
  | _, _ => false
  end.

(** [a === b] on numbers: NaN is not equal to itself. *)
Definition strict_eq (a b : number) : bool :=
  match a, b with
  | Some x, Some y => x =? y
  | _, _ => false
  end.

(** [-a] *)
Definition neg (a : number) : number :=
  match a with
  | Some x => Some (- x)
  | None => NaN
  end.

(** [a <= b] as a proposition, false on NaN. *)
Definition le (a b : number) : Prop :=
  match a, b with
  | Some x, Some y => x <= y
  | _, _ => False
  end.

(** A string-valued field that the database may leave out: [None] is
    null/undefined. *)
Definition field := option string.

(** Truthiness of such a field: null, undefined and the empty string are
    falsy. *)
Definition truthy (f : field) : bool :=
  match f with
  | Some s => negb (String.eqb s "")
  | None => false
  end.

(** [f || ''] *)
Definition or_empty (f : field) : string :=
  match f with
  | Some s => if String.eqb s "" then ""%string else s
  | None => ""%string
  end.

(** *** Array.prototype.sort

    ECMAScript requires the sort to be stable, and reads a comparator result
    [v] as: [a] goes after [b] when [v > 0]; NaN counts as [+0].  For a
    consistent comparator every conforming sort returns the same array, the
    one computed here by a stable insertion sort. *)
Section Sort.
Context {A : Type}.
Variable comparefn : A -> A -> number.

Definition goes_after (a b : A) : bool :=
  match comparefn a b with
  | Some v => 0 <? v
  | None => false
  end.

Fixpoint insert (x : A) (l : list A) : list A :=
  match l with
  | [] => [x]
  | h :: t => if goes_after x h then h :: insert x t else x :: h :: t
  end.

Definition sort (l : list A) : list A := foldr insert [] l.
End Sort.

(** [arr.slice(0, n)] *)
Definition slice0 {A : Type} (n : nat) (l : list A) : list A := take n l.

(** *** Calendar arithmetic and the Date constructor *)

Definition msPerDay : Z := 86400000.

Definition digit (c : ascii) : option Z :=
  let n := Z.of_nat (nat_of_ascii c) in
  if (48 <=? n) && (n <=? 57) then Some (n - 48) else None.

Definition isLeapYear (y : Z) : bool :=
  ((y mod 4 =? 0) && negb (y mod 100 =? 0)) || (y mod 400 =? 0).

Definition daysInMonth (y m : Z) : Z :=
  if m =? 2 then (if isLeapYear y then 29 else 28)
  else if (m =? 4) || (m =? 6) || (m =? 9) || (m =? 11) then 30
  else 31.

(** Days from 1970-01-01 to the civil date y-m-d (proleptic Gregorian). *)
Definition daysFromCivil (y m d : Z) : Z :=
  let y' := if m <=? 2 then y - 1 else y in
  let era := y' / 400 in
  let yoe := y' - era * 400 in
  let doy := (153 * (if 2 <? m then m - 3 else m + 9) + 2) / 5 + d - 1 in
  let doe := yoe * 365 + yoe / 4 - yoe / 100 + doy in
  era * 146097 + doe - 719468.

(** The calendar-date form YYYY-MM-DD, the form in which the application
    stores a due date ([format(date, 'yyyy-MM-dd')]).  The result is the day
    number, when the ten characters have that shape and name a real day. *)
Definition parseCalendarDate (s : string) : option Z :=
  match s with
  | String y1 (String y2 (String y3 (String y4 (String "-"
      (String m1 (String m2 (String "-"
        (String d1 (String d2 EmptyString))))))))) =>
      match digit y1, digit y2, digit y3, digit y4,
            digit m1, digit m2, digit d1, digit d2 with
      | Some a, Some b, Some c, Some e, Some f, Some g, Some h, Some i =>
          let y := 1000 * a + 100 * b + 10 * c + e in
          let m := 10 * f + g in
          let d := 10 * h + i in
          if (1 <=? m) && (m <=? 12) && (1 <=? d) && (d <=? daysInMonth y m)
          then Some (daysFromCivil y m d)
          else None
      | _, _, _, _, _, _, _, _ => None
      end
  | _ => None
  end.

(** A Date object, as its time value. *)
Definition Date := number.

Definition twoDigits (a b : ascii) : option Z :=
  match digit a, digit b with
  | Some x, Some y => Some (10 * x + y)
  | _, _ => None
  end.

(** The digits at the head of a string, and what follows them. *)
Fixpoint readDigits (s : string) : list Z * string :=
  match s with
  | String c rest =>
      match digit c with
      | Some d => let '(ds, tl) := readDigits rest in (d :: ds, tl)
      | None => ([], s)
      end
  | EmptyString => ([], s)
  end.

(** The milliseconds of a fraction of a second: its first three digits. *)
Definition milliseconds (ds : list Z) : Z :=
  match ds with
  | [] => 0
  | [a] => 100 * a
  | [a; b] => 100 * a + 10 * b
  | a :: b :: c :: _ => 100 * a + 10 * b + c
  end.

(** The zone of a timestamp, [Z] or a sign and HH:mm, as the offset of its
    local time from UTC in milliseconds. *)
Definition readZone (s : string) : option Z :=
  match s with
  | String "Z" EmptyString => Some 0
  | String sign (String h1 (String h2 (String ":"
      (String m1 (String m2 EmptyString))))) =>
      match twoDigits h1 h2, twoDigits m1 m2 with
      | Some h, Some m =>
          if (h <=? 23) && (m <=? 59) then
            if Ascii.eqb sign "+" then Some ((h * 60 + m) * 60000)
            else if Ascii.eqb sign "-" then Some (- ((h * 60 + m) * 60000))
            else None
          else None
      | _, _ => None
      end
  | _ => None
  end.

(** The time of day HH:mm:ss with the digits [ds] of the fraction of the
    second, in the zone written in [zone]: milliseconds from midnight UTC of
    the date.  The hour 24 goes with 00:00 and a zero fraction only. *)
Definition timeOfDay (h m sec : Z) (ds : list Z) (zone : string) : option Z :=
  if (h <=? 24) && (m <=? 59) && (sec <=? 59)
     && ((h <? 24) || ((m =? 0) && (sec =? 0) && forallb (Z.eqb 0) ds))
  then match readZone zone with
       | Some offset =>
           Some (((h * 60 + m) * 60 + sec) * 1000 + milliseconds ds - offset)
       | None => None
       end
  else None.

(** What follows the [T] of a timestamp: HH:mm:ss, a fraction of one to
    nine digits or none, and the zone. *)
Definition readTime (s : string) : option Z :=
  match s with
  | String h1 (String h2 (String ":" (String m1 (String m2 (String ":"
      (String s1 (String s2 rest))))))) =>
      match twoDigits h1 h2, twoDigits m1 m2, twoDigits s1 s2 with
      | Some h, Some m, Some sec =>
          match rest with
          | String "." fraction =>
              let '(ds, zone) := readDigits fraction in
              if (1 <=? length ds)%nat && (length ds <=? 9)%nat
              then timeOfDay h m sec ds zone
              else None
          | _ => timeOfDay h m sec [] rest
          end
      | _, _, _ => None
      end
  | _ => None
  end.

(** [new Date(s)] for a string [s], which [Date.parse] reads.  Of the
    ECMAScript date-time format the model keeps the two forms that the
    application meets: the date YYYY-MM-DD (a due date, the date of a
    meeting), which is midnight UTC, and the date followed by [T], a time
    and a zone (a timestamp of the store).  As V8 does, the reader checks
    the month against 1..12 and the day against 1..31 only: a day past the
    end of its month is carried into the next month.  Every other string,
    the empty string among them, gives an Invalid Date in this model; the
    forms YYYY and YYYY-MM, a time without seconds or without zone and the
    strings that V8 reads outside the ECMAScript format are left out. *)
Definition newDate (s : string) : Date :=
  match s with
  | String y1 (String y2 (String y3 (String y4 (String "-"
      (String m1 (String m2 (String "-"
        (String d1 (String d2 rest))))))))) =>
      match digit y1, digit y2, digit y3, digit y4,
            twoDigits m1 m2, twoDigits d1 d2 with
      | Some a, Some b, Some c, Some e, Some m, Some d =>
          if (1 <=? m) && (m <=? 12) && (1 <=? d) && (d <=? 31) then
            let day := daysFromCivil (1000 * a + 100 * b + 10 * c + e) m d in
            match rest with
            | EmptyString => Some (day * msPerDay)
            | String "T" time =>
                match readTime time with
                | Some ms => Some (day * msPerDay + ms)
                | None => NaN
                end
            | _ => NaN
            end
          else NaN
      | _, _, _, _, _, _ => NaN
      end
  | _ => NaN
  end.

(** [new Date(f)] for a field that may be null: [new Date(null)] is the
    epoch. *)
Definition newDateOf (f : field) : Date :=
  match f with
  | Some s => newDate s
  | None => Some 0
  end.

(** [d.getTime()] *)
Definition getTime (d : Date) : number := d.

(** *** Doubles

    A number that need not be an integer is a double: binary64, which is
    [spec_float] with 53 digits of precision and exponents below 1024.  An
    operation returns the double nearest to the exact result, ties to
    even. *)
Definition double := spec_float.

(** The integer [n] as a number. *)
Definition toDouble (n : Z) : double := binary_normalize 53 1024 n 0 false.

(** [a / b] *)
Definition divide (a b : double) : double := SFdiv 53 1024 a b.

(** [a * b] *)
Definition multiply (a b : double) : double := SFmul 53 1024 a b.

End JS.

(** ** date-fns *)

Module DateFns.
Import JS.

(** The basic form YYYYMMDD of a calendar date. *)
Definition parseBasicDate (s : string) : option Z :=
  match s with
  | String y1 (String y2 (String y3 (String y4
      (String m1 (String m2
        (String d1 (String d2 EmptyString))))))) =>
      match digit y1, digit y2, digit y3, digit y4,
            digit m1, digit m2, digit d1, digit d2 with
      | Some a, Some b, Some c, Some e, Some f, Some g, Some h, Some i =>
          let y := 1000 * a + 100 * b + 10 * c + e in
          let m := 10 * f + g in
          let d := 10 * h + i in
          if (1 <=? m) && (m <=? 12) && (1 <=? d) && (d <=? daysInMonth y m)
          then Some (daysFromCivil y m d)
          else None
      | _, _, _, _, _, _, _, _ => None
      end
  | _ => None
  end.

(** The calendar day that [parseISO] reads from a string.  date-fns reads
    the extended form YYYY-MM-DD and the basic form YYYYMMDD of a date
    alike, and wants the day to exist in its month.  The other strings that
    date-fns reads (a date with a time, a week date, an ordinal date, a year
    or a month alone) are left out: they count as unreadable. *)
Definition parseDay (s : string) : option Z :=
  match parseCalendarDate s with
  | Some n => Some n
  | None => parseBasicDate s
  end.

Section LocalTime.
(** Offset of local time from UTC, in milliseconds. *)
Variable tz : Z.

(** [parseISO(s)]: a calendar date is midnight in local time; what cannot
    be parsed is an Invalid Date. *)
Definition parseISO (s : string) : Date :=
  match parseDay s with
  | Some n => Some (n * msPerDay - tz)
  | None => NaN
  end.

(** [parseISO(f)] for a field that may be null.  date-fns 2 answers an
    argument that is not a string with an Invalid Date, later versions throw
    a TypeError; the component reaches [parseISO] behind a test of the field,
    or with the due date of a record that has passed one. *)
Definition parseISOOf (f : field) : Date :=
  match f with
  | Some s => parseISO s
  | None => NaN
  end.

(** [startOfDay(d)]: the local midnight at or before [d]. *)
Definition startOfDay (d : Date) : Date :=
  match d with
  | Some t => Some (t - (t + tz) mod msPerDay)
  | None => NaN
  end.

(** [addDays(d, n)] *)
Definition addDays (d : Date) (n : Z) : Date :=
  match d with
  | Some t => Some (t + n * msPerDay)
  | None => NaN
  end.

(** [isSameDay(l, r)]: [+startOfDay(l) === +startOfDay(r)] *)
Definition isSameDay (l r : Date) : bool :=
  strict_eq (startOfDay l) (startOfDay r).

(** [isBefore(d, c)]: [+d < +c], a comparison of instants. *)
Definition isBefore (d c : Date) : bool := lt d c.

(** [isToday(d)], with the clock reading [now]. *)
Definition isToday (now : Z) (d : Date) : bool :=
  isSameDay d (Some now).

(** [isTomorrow(d)], with the clock reading [now]. *)
Definition isTomorrow (now : Z) (d : Date) : bool :=
  isSameDay d (addDays (Some now) 1).
End LocalTime.

End DateFns.

(** ** src/components/ProgressSummary.tsx *)

Module ProgressSummary.
Import JS DateFns.

Inductive Status := ToDo | Done.

Definition Status_eqb (a b : Status) : bool :=
  match a, b with
  | ToDo, ToDo | Done, Done => true
  | _, _ => false
  end.

Record ActionItem := {
  id : string;
  description : string;
  assignee : string;
  due_date : field;
  status : Status;
  meeting_id : field
}.

(** What [getUrgencyBadge] renders. *)
Inductive Badge := Overdue | DueToday | DueTomorrow.

Definition completedTasks (actionItems : list ActionItem) : nat :=
  length (List.filter (fun item => Status_eqb (status item) Done) actionItems).

Definition totalTasks (actionItems : list ActionItem) : nat :=
  length actionItems.

(** [totalTasks > 0 ? (completedTasks / totalTasks) * 100 : 0] *)
Definition completionRate (actionItems : list ActionItem) : double :=
  if (0 <? totalTasks actionItems)%nat
  then multiply (divide (toDouble (Z.of_nat (completedTasks actionItems)))
                        (toDouble (Z.of_nat (totalTasks actionItems))))
                (toDouble 100)
  else toDouble 0.

Section Clock.
Variable tz : Z.
(** The reading of the system clock. *)
Variable now : Z.

Definition todayTasks (actionItems : list ActionItem) : list ActionItem :=
  List.filter (fun item =>
    Status_eqb (status item) ToDo && truthy (due_date item)
    && isToday tz now (parseISOOf tz (due_date item))) actionItems.

Definition overdueTasks (actionItems : list ActionItem) : list ActionItem :=
  List.filter (fun item =>
    Status_eqb (status item) ToDo && truthy (due_date item)
    && isBefore (parseISOOf tz (due_date item)) (Some now)) actionItems.

(** The predicate of the filter of [urgentDeadlines]. *)
Definition isUrgent (item : ActionItem) : bool :=
  if negb (truthy (due_date item)) then false
  else
    let dueDate := parseISOOf tz (due_date item) in
    Status_eqb (status item) ToDo
    && (isToday tz now dueDate || isTomorrow tz now dueDate).

(** The comparator of the sort of [urgentDeadlines]. *)
Definition byDueDate (a b : ActionItem) : number :=
  sub (getTime (newDateOf (due_date a))) (getTime (newDateOf (due_date b))).

Definition urgentDeadlines (actionItems : list ActionItem) : list ActionItem :=
  slice0 5 (sort byDueDate (List.filter isUrgent actionItems)).

Definition getUrgencyBadge (dueDate : field) : option Badge :=
  let date := parseISOOf tz dueDate in
  if isBefore date (Some now) then Some Overdue
  else if isToday tz now date then Some DueToday
  else if isTomorrow tz now date then Some DueTomorrow
  else None.
End Clock.

End ProgressSummary.

(** ** The idea voting board (component [IdeaVotingBoard]) *)

Module IdeaVotingBoard.
Import JS.

Record Idea := {
  id : string;
  title : string;
  description : string;
  proposer : string;
  votes : Z;
  created_at : field
}.

Inductive VoteType := upvote | downvote.

Definition VoteType_eqb (a b : VoteType) : bool :=
  match a, b with
  | upvote, upvote | downvote, downvote => true
  | _, _ => false
  end.

Record IdeaVote := {
  vote_id : string;
  idea_id : string;
  user_id : string;
  vote_type : VoteType
}.

(** *** The cached votes of the current user *)

(** The reducer of [fetchUserVotes]:
    [if (!acc[vote.idea_id]) acc[vote.idea_id] = []; acc[vote.idea_id].push(vote)].
    An array, even an empty one, is truthy, so the test only asks whether the
    key is there. *)
Definition addVote (acc : gmap string (list IdeaVote)) (vote : IdeaVote)
    : gmap string (list IdeaVote) :=
  match acc !! idea_id vote with
  | None => <[idea_id vote := [vote]]> acc
  | Some group => <[idea_id vote := group ++ [vote]]> acc
  end.

(** [data.reduce(..., {})] *)
Definition votesByIdea (data : list IdeaVote) : gmap string (list IdeaVote) :=
  fold_left addVote data ∅.

(** [userVotes[ideaId] || []] *)
Definition existingVotes (userVotes : gmap string (list IdeaVote))
    (ideaId : string) : list IdeaVote :=
  default [] (userVotes !! ideaId).

(** The [disabled] attribute of a vote button:
    [(userVotes[idea.id] || []).some(vote => vote.vote_type === kind)]. *)
Definition hasVoted (userVotes : gmap string (list IdeaVote))
    (ideaId : string) (kind : VoteType) : bool :=
  existsb (fun vote => VoteType_eqb (vote_type vote) kind)
          (existingVotes userVotes ideaId).

(** *** Sorting *)

(** The comparator of [sortedIdeas]. *)
Definition compareIdeas (sortBy : string) (a b : Idea) : number :=
  if String.eqb sortBy "votes" then
    Some (votes b - votes a)
  else
    sub (getTime (newDate (or_empty (created_at b))))
        (getTime (newDate (or_empty (created_at a)))).

(** [[...ideas].sort(...)] *)
Definition sortedIdeas (ideas : list Idea) (sortBy : string) : list Idea :=
  sort (compareIdeas sortBy) ideas.

(** *** The store and the effects of a handler *)

Record Backend := {
  idea_votes : list IdeaVote;
  ideas_table : list Idea
}.

(** A write sent to the store. *)
Inductive Request :=
| InsertVote (ideaId userId : string) (voteType : VoteType)
| UpdateVotes (ideaId : string) (newVotes : Z).

Inductive Toast :=
| AlreadyVoted (voteType : VoteType)
| VoteAdded (voteType : VoteType)
| FailedToAddVote.

Record World := {
  backend : Backend;
  (** every request sent so far, the failed ones too, oldest first *)
  requests : list Request;
  (** the notices shown so far, oldest first *)
  toasts : list Toast;
  (** how often [onUpdate] was called *)
  updates : nat
}.

Inductive Outcome (A : Type) :=
| Returned (a : A)
| Thrown.
Arguments Returned {A} a.
Arguments Thrown {A}.

(** A computation that reads and writes the world and may throw. *)
Definition Eff (A : Type) : Type := World -> Outcome A * World.

Definition ret {A} (a : A) : Eff A := fun w => (Returned a, w).

Definition bind {A B} (m : Eff A) (k : A -> Eff B) : Eff B :=
  fun w =>
    match m w with
    | (Returned a, w') => k a w'
    | (Thrown, w') => (Thrown, w')
    end.

Definition throw {A} : Eff A := fun w => (Thrown, w).

(** [try { body } catch (error) { handler }] *)
Definition try_catch {A} (body handler : Eff A) : Eff A :=
  fun w =>
    match body w with
    | (Returned a, w') => (Returned a, w')
    | (Thrown, w') => handler w'
    end.

Notation "'do' x <- m ;; k" := (bind m (fun x => k))
  (at level 10, x name, m at level 99, k at level 200).

(** [if (error) throw error] *)
Definition throw_if (error : bool) : Eff unit :=
  if error then throw else ret tt.

Definition toast (t : Toast) : Eff unit :=
  fun w => (Returned tt,
            {| backend := backend w; requests := requests w;
               toasts := toasts w ++ [t]; updates := updates w |}).

Definition onUpdate : Eff unit :=
  fun w => (Returned tt,
            {| backend := backend w; requests := requests w;
               toasts := toasts w; updates := S (updates w) |}).

(** What an accepted request does to the tables. *)
Definition apply_request (gen_id : list IdeaVote -> string)
    (r : Request) (b : Backend) : Backend :=
  match r with
  | InsertVote ideaId userId voteType =>
      {| idea_votes := idea_votes b ++
           [{| vote_id := gen_id (idea_votes b); idea_id := ideaId;
               user_id := userId; vote_type := voteType |}];
         ideas_table := ideas_table b |}
  | UpdateVotes ideaId newVotes =>
      {| idea_votes := idea_votes b;
         ideas_table :=
           map (fun idea =>
                  if String.eqb (id idea) ideaId
                  then {| id := id idea; title := title idea;
                          description := description idea;
                          proposer := proposer idea; votes := newVotes;
                          created_at := created_at idea |}
                  else idea) (ideas_table b) |}
  end.

Section Component.
(** The store: which requests it refuses (network failure, constraint,
    policy), and the identifier it gives to a new row. *)
Variable rejects : Request -> bool.
Variable gen_id : list IdeaVote -> string.

(** Props and state of the component at the time of the click. *)
Variable ideas : list Idea.
Variable userVotes : gmap string (list IdeaVote).
Variable userId : string.

(** [await supabase.from(...)...]: sends the request and resolves to the
    [error] of the answer. *)
Definition send (r : Request) : Eff bool :=
  fun w =>
    let error := rejects r in
    (Returned error,
     {| backend := if error then backend w
                   else apply_request gen_id r (backend w);
        requests := requests w ++ [r];
        toasts := toasts w; updates := updates w |}).

Definition voteChange (voteType : VoteType) : Z :=
  match voteType with upvote => 1 | downvote => -1 end.

Definition handleVote (ideaId : string) (voteType : VoteType) : Eff unit :=
  try_catch
    (let existingVotes := existingVotes userVotes ideaId in
     let existingVote :=
       find (fun vote => VoteType_eqb (vote_type vote) voteType)
            existingVotes in
     match existingVote with
     | Some _ => toast (AlreadyVoted voteType)
     | None =>
         do voteError <- send (InsertVote ideaId userId voteType) ;;
         do _ <- throw_if voteError ;;
         let currentIdea :=
           find (fun idea => String.eqb (id idea) ideaId) ideas in
         match currentIdea with
         | None => ret tt
         | Some currentIdea =>
             do updateError <-
               send (UpdateVotes ideaId
                       (votes currentIdea + voteChange voteType)) ;;
             do _ <- throw_if updateError ;;
             do _ <- toast (VoteAdded voteType) ;;
             onUpdate
         end
     end)
    (toast FailedToAddVote).
End Component.

End IdeaVotingBoard.

(** ** Vocabulary of the statements *)

Module Order.

Section Keyed.
Context {A : Type}.
Variable key : A -> JS.number.

(** Earliest key first; no key is NaN. *)
Definition ascending (l : list A) : Prop :=
  StronglySorted (fun a b => JS.le (key a) (key b)) l.

(** Largest key first; no key is NaN. *)
Definition descending (l : list A) : Prop :=
  StronglySorted (fun a b => JS.le (key b) (key a)) l.

(** The entries of [l] whose key is [z], in the order of [l]. *)
Definition with_key (z : Z) (l : list A) : list A :=
  List.filter (fun a => JS.strict_eq (key a) (Some z)) l.
End Keyed.

End Order.

Module Double.
Import JS.

(** The rate for [c] tasks done out of [t], as [completionRate] computes
    it. *)
Definition rate (c t : Z) : double :=
  multiply (divide (toDouble c) (toDouble t)) (toDouble 100).

(** A mantissa shifted to the right with its round and sticky bits: no
    digit 1 has been shifted out. *)
Definition lossless (mrs : shr_record) : Prop :=
  shr_r mrs = false /\ shr_s mrs = false.

(** The rational number that a double holds, when it is finite. *)
Definition value (x : double) : option Q :=
  match x with
  | S754_zero _ => Some 0%Q
  | S754_finite s m e =>
      Some ((if s then -1 else 1) * (inject_Z (Z.pos m) * 2 ^ e))%Q
  | _ => None
  end.

End Double.

Module Deadline.
Import JS DateFns ProgressSummary.


(** The record has a due date and [parseISO] reads it. *)
Definition hasDueDate (tz : Z) (item : ActionItem) : bool :=
  truthy (due_date item)
  && match parseISOOf tz (due_date item) with Some _ => true | None => false end.



(** The record is open and due on today's or tomorrow's calendar date. *)
Definition dueSoon (tz now : Z) (item : ActionItem) : Prop :=
  status item = ToDo /\
  (isToday tz now (parseISOOf tz (due_date item)) = true \/
   isTomorrow tz now (parseISOOf tz (due_date item)) = true).

(** An action item with the given due date and status. *)
Definition task (name : string) (due : field) (s : Status) : ActionItem :=
  {| id := name; description := ""; assignee := ""; due_date := due;
     status := s; meeting_id := None |}.

End Deadline.

Module Board.
Import JS IdeaVotingBoard.

(** The key of the sort by votes. *)
Definition voteCount (i : Idea) : number := Some (votes i).

(** The key of the sort by newest:
    [new Date(idea.created_at || '').getTime()]. *)
Definition createdTime (i : Idea) : number :=
  getTime (newDate (or_empty (created_at i))).

(** An idea with the given vote count and creation timestamp. *)
Definition idea (name : string) (count : Z) (created : field) : Idea :=
  {| id := name; title := name; description := ""; proposer := "";
     votes := count; created_at := created |}.

(** A vote as the store returns it. *)
Definition vote (name ideaId userId : string) (kind : VoteType) : IdeaVote :=
  {| vote_id := name; idea_id := ideaId; user_id := userId;
     vote_type := kind |}.

(** The cache holds a vote of this kind for this idea. *)
Definition voted (userVotes : gmap string (list IdeaVote))
    (ideaId : string) (kind : VoteType) : Prop :=
  exists v, In v (existingVotes userVotes ideaId) /\ vote_type v = kind.

(** The world after a handler has shown one more notice and done nothing
    else. *)
Definition notified (t : Toast) (w : World) : World :=
  {| backend := backend w; requests := requests w;
     toasts := toasts w ++ [t]; updates := updates w |}.

(** The world once a request has gone out to a store that refuses the
    requests in [rejects]. *)
Definition sent (rejects : Request -> bool) (gen_id : list IdeaVote -> string)
    (r : Request) (w : World) : World :=
  {| backend := if rejects r then backend w
                else apply_request gen_id r (backend w);
     requests := requests w ++ [r];
     toasts := toasts w; updates := updates w |}.

(** A world in which nothing has been sent or shown yet. *)
Definition world (rows : list IdeaVote) (table : list Idea) : World :=
  {| backend := {| idea_votes := rows; ideas_table := table |};
     requests := []; toasts := []; updates := 0 |}.

(** A store that accepts every request and names every new row "v". *)
Definition accepts_all (r : Request) : bool := false.
Definition next_id (rows : list IdeaVote) : string := "v".

End Board.

(** ** Calendar days *)

Module Calendar.
Import JS.

(** The number of the local calendar day that holds the instant [t]. *)
Definition localDay (tz t : Z) : Z := (t + tz) / msPerDay.

(** The instant is a local midnight. *)
Definition atMidnight (tz t : Z) : bool := (t + tz) mod msPerDay =? 0.

End Calendar.

(** ** src/components/UpcomingMeetings.tsx: the lists of meetings *)

Module UpcomingMeetings.
Import JS.

Record Meeting := {
  id : string;
  title : string;
  date : field;
  time : string;
  agenda_items : list string;
  is_archived : bool
}.

Definition activeMeetings (meetings : list Meeting) : list Meeting :=
  List.filter (fun meeting => negb (is_archived meeting)) meetings.

Definition archivedMeetings (meetings : list Meeting) : list Meeting :=
  List.filter (fun meeting => is_archived meeting) meetings.

End UpcomingMeetings.

(** ** src/components/ProgressSummary.tsx: the counters *)

Module ProgressCounts.
Import JS ProgressSummary UpcomingMeetings.

(** [a >= b] on Date objects: a comparison of time values, false as soon as
    one of them is NaN. *)
Definition ge (a b : Date) : bool :=
  match a, b with
  | Some x, Some y => y <=? x
  | _, _ => false
  end.

(** [totalTasks - completedTasks] *)
Definition pendingTasks (actionItems : list ActionItem) : Z :=
  Z.of_nat (totalTasks actionItems) - Z.of_nat (completedTasks actionItems).

(** [meetings.filter(meeting => !meeting.is_archived &&
      new Date(meeting.date) >= new Date()).slice(0, 3)] *)
Definition upcomingMeetings (now : Z) (meetings : list Meeting) : list Meeting :=
  slice0 3 (List.filter (fun meeting =>
              negb (is_archived meeting)
              && ge (newDateOf (date meeting)) (Some now)) meetings).

End ProgressCounts.

Module Schedule.
Import JS ProgressSummary UpcomingMeetings.

(** The calendar day that the due date of the record names, when it has a
    due date and [parseISO] can read the date. *)
Definition dueDay (item : ActionItem) : option Z :=
  match due_date item with
  | Some s => DateFns.parseDay s
  | None => None
  end.

(** The calendar day that the due date names, when it is written in the form
    YYYY-MM-DD, in which the application stores it and which [parseISO] and
    the Date constructor read alike. *)
Definition storedDay (item : ActionItem) : option Z :=
  match due_date item with
  | Some s => parseCalendarDate s
  | None => None
  end.

(** The time value that the Date constructor reads from the date of the
    meeting is at or after [now]. *)
Definition notBefore (now : Z) (meeting : Meeting) : Prop :=
  exists t, newDateOf (date meeting) = Some t /\ now <= t.

(** A meeting with the given date. *)
Definition meeting (name : string) (day : field) (archived : bool) : Meeting :=
  {| id := name; title := name; date := day; time := "10:00";
     agenda_items := []; is_archived := archived |}.

End Schedule.

(** ** The idea voting board: loading the votes of the current user *)

Module VoteCache.
Import JS IdeaVotingBoard.

(** The rows that the query of [fetchUserVotes] selects:
    [.eq('user_id', userId).in('idea_id', ideas.map(idea => idea.id))]. *)
Definition selectUserVotes (ideas : list Idea) (userId : string)
    (rows : list IdeaVote) : list IdeaVote :=
  List.filter (fun v =>
                 String.eqb (user_id v) userId
                 && existsb (fun idea => String.eqb (idea_id v) (id idea)) ideas)
              rows.

(** [fetchUserVotes], from the cache it finds to the cache it leaves.  With
    no ideas it returns at once; an [error] of the query is thrown, caught
    and logged; otherwise the rows are grouped and stored with
    [setUserVotes]. *)
Definition fetchUserVotes (error : bool) (ideas : list Idea) (userId : string)
    (rows : list IdeaVote) (userVotes : gmap string (list IdeaVote))
    : gmap string (list IdeaVote) :=
  if (length ideas =? 0)%nat then userVotes
  else if error then userVotes
  else votesByIdea (selectUserVotes ideas userId rows).

End VoteCache.

(** ** date-fns: [format(date, 'yyyy-MM-dd')] *)

Module DateFormat.
Import JS Calendar.

(** The civil date (year, month 1..12, day) of a day number: the inverse of
    [daysFromCivil]. *)
Definition civilFromDays (n : Z) : Z * Z * Z :=
  let z := n + 719468 in
  let era := z / 146097 in
  let doe := z - era * 146097 in
  let yoe := (doe - doe / 1460 + doe / 36524 - doe / 146096) / 365 in
  let doy := doe - (365 * yoe + yoe / 4 - yoe / 100) in
  let mp := (5 * doy + 2) / 153 in
  let d := doy - (153 * mp + 2) / 5 + 1 in
  let m := if mp <? 10 then mp + 3 else mp - 9 in
  let y := yoe + era * 400 in
  (if m <=? 2 then y + 1 else y, m, d).

(** [n.toString()] for an integer that is not negative. *)
Definition toString (n : Z) : string :=
  NilZero.string_of_uint (N.to_uint (Z.to_N n)).

Fixpoint zeros (k : nat) : string :=
  match k with
  | O => ""
  | S k' => String "0" (zeros k')
  end.

(** [s.padStart(targetLength, '0')] *)
Definition padStart (targetLength : nat) (s : string) : string :=
  (zeros (targetLength - String.length s) ++ s)%string.

(** [addLeadingZeros(number, targetLength)] of date-fns. *)
Definition addLeadingZeros (number : Z) (targetLength : nat) : string :=
  ((if (number <? 0)%Z then "-" else "")
   ++ padStart targetLength (toString (Z.abs number)))%string.

(** [format(date, 'yyyy-MM-dd')], in the local time zone; [None] stands for
    the RangeError that an Invalid Date raises.  The token [yyyy] prints
    the year of the era: [1 - year] for a year that is not positive. *)
Definition format_yyyy_MM_dd (tz : Z) (date : Date) : option string :=
  match date with
  | None => None
  | Some t =>
      let '(y, m, d) := civilFromDays (localDay tz t) in
      let year := if 0 <? y then y else 1 - y in
      Some (addLeadingZeros year 4 ++ "-" ++ addLeadingZeros m 2
            ++ "-" ++ addLeadingZeros d 2)%string
  end.

(** The character of a decimal digit. *)
Definition digitChar (k : Z) : ascii := ascii_of_nat (48 + Z.to_nat k).

(** The day numbers of 0001-01-01 and of 9999-12-31. *)
Definition firstDay : Z := -719162.
Definition lastDay : Z := 2932896.

End DateFormat.

(** ** src/components/UpcomingMeetings.tsx: the agenda of the form *)

Module MeetingForm.
Import JS UpcomingMeetings.

Definition newline : ascii := ascii_of_nat 10.

(** [text.split('\n')]: the pieces between the line feeds; there is always
    at least one piece. *)
Fixpoint split (text : string) : list string :=
  match text with
  | EmptyString => [EmptyString]
  | String c rest =>
      if Ascii.eqb c newline then EmptyString :: split rest
      else match split rest with
           | piece :: pieces => String c piece :: pieces
           | [] => [String c EmptyString]
           end
  end.

(** [items.join('\n')] *)
Fixpoint join (items : list string) : string :=
  match items with
  | [] => EmptyString
  | [item] => item
  | item :: rest => (item ++ String newline (join rest))%string
  end.

Section Trim.
(** The code units that [trim] removes: the white space and the line
    terminators of ECMAScript. *)
Variable isWhiteSpace : ascii -> bool.

Fixpoint trimStart (s : string) : string :=
  match s with
  | EmptyString => EmptyString
  | String c rest => if isWhiteSpace c then trimStart rest else s
  end.

Fixpoint trimEnd (s : string) : string :=
  match s with
  | EmptyString => EmptyString
  | String c rest =>
      match trimEnd rest with
      | EmptyString => if isWhiteSpace c then EmptyString
                       else String c EmptyString
      | kept => String c kept
      end
  end.

(** [s.trim()] *)
Definition trim (s : string) : string := trimStart (trimEnd s).

(** [formData.agenda_items.split('\n').map(item => item.trim())
      .filter(item => item.length > 0)] *)
Definition agendaArray (agenda_items : string) : list string :=
  List.filter (fun item => (0 <? String.length item)%nat)
              (map trim (split agenda_items)).
End Trim.

(** The agenda text that [handleEdit] puts into the form:
    [meeting.agenda_items.join('\n')]. *)
Definition agendaText (m : Meeting) : string := join (agenda_items m).

(** The string has no line feed. *)
Fixpoint oneLine (s : string) : bool :=
  match s with
  | EmptyString => true
  | String c rest => negb (Ascii.eqb c newline) && oneLine rest
  end.

(** An agenda item as the form stores it: not empty, nothing for [trim] to
    remove, no line feed. *)
Definition tidy (isWhiteSpace : ascii -> bool) (item : string) : Prop :=
  trim isWhiteSpace item = item /\ item <> EmptyString /\ oneLine item = true.

(** The white space of ASCII. *)
Definition asciiWhiteSpace (c : ascii) : bool :=
  let n := nat_of_ascii c in
  ((9 <=? n) && (n <=? 13))%nat || (n =? 32)%nat.

End MeetingForm.

(** ** src/components/Settings.tsx: the theme *)

Module Theme.
Import JS.

(** What the theme code reads and writes: the state [darkMode] of the
    component, the local storage of the browser and the class list of the
    root element. *)
Record Page := {
  darkMode : bool;
  localStorage : gmap string string;
  classList : gset string
}.

(** [isDark.toString()] *)
Definition boolToString (b : bool) : string :=
  if b then "true"%string else "false"%string.

Definition updateTheme (isDark : bool) (classes : gset string) : gset string :=
  if isDark then classes ∪ {["dark"%string]} else classes ∖ {["dark"%string]}.

(** The preference that the effect of the first render computes;
    [prefersDark] is [window.matchMedia('(prefers-color-scheme: dark)').matches]. *)
Definition savedOrSystem (prefersDark : bool) (storage : gmap string string) : bool :=
  match storage !! "darkMode"%string with
  | Some s => String.eqb s "true"
  | None => false
  end
  || (negb (truthy (storage !! "darkMode"%string)) && prefersDark).

(** The effect of the first render. *)
Definition mount (prefersDark : bool) (p : Page) : Page :=
  let isDark := savedOrSystem prefersDark (localStorage p) in
  {| darkMode := isDark;
     localStorage := localStorage p;
     classList := updateTheme isDark (classList p) |}.

Definition toggleDarkMode (p : Page) : Page :=
  let newDarkMode := negb (darkMode p) in
  {| darkMode := newDarkMode;
     localStorage := <["darkMode"%string := boolToString newDarkMode]> (localStorage p);
     classList := updateTheme newDarkMode (classList p) |}.

(** What happens to the settings page: it is rendered for the first time,
    or the switch is clicked. *)
Inductive Event :=
| Mounted (prefersDark : bool)
| Toggled.

Definition step (p : Page) (e : Event) : Page :=
  match e with
  | Mounted prefersDark => mount prefersDark p
  | Toggled => toggleDarkMode p
  end.

Definition run (events : list Event) (p : Page) : Page :=
  fold_left step events p.

(** The stored choice is the state of the switch. *)
Definition stored_choice_agrees (p : Page) : Prop :=
  localStorage p !! "darkMode"%string = Some (boolToString (darkMode p)).

End Theme.

(** ** The store behind the other handlers

    The four tables that the components read and write through the
    supabase client, the requests that their handlers send, and what a
    request does to the tables when the store accepts it. *)

Module Store.
Import JS.

Abbreviation ActionItem := ProgressSummary.ActionItem.
Abbreviation Status := ProgressSummary.Status.
Abbreviation Meeting := UpcomingMeetings.Meeting.
Abbreviation Idea := IdeaVotingBoard.Idea.
Abbreviation IdeaVote := IdeaVotingBoard.IdeaVote.

Record Database := {
  meetings : list Meeting;
  action_items : list ActionItem;
  ideas : list Idea;
  idea_votes : list IdeaVote
}.

Inductive Request :=
(** [from('action_items').update({ status }).eq('id', id)] *)
| UpdateStatus (id : string) (newStatus : Status)
(** [from('action_items').insert({ description, assignee, due_date, meeting_id })] *)
| InsertActionItem (description assignee due_date : string) (meeting_id : field)
(** [from('idea_votes').delete().eq('idea_id', id)] *)
| DeleteVotesOfIdea (ideaId : string)
(** [from('ideas').delete().eq('id', id)] *)
| DeleteIdea (id : string)
(** [from('meetings').update({ is_archived: true }).eq('is_archived', false)] *)
| ArchiveMeetings
(** [from('action_items').delete().eq('status', 'Done')] *)
| DeleteDoneItems
(** [from('meetings').select('id').eq('is_archived', true)] *)
| SelectArchivedIds
(** [from('action_items').delete().in('meeting_id', meetingIds)] *)
| DeleteItemsOfMeetings (meetingIds : list string)
(** [from('meetings').delete().eq('is_archived', true)] *)
| DeleteArchivedMeetings
(** [from(table).delete().neq('id', id)] for the three tables *)
| DeleteItemsBut (id : string)
| DeleteMeetingsBut (id : string)
| DeleteIdeasBut (id : string).

Definition setStatus (s : Status) (item : ActionItem) : ActionItem :=
  {| ProgressSummary.id := ProgressSummary.id item;
     ProgressSummary.description := ProgressSummary.description item;
     ProgressSummary.assignee := ProgressSummary.assignee item;
     ProgressSummary.due_date := ProgressSummary.due_date item;
     ProgressSummary.status := s;
     ProgressSummary.meeting_id := ProgressSummary.meeting_id item |}.

Definition archived (m : Meeting) : Meeting :=
  {| UpcomingMeetings.id := UpcomingMeetings.id m;
     UpcomingMeetings.title := UpcomingMeetings.title m;
     UpcomingMeetings.date := UpcomingMeetings.date m;
     UpcomingMeetings.time := UpcomingMeetings.time m;
     UpcomingMeetings.agenda_items := UpcomingMeetings.agenda_items m;
     UpcomingMeetings.is_archived := true |}.

(** [meeting_id IN (ids)]: a null [meeting_id] matches nothing. *)
Definition refersTo (ids : list string) (item : ActionItem) : bool :=
  match ProgressSummary.meeting_id item with
  | Some mid => existsb (String.eqb mid) ids
  | None => false
  end.

Section Apply.
(** The row that the store makes of an insert (its identifier and the
    defaults of the columns that the request leaves out). *)
Variable new_item : string -> string -> string -> field -> Database -> ActionItem.

Definition apply_request (r : Request) (d : Database) : Database :=
  match r with
  | UpdateStatus id newStatus =>
      {| meetings := meetings d;
         action_items :=
           map (fun item => if String.eqb (ProgressSummary.id item) id
                            then setStatus newStatus item else item)
               (action_items d);
         ideas := ideas d; idea_votes := idea_votes d |}
  | InsertActionItem description assignee due_date meeting_id =>
      {| meetings := meetings d;
         action_items :=
           action_items d
           ++ [new_item description assignee due_date meeting_id d];
         ideas := ideas d; idea_votes := idea_votes d |}
  | DeleteVotesOfIdea ideaId =>
      {| meetings := meetings d; action_items := action_items d;
         ideas := ideas d;
         idea_votes :=
           List.filter (fun v => negb (String.eqb (IdeaVotingBoard.idea_id v) ideaId))
                       (idea_votes d) |}
  | DeleteIdea id =>
      {| meetings := meetings d; action_items := action_items d;
         ideas :=
           List.filter (fun i => negb (String.eqb (IdeaVotingBoard.id i) id))
                       (ideas d);
         idea_votes := idea_votes d |}
  | ArchiveMeetings =>
      {| meetings :=
           map (fun m => if UpcomingMeetings.is_archived m then m else archived m)
               (meetings d);
         action_items := action_items d;
         ideas := ideas d; idea_votes := idea_votes d |}
  | DeleteDoneItems =>
      {| meetings := meetings d;
         action_items :=
           List.filter (fun item =>
                          negb (ProgressSummary.Status_eqb
                                  (ProgressSummary.status item) ProgressSummary.Done))
                       (action_items d);
         ideas := ideas d; idea_votes := idea_votes d |}
  | SelectArchivedIds => d
  | DeleteItemsOfMeetings meetingIds =>
      {| meetings := meetings d;
         action_items :=
           List.filter (fun item => negb (refersTo meetingIds item))
                       (action_items d);
         ideas := ideas d; idea_votes := idea_votes d |}
  | DeleteArchivedMeetings =>
      {| meetings :=
           List.filter (fun m => negb (UpcomingMeetings.is_archived m))
                       (meetings d);
         action_items := action_items d;
         ideas := ideas d; idea_votes := idea_votes d |}
  | DeleteItemsBut id =>
      {| meetings := meetings d;
         action_items :=
           List.filter (fun item => String.eqb (ProgressSummary.id item) id)
                       (action_items d);
         ideas := ideas d; idea_votes := idea_votes d |}
  | DeleteMeetingsBut id =>
      {| meetings :=
           List.filter (fun m => String.eqb (UpcomingMeetings.id m) id)
                       (meetings d);
         action_items := action_items d;
         ideas := ideas d; idea_votes := idea_votes d |}
  | DeleteIdeasBut id =>
      {| meetings := meetings d; action_items := action_items d;
         ideas :=
           List.filter (fun i => String.eqb (IdeaVotingBoard.id i) id) (ideas d);
         idea_votes := idea_votes d |}
  end.
End Apply.

(** A notice: [toast({ title, description, variant })]. *)
Record Toast := {
  toast_title : string;
  toast_description : string;
  toast_destructive : bool
}.

Definition success (description : string) : Toast :=
  {| toast_title := "Success"; toast_description := description;
     toast_destructive := false |}.

Definition failure (description : string) : Toast :=
  {| toast_title := "Error"; toast_description := description;
     toast_destructive := true |}.

(** The world of a handler: the store, the requests sent so far (the
    refused ones too), the notices shown, the calls of [onUpdate], and the
    state [ui] of the component. *)
Record World (U : Type) := {
  db : Database;
  sent : list Request;
  toasts : list Toast;
  updates : nat;
  ui : U
}.
Arguments db {U} w.
Arguments sent {U} w.
Arguments toasts {U} w.
Arguments updates {U} w.
Arguments ui {U} w.

Abbreviation Outcome := IdeaVotingBoard.Outcome.
Abbreviation Returned := IdeaVotingBoard.Returned.
Abbreviation Thrown := IdeaVotingBoard.Thrown.

Section Effects.
Context {U : Type}.

Definition Eff (A : Type) : Type := World U -> Outcome A * World U.

Definition ret {A} (a : A) : Eff A := fun w => (Returned a, w).

Definition bind {A B} (m : Eff A) (k : A -> Eff B) : Eff B :=
  fun w =>
    match m w with
    | (IdeaVotingBoard.Returned a, w') => k a w'
    | (IdeaVotingBoard.Thrown, w') => (Thrown, w')
    end.

Definition throw {A} : Eff A := fun w => (Thrown, w).

Definition try_catch {A} (body handler : Eff A) : Eff A :=
  fun w =>
    match body w with
    | (IdeaVotingBoard.Returned a, w') => (Returned a, w')
    | (IdeaVotingBoard.Thrown, w') => handler w'
    end.

Definition throw_if (error : bool) : Eff unit :=
  if error then throw else ret tt.

Definition toast (t : Toast) : Eff unit :=
  fun w => (Returned tt,
            {| db := db w; sent := sent w; toasts := toasts w ++ [t];
               updates := updates w; ui := ui w |}).

Definition onUpdate : Eff unit :=
  fun w => (Returned tt,
            {| db := db w; sent := sent w; toasts := toasts w;
               updates := S (updates w); ui := ui w |}).

(** A state setter of the component. *)
Definition setState (f : U -> U) : Eff unit :=
  fun w => (Returned tt,
            {| db := db w; sent := sent w; toasts := toasts w;
               updates := updates w; ui := f (ui w) |}).

Definition getState : Eff U := fun w => (Returned (ui w), w).

Definition getDb : Eff Database := fun w => (Returned (db w), w).

Variable rejects : Request -> bool.
Variable new_item : string -> string -> string -> field -> Database -> ActionItem.

(** [await supabase.from(...)...]: the request goes out and resolves to the
    [error] of the answer; the client does not throw. *)
Definition send (r : Request) : Eff bool :=
  fun w =>
    let error := rejects r in
    (Returned error,
     {| db := if error then db w else apply_request new_item r (db w);
        sent := sent w ++ [r];
        toasts := toasts w; updates := updates w; ui := ui w |}).
End Effects.

Notation "'do' x <- m ;; k" := (bind m (fun x => k))
  (at level 10, x name, m at level 99, k at level 200).

(** The worlds that the steps of a handler lead to. *)
Section Worlds.
Context {U : Type}.
Variable rejects : Request -> bool.
Variable new_item : string -> string -> string -> field -> Database -> ActionItem.

(** after a request has gone out *)
Definition after (r : Request) (w : World U) : World U :=
  {| db := if rejects r then db w else apply_request new_item r (db w);
     sent := sent w ++ [r];
     toasts := toasts w; updates := updates w; ui := ui w |}.

(** after a notice *)
Definition shown (t : Toast) (w : World U) : World U :=
  {| db := db w; sent := sent w; toasts := toasts w ++ [t];
     updates := updates w; ui := ui w |}.

(** after a call of [onUpdate] *)
Definition refreshed (w : World U) : World U :=
  {| db := db w; sent := sent w; toasts := toasts w;
     updates := S (updates w); ui := ui w |}.

(** after the state of the component was set *)
Definition with_ui (u : U) (w : World U) : World U :=
  {| db := db w; sent := sent w; toasts := toasts w;
     updates := updates w; ui := u |}.
End Worlds.

(** A store that accepts every request. *)
Definition accepts_all (r : Request) : bool := false.

(** A store that gives a new action item the identifier "new" and the
    status To Do. *)
Definition plain_item (description assignee due_date : string)
    (meeting_id : field) (d : Database) : ActionItem :=
  {| ProgressSummary.id := "new";
     ProgressSummary.description := description;
     ProgressSummary.assignee := assignee;
     ProgressSummary.due_date := Some due_date;
     ProgressSummary.status := ProgressSummary.ToDo;
     ProgressSummary.meeting_id := meeting_id |}.

(** A world in which nothing has been sent or shown yet. *)
Definition start {U : Type} (d : Database) (u : U) : World U :=
  {| db := d; sent := []; toasts := []; updates := 0; ui := u |}.

End Store.

(** ** The action items table (component [ActionItems]) *)

Module ActionItems.
Import JS Store.

Record FormData := {
  description : string;
  assignee : string;
  (** [undefined], or the Date that the calendar of the form holds *)
  due_date : option Date;
  meeting_id : string
}.

Record State := {
  formData : FormData;
  isDialogOpen : bool
}.

Definition emptyForm : FormData :=
  {| description := ""; assignee := ""; due_date := None; meeting_id := "" |}.

(** The two values of the column [status]. *)
Definition statusText (s : Status) : string :=
  match s with
  | ProgressSummary.ToDo => "To Do"
  | ProgressSummary.Done => "Done"
  end.

(** [currentStatus === 'To Do' ? 'Done' : 'To Do'] *)
Definition newStatusOf (currentStatus : Status) : Status :=
  if ProgressSummary.Status_eqb currentStatus ProgressSummary.ToDo
  then ProgressSummary.Done else ProgressSummary.ToDo.

(** The two failure notices of the form. *)
Definition required : Toast := failure "Please fill in all required fields".
Definition not_created : Toast := failure "Failed to create action item".

(** [s || null] *)
Definition or_null (s : string) : field :=
  if String.eqb s "" then None else Some s.

Section Component.
Variable tz : Z.
Variable rejects : Request -> bool.
Variable new_item : string -> string -> string -> field -> Database -> ActionItem.
Variable meetings : list Meeting.

(** The guard [!description || !assignee || !due_date] is written here with
    the test of the date first: a Date object, valid or not, is truthy. *)
Definition handleSubmit : Eff (U := State) unit :=
  do state <- getState ;;
  let formData := formData state in
  match due_date formData with
  | Some date =>
      if String.eqb (description formData) "" || String.eqb (assignee formData) ""
      then toast (failure "Please fill in all required fields")
      else
        try_catch
          (match DateFormat.format_yyyy_MM_dd tz date with
           | None => throw
           | Some due =>
               do error <- send rejects new_item
                             (InsertActionItem (description formData)
                                (assignee formData) due
                                (or_null (meeting_id formData))) ;;
               do _ <- throw_if error ;;
               do _ <- toast (success "Action item created successfully") ;;
               do _ <- setState (fun _ => {| formData := emptyForm;
                                             isDialogOpen := false |}) ;;
               onUpdate
           end)
          (toast (failure "Failed to create action item"))
  | None => toast (failure "Please fill in all required fields")
  end.

Definition toggleStatus (id : string) (currentStatus : Status)
    : Eff (U := State) unit :=
  try_catch
    (let newStatus := newStatusOf currentStatus in
     do error <- send rejects new_item (UpdateStatus id newStatus) ;;
     do _ <- throw_if error ;;
     do _ <- toast (success ("Task marked as " ++ statusText newStatus)) ;;
     onUpdate)
    (toast (failure "Failed to update task status")).

Definition getMeetingTitle (meetingId : string) : string :=
  match find (fun m => String.eqb (UpcomingMeetings.id m) meetingId) meetings with
  | Some meeting => UpcomingMeetings.title meeting
  | None => "No meeting assigned"
  end.

(** The cell of the column "Meeting":
    [item.meeting_id ? getMeetingTitle(item.meeting_id) : 'No meeting']. *)
Definition meetingCell (item : ActionItem) : string :=
  match ProgressSummary.meeting_id item with
  | Some mid => if String.eqb mid "" then "No meeting" else getMeetingTitle mid
  | None => "No meeting"
  end.

(** Whether the row shows the badge "Overdue":
    [new Date(item.due_date) < new Date() && item.status === 'To Do']. *)
Definition rowOverdue (now : Z) (item : ActionItem) : bool :=
  lt (newDateOf (ProgressSummary.due_date item)) (Some now)
  && ProgressSummary.Status_eqb (ProgressSummary.status item) ProgressSummary.ToDo.
End Component.

End ActionItems.

(** ** Deleting an idea (component [IdeaVotingBoard]) *)

Module IdeaDeletion.
Import JS Store.

Record State := {
  selectedIdea : option Idea;
  isDeleteDialogOpen : bool
}.

Section Component.
Variable rejects : Request -> bool.
Variable new_item : string -> string -> string -> field -> Database -> ActionItem.

Definition handleDeleteIdea : Eff (U := State) unit :=
  do state <- getState ;;
  match selectedIdea state with
  | None => ret tt
  | Some selected =>
      try_catch
        (do votesError <- send rejects new_item
                            (DeleteVotesOfIdea (IdeaVotingBoard.id selected)) ;;
         do _ <- throw_if votesError ;;
         do ideaError <- send rejects new_item
                           (DeleteIdea (IdeaVotingBoard.id selected)) ;;
         do _ <- throw_if ideaError ;;
         do _ <- toast (success "Idea deleted successfully") ;;
         do _ <- setState (fun s => {| selectedIdea := selectedIdea s;
                                       isDeleteDialogOpen := false |}) ;;
         do _ <- setState (fun s => {| selectedIdea := None;
                                       isDeleteDialogOpen := isDeleteDialogOpen s |}) ;;
         onUpdate)
        (toast (failure "Failed to delete idea"))
  end.
End Component.

End IdeaDeletion.

(** ** src/components/Settings.tsx: the bulk operations *)

Module Settings.
Import JS Store.

(** The identifier that the filters of [clearAllData] spare. *)
Definition nil_uuid : string := "00000000-0000-0000-0000-000000000000".

Section Component.
Context {U : Type}.
Variable rejects : Request -> bool.
Variable new_item : string -> string -> string -> field -> Database -> ActionItem.

Definition archiveAllMeetings : Eff (U := U) unit :=
  try_catch
    (do error <- send rejects new_item ArchiveMeetings ;;
     do _ <- throw_if error ;;
     do _ <- toast (success "All meetings have been archived") ;;
     onUpdate)
    (toast (failure "Failed to archive meetings")).

Definition clearCompletedTasks : Eff (U := U) unit :=
  try_catch
    (do error <- send rejects new_item DeleteDoneItems ;;
     do _ <- throw_if error ;;
     do _ <- toast (success "Completed tasks have been cleared") ;;
     onUpdate)
    (toast (failure "Failed to clear completed tasks")).

Definition deleteAllArchivedMeetings : Eff (U := U) unit :=
  try_catch
    (do fetchError <- send rejects new_item SelectArchivedIds ;;
     do _ <- throw_if fetchError ;;
     do d <- getDb ;;
     let archivedMeetings :=
       List.filter (fun m => UpcomingMeetings.is_archived m) (meetings d) in
     do _ <- (if (0 <? length archivedMeetings)%nat then
                let meetingIds := map UpcomingMeetings.id archivedMeetings in
                do actionItemsError <-
                  send rejects new_item (DeleteItemsOfMeetings meetingIds) ;;
                do _ <- throw_if actionItemsError ;;
                do meetingsError <- send rejects new_item DeleteArchivedMeetings ;;
                throw_if meetingsError
              else ret tt) ;;
     do _ <- toast (success
               "All archived meetings and related action items have been deleted") ;;
     onUpdate)
    (toast (failure "Failed to delete archived meetings")).

Definition clearAllData : Eff (U := U) unit :=
  try_catch
    (do _ <- send rejects new_item (DeleteItemsBut nil_uuid) ;;
     do _ <- send rejects new_item (DeleteMeetingsBut nil_uuid) ;;
     do _ <- send rejects new_item (DeleteIdeasBut nil_uuid) ;;
     do _ <- toast (success "All data has been cleared") ;;
     onUpdate)
    (toast (failure "Failed to clear all data")).
End Component.

End Settings.

(** ** Small worlds for the examples *)

Module Sample.
Import JS Store.

Definition items : list ActionItem :=
  [Deadline.task "a" (Some "2024-06-10"%string) ProgressSummary.ToDo;
   Deadline.task "b" (Some "2024-06-11"%string) ProgressSummary.Done].

Definition lists : list Meeting :=
  [Schedule.meeting "m1" (Some "2024-06-12"%string) false;
   Schedule.meeting "m2" (Some "2024-06-01"%string) true].

Definition database : Database :=
  {| meetings := lists; action_items := items;
     ideas := [Board.idea "A" 10 None; Board.idea "B" 3 None];
     idea_votes := [Board.vote "v1" "A" "u" IdeaVotingBoard.upvote;
                    Board.vote "v2" "B" "u" IdeaVotingBoard.upvote] |}.

Definition closedForm : ActionItems.State :=
  {| ActionItems.formData := ActionItems.emptyForm;
     ActionItems.isDialogOpen := false |}.

Definition filledForm : ActionItems.State :=
  {| ActionItems.formData :=
       {| ActionItems.description := "Write the report";
          ActionItems.assignee := "Sam";
          ActionItems.due_date := Some (Some 1718013600000);
          ActionItems.meeting_id := "" |};
     ActionItems.isDialogOpen := true |}.

Definition deleting : IdeaDeletion.State :=
  {| IdeaDeletion.selectedIdea := Some (Board.idea "A" 10 None);
     IdeaDeletion.isDeleteDialogOpen := true |}.

End Sample.

(** * Properties *)

(** ** Array.prototype.sort *)

Module SortFacts.
Import JS Order.

Lemma le_trans (a b c : number) : le a b -> le b c -> le a c.
Proof. destruct a, b, c; simpl; try tauto. lia. Qed.

Section Comparator.
Context {A : Type}.
Variable comparefn : A -> A -> number.

Lemma insert_Permutation (x : A) (l : list A) :
  Permutation (x :: l) (insert comparefn x l).
Proof.
  induction l as [|h t IH]; simpl.
  - reflexivity.
  - destruct (goes_after comparefn x h).
    + rewrite perm_swap. now apply perm_skip.
    + reflexivity.
Qed.

Lemma sort_Permutation (l : list A) : Permutation l (sort comparefn l).
Proof.
  induction l as [|h t IH]; simpl.
  - reflexivity.
  - rewrite <- insert_Permutation. now apply perm_skip.
Qed.

Lemma sort_In (a : A) (l : list A) : In a (sort comparefn l) <-> In a l.
Proof.
  split; apply Permutation_in;
    [symmetry|]; apply sort_Permutation.
Qed.

Lemma sort_length (l : list A) : length (sort comparefn l) = length l.
Proof. symmetry. apply Permutation_length, sort_Permutation. Qed.

(** The comparator is a difference of keys: [key(a) - key(b)]. *)
Variable key : A -> number.
Hypothesis comparefn_key : forall a b, comparefn a b = sub (key a) (key b).

Lemma goes_after_true (a b : A) :
  goes_after comparefn a b = true ->
  exists x y, key a = Some x /\ key b = Some y /\ y < x.
Proof.
  unfold goes_after. rewrite comparefn_key.
  destruct (key a) as [x|], (key b) as [y|]; simpl; try discriminate.
  intros H. exists x, y. repeat split. apply Z.ltb_lt in H. lia.
Qed.

Lemma goes_after_false (a b : A) (x y : Z) :
  key a = Some x -> key b = Some y ->
  goes_after comparefn a b = false -> x <= y.
Proof.
  unfold goes_after. rewrite comparefn_key. intros -> ->. simpl.
  intros H. apply Z.ltb_ge in H. lia.
Qed.

(** Stability: the entries that share a key stay in their order.  This
    needs nothing of the keys. *)
Lemma with_key_insert (z : Z) (x : A) (l : list A) :
  with_key key z (insert comparefn x l) = with_key key z (x :: l).
Proof.
  unfold with_key.
  induction l as [|h t IH]; simpl; [reflexivity|].
  destruct (goes_after comparefn x h) eqn:E; [|reflexivity].
  simpl. rewrite IH. simpl.
  destruct (goes_after_true _ _ E) as (a & b & Ha & Hb & Hlt).
  rewrite Ha, Hb. simpl.
  destruct (a =? z) eqn:Ea, (b =? z) eqn:Eb; try reflexivity.
  apply Z.eqb_eq in Ea, Eb. lia.
Qed.

Lemma sort_stable (z : Z) (l : list A) :
  with_key key z (sort comparefn l) = with_key key z l.
Proof.
  induction l as [|h t IH]; simpl; [reflexivity|].
  rewrite with_key_insert. unfold with_key in *. simpl. now rewrite IH.
Qed.

(** Order: when no key is NaN, the result is ascending. *)
Lemma insert_ascending (x : A) (l : list A) :
  is_Some (key x) -> Forall (fun a => is_Some (key a)) l ->
  ascending key l -> ascending key (insert comparefn x l).
Proof.
  unfold ascending. intros [kx Hx] Hl Hs.
  induction l as [|h t IH]; simpl.
  - repeat constructor.
  - apply Forall_cons in Hl as [[kh Hh] Ht].
    apply StronglySorted_inv in Hs as [Hs Hh_le].
    destruct (goes_after comparefn x h) eqn:E.
    + constructor; [now apply IH|].
      rewrite <- insert_Permutation. constructor; [|exact Hh_le].
      destruct (goes_after_true _ _ E) as (a & b & Ha & Hb & Hlt).
      rewrite Ha, Hb. simpl. lia.
    + assert (Hxh : le (key x) (key h)).
      { rewrite Hx, Hh. simpl. eapply goes_after_false; eauto. }
      constructor; [now constructor|].
      constructor; [exact Hxh|].
      eapply Forall_impl; [exact Hh_le|].
      intros a Ha. simpl in Ha. eapply le_trans; eauto.
Qed.

Lemma sort_ascending (l : list A) :
  Forall (fun a => is_Some (key a)) l -> ascending key (sort comparefn l).
Proof.
  induction l as [|h t IH]; simpl; intros Hl.
  - constructor.
  - apply Forall_cons in Hl as [Hh Ht].
    apply insert_ascending; [exact Hh| |now apply IH].
    now rewrite <- sort_Permutation.
Qed.
End Comparator.

Lemma StronglySorted_weaken {A} (R R' : A -> A -> Prop) (l : list A) :
  (forall a b, R a b -> R' a b) -> StronglySorted R l -> StronglySorted R' l.
Proof.
  intros HR Hs. induction Hs as [|a l Hs IH Ha]; constructor.
  - exact IH.
  - eapply Forall_impl; [exact Ha|]. intros b. apply HR.
Qed.

(** The comparator is the difference the other way round,
    [key(b) - key(a)]: the same facts hold with the order reversed. *)
Section Reversed.
Context {A : Type}.
Variable comparefn : A -> A -> number.
Variable key : A -> number.
Hypothesis comparefn_key : forall a b, comparefn a b = sub (key b) (key a).

Lemma comparefn_neg (a b : A) :
  comparefn a b = sub (neg (key a)) (neg (key b)).
Proof.
  rewrite comparefn_key.
  destruct (key a), (key b); simpl; try reflexivity. f_equal. lia.
Qed.

Lemma sort_descending (l : list A) :
  Forall (fun a => is_Some (key a)) l -> descending key (sort comparefn l).
Proof.
  intros Hl.
  apply StronglySorted_weaken
    with (R := fun a b => le (neg (key a)) (neg (key b))).
  - intros a b. destruct (key a), (key b); simpl; try tauto. lia.
  - apply (sort_ascending comparefn (fun a => neg (key a)) comparefn_neg).
    eapply Forall_impl; [exact Hl|].
    intros a [x Hx]. rewrite Hx. simpl. eauto.
Qed.

Lemma sort_stable_reversed (z : Z) (l : list A) :
  with_key key z (sort comparefn l) = with_key key z l.
Proof.
  assert (E : forall l', with_key key z l'
                         = with_key (fun a => neg (key a)) (- z) l').
  { intros l'. apply List.filter_ext. intros a.
    destruct (key a) as [x|]; simpl; [|reflexivity].
    destruct (Z.eqb_spec x z), (Z.eqb_spec (- x) (- z)); lia || reflexivity. }
  rewrite !E. apply (sort_stable comparefn _ comparefn_neg).
Qed.
End Reversed.

End SortFacts.

(** ** date-fns on invalid dates, and the two readings of a due date *)

Module DateFacts.
Import JS DateFns.

Lemma isToday_NaN tz now : isToday tz now NaN = false.
Proof. reflexivity. Qed.

Lemma isTomorrow_NaN tz now : isTomorrow tz now NaN = false.
Proof. reflexivity. Qed.

Lemma isBefore_NaN c : isBefore NaN c = false.
Proof. reflexivity. Qed.

(** A string in the form YYYY-MM-DD that names a day of the calendar. *)
Lemma parseCalendarDate_inv s n :
  parseCalendarDate s = Some n ->
  exists y1 y2 y3 y4 m1 m2 d1 d2 a b c e f g h i,
    s = String y1 (String y2 (String y3 (String y4 (String "-"
          (String m1 (String m2 (String "-"
            (String d1 (String d2 EmptyString)))))))))
    /\ digit y1 = Some a /\ digit y2 = Some b /\ digit y3 = Some c
    /\ digit y4 = Some e /\ digit m1 = Some f /\ digit m2 = Some g
    /\ digit d1 = Some h /\ digit d2 = Some i
    /\ 1 <= 10 * f + g <= 12
    /\ 1 <= 10 * h + i <= daysInMonth (1000 * a + 100 * b + 10 * c + e)
                                       (10 * f + g)
    /\ n = daysFromCivil (1000 * a + 100 * b + 10 * c + e)
                         (10 * f + g) (10 * h + i).
Proof.
  intros H.
  destruct s as [|y1 [|y2 [|y3 [|y4 [|c5 s]]]]]; try discriminate H.
  destruct (ascii_dec c5 "-") as [->|N5];
    [|exfalso; destruct c5 as [[|] [|] [|] [|] [|] [|] [|] [|]];
      try discriminate H; now apply N5].
  destruct s as [|m1 [|m2 [|c8 s]]]; try discriminate H.
  destruct (ascii_dec c8 "-") as [->|N8];
    [|exfalso; destruct c8 as [[|] [|] [|] [|] [|] [|] [|] [|]];
      try discriminate H; now apply N8].
  destruct s as [|d1 [|d2 [|? ?]]]; try discriminate H.
  cbn [parseCalendarDate] in H.
  destruct (digit y1) as [a|] eqn:Hy1; [|discriminate H].
  destruct (digit y2) as [b|] eqn:Hy2; [|discriminate H].
  destruct (digit y3) as [c|] eqn:Hy3; [|discriminate H].
  destruct (digit y4) as [e|] eqn:Hy4; [|discriminate H].
  destruct (digit m1) as [f|] eqn:Hm1; [|discriminate H].
  destruct (digit m2) as [g|] eqn:Hm2; [|discriminate H].
  destruct (digit d1) as [h|] eqn:Hd1; [|discriminate H].
  destruct (digit d2) as [i|] eqn:Hd2; [|discriminate H].
  cbv zeta in H.
  destruct ((1 <=? 10 * f + g) && (10 * f + g <=? 12) && (1 <=? 10 * h + i)
            && (10 * h + i <=? daysInMonth (1000 * a + 100 * b + 10 * c + e)
                                           (10 * f + g))) eqn:E;
    [|discriminate H].
  injection H as <-.
  rewrite !andb_true_iff, !Z.leb_le in E. destruct E as [[[E1 E2] E3] E4].
  exists y1, y2, y3, y4, m1, m2, d1, d2, a, b, c, e, f, g, h, i.
  repeat (split; [reflexivity || assumption|]). split; [lia|]. split; [lia|reflexivity].
Qed.

Lemma daysInMonth_le_31 y m : daysInMonth y m <= 31.
Proof.
  unfold daysInMonth.
  destruct (m =? 2); [destruct (isLeapYear y); lia|].
  destruct ((m =? 4) || (m =? 6) || (m =? 9) || (m =? 11)); lia.
Qed.

(** The calendar date YYYY-MM-DD is read by both readers, as the same day:
    by [parseISO] as its local midnight, by the Date constructor as its
    midnight UTC. *)
Lemma parseDay_calendar s n : parseCalendarDate s = Some n -> parseDay s = Some n.
Proof. unfold parseDay. now intros ->. Qed.

Lemma parseISO_calendar tz s n :
  parseCalendarDate s = Some n -> parseISO tz s = Some (n * msPerDay - tz).
Proof. intros H. unfold parseISO. now rewrite (parseDay_calendar _ _ H). Qed.

Lemma newDate_calendar s n :
  parseCalendarDate s = Some n -> newDate s = Some (n * msPerDay).
Proof.
  intros H. apply parseCalendarDate_inv in H
    as (y1 & y2 & y3 & y4 & m1 & m2 & d1 & d2 & a & b & c & e & f & g & h & i
        & -> & Ha & Hb & Hc & He & Hf & Hg & Hh & Hi & Hm & Hd & ->).
  pose proof (daysInMonth_le_31 (1000 * a + 100 * b + 10 * c + e) (10 * f + g)).
  cbn [newDate]. unfold twoDigits.
  rewrite Ha, Hb, Hc, He, Hf, Hg, Hh, Hi.
  replace ((1 <=? 10 * f + g) && (10 * f + g <=? 12) && (1 <=? 10 * h + i)
           && (10 * h + i <=? 31)) with true; [reflexivity|].
  symmetry. rewrite !andb_true_iff, !Z.leb_le. lia.
Qed.

(** A day has [msPerDay] milliseconds: the local midnight of an instant in
    the day that begins at [d * msPerDay - tz]. *)
Lemma startOfDay_in_day tz d ms :
  0 <= ms < msPerDay ->
  startOfDay tz (Some (d * msPerDay - tz + ms)) = Some (d * msPerDay - tz).
Proof.
  intros H. unfold startOfDay. f_equal.
  replace (d * msPerDay - tz + ms + tz) with (ms + d * msPerDay) by lia.
  rewrite Z.mod_add by (unfold msPerDay; lia).
  rewrite Z.mod_small by exact H. lia.
Qed.

(** The defect behind the Overdue badge: [isBefore] compares instants, so a
    date read by [parseISO] (midnight) is before [now] during the whole of
    its own day, the first millisecond apart. *)
Lemma isBefore_on_the_day tz s d ms :
  parseCalendarDate s = Some d -> 0 < ms < msPerDay ->
  isBefore (parseISO tz s) (Some (d * msPerDay - tz + ms)) = true
  /\ isToday tz (d * msPerDay - tz + ms) (parseISO tz s) = true.
Proof.
  intros Hs Hms. rewrite (parseISO_calendar tz _ _ Hs).
  unfold isToday, isSameDay. split.
  - simpl. apply Z.ltb_lt. lia.
  - rewrite startOfDay_in_day by lia.
    replace (d * msPerDay - tz) with (d * msPerDay - tz + 0) at 1 by lia.
    rewrite startOfDay_in_day by (unfold msPerDay; lia).
    simpl. apply Z.eqb_refl.
Qed.

End DateFacts.

(** ** Doubles: rounding, quotient and product *)

Module DoubleFacts.
Import JS Double.

Lemma digits2_pos_size p : digits2_pos p = Pos.size p.
Proof. induction p; simpl; congruence. Qed.

Lemma Zdigits2_log2 m : 0 < m -> Zdigits2 m = Z.log2 m + 1.
Proof.
  destruct m as [|p|p]; try lia. intros _. simpl.
  rewrite digits2_pos_size. destruct p; simpl; lia.
Qed.

(** One step of the shift to the right, on a mantissa that is not negative. *)
Lemma shr_1_m mrs : 0 <= shr_m mrs -> shr_m (shr_1 mrs) = shr_m mrs / 2.
Proof.
  destruct mrs as [m r s]. simpl. intros Hm.
  destruct m as [|[p|p|]|p]; cbn [shr_m shr_1]; try reflexivity; try lia.
  - apply Z.div_unique with 1; lia.
  - apply Z.div_unique with 0; lia.
Qed.

Lemma shr_1_exact mrs :
  0 <= shr_m mrs -> lossless mrs -> (2 | shr_m mrs) -> lossless (shr_1 mrs).
Proof.
  destruct mrs as [m r s]. unfold lossless. simpl. intros Hm [-> ->] [k Hk].
  destruct m as [|[p|p|]|p]; simpl; try lia; auto.
Qed.

Lemma shr_iter_m p mrs :
  0 <= shr_m mrs ->
  shr_m (SpecFloat.iter_pos shr_1 p mrs) = shr_m mrs / 2 ^ Z.pos p
  /\ 0 <= shr_m (SpecFloat.iter_pos shr_1 p mrs).
Proof.
  revert mrs. induction p as [p IH|p IH|]; intros mrs Hm; cbn [SpecFloat.iter_pos].
  - assert (H1 : 0 <= shr_m (shr_1 mrs)).
    { rewrite shr_1_m by exact Hm. apply Z.div_pos; lia. }
    destruct (IH _ H1) as [E2 H2]. destruct (IH _ H2) as [E3 H3].
    split; [|exact H3]. rewrite E3, E2, shr_1_m by exact Hm.
    rewrite !Z.div_div by lia.
    f_equal. replace (Z.pos p~1) with (1 + Z.pos p + Z.pos p) by lia.
    rewrite !Z.pow_add_r by lia. change (2 ^ 1) with 2. ring.
  - destruct (IH _ Hm) as [E2 H2]. destruct (IH _ H2) as [E3 H3].
    split; [|exact H3]. rewrite E3, E2.
    rewrite !Z.div_div by lia.
    f_equal. replace (Z.pos p~0) with (Z.pos p + Z.pos p) by lia.
    now rewrite Z.pow_add_r by lia.
  - split; [now rewrite shr_1_m|]. rewrite shr_1_m by exact Hm.
    apply Z.div_pos; lia.
Qed.

Lemma divide_pow2_split a b m :
  0 <= a -> 0 <= b -> (2 ^ (a + b) | m) -> (2 ^ a | m) /\ (2 ^ b | m / 2 ^ a).
Proof.
  intros Ha Hb [k Hk]. rewrite Z.pow_add_r in Hk by lia.
  assert (0 < 2 ^ a) by (apply Z.pow_pos_nonneg; lia).
  split.
  - exists (k * 2 ^ b). lia.
  - exists k. subst m. replace (k * (2 ^ a * 2 ^ b)) with (k * 2 ^ b * 2 ^ a) by ring.
    rewrite Z.div_mul by lia. reflexivity.
Qed.

Lemma shr_iter_exact p mrs :
  0 <= shr_m mrs -> lossless mrs -> (2 ^ Z.pos p | shr_m mrs) ->
  lossless (SpecFloat.iter_pos shr_1 p mrs).
Proof.
  revert mrs. induction p as [p IH|p IH|]; intros mrs Hm He Hd;
    cbn [SpecFloat.iter_pos].
  - replace (Z.pos p~1) with (1 + (Z.pos p + Z.pos p)) in Hd by lia.
    apply divide_pow2_split in Hd as [H1 Hd]; try lia.
    apply divide_pow2_split in Hd as [H2 H3]; try lia.
    change (2 ^ 1) with 2 in *.
    assert (Hm1 : 0 <= shr_m (shr_1 mrs)).
    { rewrite shr_1_m by exact Hm. apply Z.div_pos; lia. }
    assert (He1 : lossless (shr_1 mrs)) by now apply shr_1_exact.
    rewrite <- shr_1_m in H2, H3 by exact Hm.
    destruct (shr_iter_m p _ Hm1) as [E2 Hm2].
    apply IH; [exact Hm2|now apply IH|]. now rewrite E2.
  - replace (Z.pos p~0) with (Z.pos p + Z.pos p) in Hd by lia.
    apply divide_pow2_split in Hd as [H2 H3]; try lia.
    destruct (shr_iter_m p _ Hm) as [E2 Hm2].
    apply IH; [exact Hm2|now apply IH|]. now rewrite E2.
  - apply shr_1_exact; assumption.
Qed.

(** The shift of [shr], on a mantissa that is not negative: [n] binary
    places, none when [n] is not positive. *)
Lemma shr_spec mrs e n :
  0 <= shr_m mrs ->
  shr_m (shr mrs e n).1 = shr_m mrs / 2 ^ Z.max 0 n
  /\ (shr mrs e n).2 = e + Z.max 0 n
  /\ (lossless mrs -> (2 ^ Z.max 0 n | shr_m mrs) -> lossless (shr mrs e n).1).
Proof.
  intros Hm. destruct n as [|p|p]; cbn [shr fst snd].
  - rewrite Z.max_l by lia. change (2 ^ 0) with 1. rewrite Z.div_1_r.
    split; [reflexivity|]. split; [lia|]. intros He _. exact He.
  - rewrite Z.max_r by lia. destruct (shr_iter_m p _ Hm) as [E _].
    split; [exact E|]. split; [reflexivity|].
    intros He Hd. now apply shr_iter_exact.
  - rewrite Z.max_l by lia. change (2 ^ 0) with 1. rewrite Z.div_1_r.
    split; [reflexivity|]. split; [lia|]. intros He _. exact He.
Qed.

Lemma round_nearest_even_bounds m l :
  m <= round_nearest_even m l <= m + 1.
Proof.
  unfold round_nearest_even. destruct l as [|[| |]]; try lia.
  destruct (Z.even m); lia.
Qed.

Lemma loc_of_exact mrs : lossless mrs -> loc_of_shr_record mrs = loc_Exact.
Proof. destruct mrs as [m r s]. unfold lossless. simpl. now intros [-> ->]. Qed.

(** In the range of the normal numbers the exponent of the format follows
    the number of digits. *)
Lemma fexp_normal e : -1021 <= e -> fexp 53 1024 e = e - 53.
Proof. unfold fexp, emin. lia. Qed.

Lemma shr_record_of_loc_m m l : shr_m (shr_record_of_loc m l) = m.
Proof. destruct l as [|[| |]]; reflexivity. Qed.

Lemma shr_fexp_normal m e l :
  0 < m -> -1021 <= Z.log2 m + 1 + e ->
  shr_m (shr_fexp 53 1024 m e l).1 = m / 2 ^ Z.max 0 (Z.log2 m - 52)
  /\ (shr_fexp 53 1024 m e l).2 = e + Z.max 0 (Z.log2 m - 52)
  /\ (l = loc_Exact -> (2 ^ Z.max 0 (Z.log2 m - 52) | m) ->
      lossless (shr_fexp 53 1024 m e l).1).
Proof.
  intros Hm He. unfold shr_fexp.
  rewrite Zdigits2_log2, fexp_normal by lia.
  replace (Z.log2 m + 1 + e - 53 - e) with (Z.log2 m - 52) by lia.
  pose proof (shr_spec (shr_record_of_loc m l) e (Z.log2 m - 52)) as H.
  rewrite shr_record_of_loc_m in H. destruct H as (H1 & H2 & H3); [lia|].
  split; [exact H1|]. split; [exact H2|].
  intros -> Hd. apply H3; [|exact Hd]. split; reflexivity.
Qed.

Lemma log2_53_digits m : 2 ^ 52 <= m < 2 ^ 53 -> Z.log2 m = 52.
Proof. intros H. apply Z.log2_unique; lia. Qed.

(** Rounding a mantissa of 53 digits or more to the format: the mantissa is
    cut to 53 digits and goes up by at most one; it stays as it is when
    nothing is cut off. *)
Lemma binary_round_aux_normal m e l :
  2 ^ 52 <= m -> -1074 <= e ->
  exists m2 : Z,
    m / 2 ^ (Z.log2 m - 52) <= m2 <= m / 2 ^ (Z.log2 m - 52) + 1
    /\ 2 ^ 52 <= m / 2 ^ (Z.log2 m - 52) < 2 ^ 53
    /\ (l = loc_Exact -> (2 ^ (Z.log2 m - 52) | m) ->
        m2 = m / 2 ^ (Z.log2 m - 52))
    /\ binary_round_aux 53 1024 false m e l
       = if m2 <? 2 ^ 53
         then if e + (Z.log2 m - 52) <=? 971
              then S754_finite false (Z.to_pos m2) (e + (Z.log2 m - 52))
              else S754_infinity false
         else if e + (Z.log2 m - 52) + 1 <=? 971
              then S754_finite false (Z.to_pos (2 ^ 52))
                     (e + (Z.log2 m - 52) + 1)
              else S754_infinity false.
Proof.
  intros Hm He.
  assert (Hl : 52 <= Z.log2 m) by (apply Z.log2_le_pow2; lia).
  set (n := Z.log2 m - 52) in *.
  assert (Hmax : Z.max 0 n = n) by lia.
  assert (Hn : 0 < 2 ^ n) by (apply Z.pow_pos_nonneg; lia).
  assert (H1 : 2 ^ 52 <= m / 2 ^ n < 2 ^ 53).
  { pose proof (Z.log2_spec m ltac:(lia)) as [Hlo Hhi].
    replace (Z.log2 m) with (52 + n) in Hlo by lia.
    replace (Z.succ (Z.log2 m)) with (53 + n) in Hhi by lia.
    rewrite Z.pow_add_r in Hlo, Hhi by lia.
    split.
    - apply Z.div_le_lower_bound; lia.
    - apply Z.div_lt_upper_bound; lia. }
  set (m1 := m / 2 ^ n) in *.
  unfold binary_round_aux.
  pose proof (shr_fexp_normal m e l ltac:(lia) ltac:(lia)) as (Ea & Eb & Ec).
  fold n in Ea, Eb, Ec. rewrite Hmax in Ea, Eb, Ec. fold m1 in Ea.
  destruct (shr_fexp 53 1024 m e l) as [mrs' e'] eqn:E1.
  cbn [fst snd] in Ea, Eb, Ec. subst e'.
  set (m2 := round_nearest_even (shr_m mrs') (loc_of_shr_record mrs')).
  assert (Hb : m1 <= m2 <= m1 + 1).
  { unfold m2. rewrite <- Ea. apply round_nearest_even_bounds. }
  assert (Hex : l = loc_Exact -> (2 ^ n | m) -> m2 = m1).
  { intros Hl0 Hd. unfold m2. rewrite (loc_of_exact _ (Ec Hl0 Hd)).
    simpl. exact Ea. }
  clearbody m2.
  exists m2. split; [exact Hb|]. split; [exact H1|]. split; [exact Hex|].
  destruct (Z.ltb_spec m2 (2 ^ 53)) as [Hlt|Hge].
  - pose proof (shr_fexp_normal m2 (e + n) loc_Exact ltac:(lia)) as (Fa & Fb & _).
    { rewrite (log2_53_digits m2) by lia. lia. }
    rewrite (log2_53_digits m2) in Fa, Fb by lia.
    change (Z.max 0 (52 - 52)) with 0 in Fa, Fb. change (2 ^ 0) with 1 in Fa.
    rewrite Z.div_1_r in Fa. rewrite Z.add_0_r in Fb.
    destruct (shr_fexp 53 1024 m2 (e + n) loc_Exact) as [mrs'' e''] eqn:E2.
    cbn [fst snd] in Fa, Fb. subst e''. rewrite Fa.
    destruct m2 as [|p|p]; try lia. reflexivity.
  - assert (Em : m2 = 2 ^ 53) by lia. subst m2.
    pose proof (shr_fexp_normal (2 ^ 53) (e + n) loc_Exact ltac:(lia))
      as (Fa & Fb & _).
    { rewrite Z.log2_pow2 by lia. lia. }
    rewrite Z.log2_pow2 in Fa, Fb by lia.
    change (Z.max 0 (53 - 52)) with 1 in Fa, Fb.
    destruct (shr_fexp 53 1024 (2 ^ 53) (e + n) loc_Exact) as [mrs'' e''] eqn:E2.
    cbn [fst snd] in Fa, Fb. subst e''. rewrite Fa. reflexivity.
Qed.

Lemma iter_xO p k : Z.pos (Pos.iter xO p k) = Z.pos p * 2 ^ Z.pos k.
Proof.
  induction k as [|k IH] using Pos.peano_ind.
  - simpl. lia.
  - rewrite Pos.iter_succ, Pos2Z.inj_xO, IH, Pos2Z.inj_succ, Z.pow_succ_r by lia.
    ring.
Qed.

Lemma shl_align_spec p e e' :
  Z.pos (shl_align p e e').1 = Z.pos p * 2 ^ Z.max 0 (e - e')
  /\ (shl_align p e e').2 = Z.min e e'.
Proof.
  unfold shl_align. destruct (e' - e) as [|d|d] eqn:E; cbn [fst snd].
  - rewrite Z.max_l by lia. change (2 ^ 0) with 1. lia.
  - rewrite Z.max_l by lia. change (2 ^ 0) with 1. lia.
  - rewrite iter_xO. replace (Z.max 0 (e - e')) with (Z.pos d) by lia. lia.
Qed.

(** [toDouble] on a positive integer: what is rounded is the integer with
    its mantissa brought to 53 digits or more. *)
Lemma toDouble_round p :
  toDouble (Z.pos p)
  = binary_round_aux 53 1024 false
      (Z.pos p * 2 ^ Z.max 0 (52 - Z.log2 (Z.pos p)))
      (Z.min 0 (Z.log2 (Z.pos p) - 52)) loc_Exact.
Proof.
  unfold toDouble, binary_normalize, binary_round.
  pose proof (Z.log2_nonneg (Z.pos p)) as Hl.
  assert (E : fexp 53 1024 (Z.pos (digits2_pos p) + 0) = Z.log2 (Z.pos p) - 52).
  { change (Z.pos (digits2_pos p)) with (Zdigits2 (Z.pos p)).
    rewrite Zdigits2_log2, fexp_normal by lia. lia. }
  rewrite E.
  pose proof (shl_align_spec p 0 (Z.log2 (Z.pos p) - 52)) as [Hm He].
  destruct (shl_align p 0 _) as [mz ez]. cbn [fst snd] in Hm, He.
  rewrite Hm, He.
  replace (0 - (Z.log2 (Z.pos p) - 52)) with (52 - Z.log2 (Z.pos p)) by lia.
  reflexivity.
Qed.

Lemma log2_scaled p :
  0 < p -> Z.log2 p <= 52 -> 2 ^ 52 <= p * 2 ^ (52 - Z.log2 p) < 2 ^ 53.
Proof.
  intros Hp Hl. pose proof (Z.log2_spec p Hp) as [Hlo Hhi].
  pose proof (Z.log2_nonneg p).
  assert (0 < 2 ^ (52 - Z.log2 p)) by (apply Z.pow_pos_nonneg; lia).
  replace (2 ^ 52) with (2 ^ Z.log2 p * 2 ^ (52 - Z.log2 p))
    by (rewrite <- Z.pow_add_r by lia; f_equal; lia).
  replace (2 ^ 53) with (2 ^ Z.succ (Z.log2 p) * 2 ^ (52 - Z.log2 p))
    by (rewrite <- Z.pow_add_r by lia; f_equal; lia).
  split; [apply Z.mul_le_mono_nonneg_r; lia|apply Z.mul_lt_mono_pos_r; lia].
Qed.

(** An integer below 2^53 is a double. *)
Lemma toDouble_exact p :
  0 < p < 2 ^ 53 ->
  toDouble p = S754_finite false (Z.to_pos (p * 2 ^ (52 - Z.log2 p)))
                 (Z.log2 p - 52).
Proof.
  intros Hp. destruct p as [|p|p]; try lia.
  assert (Hl : Z.log2 (Z.pos p) <= 52).
  { assert (Z.log2 (Z.pos p) < 53) by (apply Z.log2_lt_pow2; lia). lia. }
  rewrite toDouble_round.
  rewrite Z.max_r, Z.min_r by lia.
  pose proof (log2_scaled (Z.pos p) ltac:(lia) Hl) as Hs.
  set (m := Z.pos p * 2 ^ (52 - Z.log2 (Z.pos p))) in *.
  pose proof (Z.log2_nonneg (Z.pos p)).
  destruct (binary_round_aux_normal m (Z.log2 (Z.pos p) - 52) loc_Exact)
    as (m2 & Hb & H1 & Hex & ->); [lia|lia|].
  rewrite (log2_53_digits m Hs) in *. change (52 - 52) with 0 in *.
  change (2 ^ 0) with 1 in *. rewrite Z.div_1_r in *.
  rewrite (Hex eq_refl (Z.divide_1_l m)).
  replace (m <? 2 ^ 53) with true by (symmetry; apply Z.ltb_lt; lia).
  rewrite Z.add_0_r.
  replace (Z.log2 (Z.pos p) - 52 <=? 971) with true
    by (symmetry; apply Z.leb_le; lia).
  reflexivity.
Qed.

(** ** Values *)

Lemma pow2_pos e : (0 < 2 ^ e)%Q.
Proof. apply Qpower_0_lt. reflexivity. Qed.

Lemma pow2_add a b : (2 ^ (a + b) == 2 ^ a * 2 ^ b)%Q.
Proof. apply Qpower_plus. discriminate. Qed.

Lemma pow2_Z n : 0 <= n -> (2 ^ n == inject_Z (2 ^ n))%Q.
Proof. intros H. now rewrite Zpower_Qpower. Qed.

Lemma Qmult_lt_r_pos a b u : (0 < u)%Q -> (a < b)%Q -> (a * u < b * u)%Q.
Proof. intros Hu H. now apply Qmult_lt_r. Qed.

Lemma Qmult_le_r_pos a b u : (0 < u)%Q -> (a <= b)%Q -> (a * u <= b * u)%Q.
Proof. intros Hu H. now apply Qmult_le_r. Qed.

(** What rounding does to the value.  The mantissa [m] with the exponent
    [e] and the location [l] stands for a number [V] between [m * 2^e] and
    [(m + 1) * 2^e], strictly above the first unless the location is exact.
    The rounded number is within one unit in the last place of [V], and does
    not pass an integer bound that [V] keeps. *)
Lemma round_real (m e : Z) (l : location) (V : Q) (B : Z) :
  2 ^ 52 <= m -> -1074 <= e -> e + (Z.log2 m - 52) <= 0 ->
  (inject_Z m * 2 ^ e <= V)%Q -> (V < inject_Z (m + 1) * 2 ^ e)%Q ->
  (l <> loc_Exact -> (inject_Z m * 2 ^ e < V)%Q) ->
  (V <= inject_Z B)%Q ->
  exists mr er,
    binary_round_aux 53 1024 false m e l = S754_finite false mr er
    /\ 2 ^ 52 <= Z.pos mr < 2 ^ 53
    /\ e + (Z.log2 m - 52) <= er <= e + (Z.log2 m - 52) + 1
    /\ (Qabs (inject_Z (Z.pos mr) * 2 ^ er - V) <= 2 ^ (e + (Z.log2 m - 52)))%Q
    /\ (inject_Z (Z.pos mr) * 2 ^ er <= inject_Z B)%Q
    /\ (l = loc_Exact -> (2 ^ (Z.log2 m - 52) | m) ->
        Z.pos mr = m / 2 ^ (Z.log2 m - 52) /\ er = e + (Z.log2 m - 52)).
Proof.
  intros Hm He Hneg Hlo Hhi Hstrict HB.
  destruct (binary_round_aux_normal m e l Hm He) as (m2 & Hb & H1 & Hex & Hres).
  assert (Hl : 52 <= Z.log2 m) by (apply Z.log2_le_pow2; lia).
  set (n := Z.log2 m - 52) in *.
  assert (HN : 0 < 2 ^ n) by (apply Z.pow_pos_nonneg; lia).
  set (N := 2 ^ n) in *. set (m1 := m / N) in *.
  assert (Hdiv : m1 * N <= m < (m1 + 1) * N).
  { unfold m1. pose proof (Z.mul_div_le m N HN).
    pose proof (Z.mul_succ_div_gt m N HN). lia. }
  set (u := (2 ^ (e + n))%Q).
  assert (Hu : (0 < u)%Q) by apply pow2_pos.
  assert (Eu : (u == inject_Z N * 2 ^ e)%Q).
  { unfold u, N. rewrite Z.add_comm, pow2_add, pow2_Z by lia. reflexivity. }
  pose proof (pow2_pos e) as He0.
  assert (Q1 : (inject_Z m1 * u <= V)%Q).
  { apply Qle_trans with (inject_Z m * 2 ^ e)%Q; [|exact Hlo].
    rewrite Eu, Qmult_assoc, <- inject_Z_mult.
    apply Qmult_le_r_pos; [exact He0|]. rewrite <- Zle_Qle. lia. }
  assert (Q2 : (V < (inject_Z m1 + 1) * u)%Q).
  { apply Qlt_le_trans with (inject_Z (m + 1) * 2 ^ e)%Q; [exact Hhi|].
    rewrite Eu, Qmult_assoc. change 1%Q with (inject_Z 1).
    rewrite <- inject_Z_plus, <- inject_Z_mult.
    apply Qmult_le_r_pos; [exact He0|]. rewrite <- Zle_Qle. lia. }
  assert (Q3 : m2 = m1 + 1 -> (inject_Z m1 * u < V)%Q).
  { intros E2. destruct (Z.eq_dec (m mod N) 0) as [Hz|Hnz].
    - assert (Hl0 : l <> loc_Exact).
      { intros Hl0. apply Z.mod_divide in Hz; [|lia].
        specialize (Hex Hl0 Hz). lia. }
      apply Qle_lt_trans with (inject_Z m * 2 ^ e)%Q; [|now apply Hstrict].
      rewrite Eu, Qmult_assoc, <- inject_Z_mult.
      apply Qmult_le_r_pos; [exact He0|]. rewrite <- Zle_Qle. lia.
    - apply Qlt_le_trans with (inject_Z m * 2 ^ e)%Q; [|exact Hlo].
      rewrite Eu, Qmult_assoc, <- inject_Z_mult.
      apply Qmult_lt_r_pos; [exact He0|]. rewrite <- Zlt_Qlt.
      pose proof (Z.div_mod m N ltac:(lia)). fold m1 in H. lia. }
  assert (Q4 : m2 = m1 + 1 -> ((inject_Z m1 + 1) * u <= inject_Z B)%Q).
  { intros E2. specialize (Q3 E2).
    set (k := - (e + n)).
    assert (Hk : (u * inject_Z (2 ^ k) == 1)%Q).
    { unfold u, k. rewrite <- pow2_Z by lia. rewrite <- pow2_add.
      replace (e + n + - (e + n)) with 0 by lia. reflexivity. }
    assert (HK : (0 < inject_Z (2 ^ k))%Q).
    { rewrite <- pow2_Z by (unfold k; lia). apply pow2_pos. }
    assert (Hz : m1 < B * 2 ^ k).
    { rewrite Zlt_Qlt, inject_Z_mult.
      assert (Hq : (inject_Z m1 * u * inject_Z (2 ^ k)
                    < inject_Z B * inject_Z (2 ^ k))%Q).
      { apply Qmult_lt_r_pos; [exact HK|].
        apply Qlt_le_trans with V; assumption. }
      rewrite <- Qmult_assoc, Hk, Qmult_1_r in Hq. exact Hq. }
    assert (Hz' : (inject_Z m1 + 1 <= inject_Z B * inject_Z (2 ^ k))%Q).
    { change 1%Q with (inject_Z 1).
      rewrite <- inject_Z_plus, <- inject_Z_mult, <- Zle_Qle. lia. }
    apply (Qmult_le_r_pos _ _ u Hu) in Hz'.
    rewrite <- Qmult_assoc, (Qmult_comm (inject_Z (2 ^ k))), Hk, Qmult_1_r in Hz'.
    exact Hz'. }
  assert (Hcase : m2 = m1 \/ m2 = m1 + 1) by lia.
  destruct (Z.ltb_spec m2 (2 ^ 53)) as [Hlt|Hge].
  - replace (e + n <=? 971) with true in Hres by (symmetry; apply Z.leb_le; lia).
    exists (Z.to_pos m2), (e + n).
    assert (Ep : Z.pos (Z.to_pos m2) = m2) by (apply Z2Pos.id; lia).
    rewrite Ep. fold u.
    split; [exact Hres|]. split; [lia|]. split; [lia|].
    split; [|split].
    + apply Qabs_Qle_condition. destruct Hcase as [->| ->].
      * split; lra.
      * change 1%Q with (inject_Z 1) in Q2. rewrite <- inject_Z_plus in Q2.
        split; [|].
        -- apply Qle_trans with 0%Q; [lra|]. lra.
        -- rewrite inject_Z_plus. change (inject_Z 1) with 1%Q. lra.
    + destruct Hcase as [->| E2]; [lra|].
      rewrite E2, inject_Z_plus. now apply Q4.
    + intros Hl0 Hd. split; [|reflexivity]. now apply Hex.
  - assert (E2 : m2 = m1 + 1) by lia.
    assert (E3 : m1 + 1 = 2 ^ 53) by lia.
    replace (e + n + 1 <=? 971) with true in Hres
      by (symmetry; apply Z.leb_le; lia).
    exists (Z.to_pos (2 ^ 52)), (e + n + 1).
    assert (Ep : Z.pos (Z.to_pos (2 ^ 52)) = 2 ^ 52) by reflexivity.
    rewrite Ep.
    assert (Er : (inject_Z (2 ^ 52) * 2 ^ (e + n + 1) == (inject_Z m1 + 1) * u)%Q).
    { rewrite pow2_add. fold u. change (2 ^ 1)%Q with 2%Q.
      change 1%Q with (inject_Z 1). rewrite <- inject_Z_plus, E3.
      change (inject_Z (2 ^ 53)) with (inject_Z (2 ^ 52) * 2)%Q. ring. }
    split; [exact Hres|]. split; [lia|]. split; [lia|].
    split; [|split].
    + rewrite Er. apply Qabs_Qle_condition. split; lra.
    + rewrite Er. now apply Q4.
    + intros Hl0 Hd. specialize (Hex Hl0 Hd). lia.
Qed.

Lemma new_location_exact nb : new_location nb 0 = loc_Exact.
Proof. unfold new_location. destruct (Z.even nb); reflexivity. Qed.

Lemma new_location_inexact nb k : new_location nb k <> loc_Exact -> k <> 0.
Proof. intros H ->. apply H, new_location_exact. Qed.

(** The quotient of two positive doubles with mantissas of 53 digits. *)
Lemma divide_real (mx my : positive) (ex ey : Z) (B : Z) :
  2 ^ 52 <= Z.pos mx < 2 ^ 53 -> 2 ^ 52 <= Z.pos my < 2 ^ 53 ->
  -1021 <= ex - ey <= 52 ->
  let V := ((inject_Z (Z.pos mx) * 2 ^ ex) / (inject_Z (Z.pos my) * 2 ^ ey))%Q in
  let q0 := Z.pos mx * 2 ^ 53 / Z.pos my in
  (V <= inject_Z B)%Q ->
  exists mr er,
    divide (S754_finite false mx ex) (S754_finite false my ey)
    = S754_finite false mr er
    /\ 2 ^ 52 <= Z.pos mr < 2 ^ 53
    /\ ex - ey - 53 <= er <= ex - ey - 51
    /\ (Qabs (inject_Z (Z.pos mr) * 2 ^ er - V) <= 2 ^ er)%Q
    /\ (inject_Z (Z.pos mr) * 2 ^ er <= inject_Z B)%Q
    /\ ((Z.pos my | Z.pos mx * 2 ^ 53) -> (2 ^ (Z.log2 q0 - 52) | q0) ->
        Z.pos mr = q0 / 2 ^ (Z.log2 q0 - 52)
        /\ er = ex - ey - 53 + (Z.log2 q0 - 52)).
Proof.
  intros Hx Hy He V q0 HB.
  unfold divide, SFdiv, SFdiv_core_binary.
  rewrite !Zdigits2_log2, !log2_53_digits by lia.
  replace (52 + 1 + ex - (52 + 1 + ey)) with (ex - ey) by lia.
  rewrite fexp_normal by lia.
  replace (Z.min (ex - ey - 53) (ex - ey)) with (ex - ey - 53) by lia.
  replace (ex - ey - (ex - ey - 53)) with 53 by lia.
  rewrite Z.shiftl_mul_pow2 by lia.
  pose proof (Z.div_mod (Z.pos mx * 2 ^ 53) (Z.pos my) ltac:(lia)) as Hdm.
  pose proof (Z.mod_pos_bound (Z.pos mx * 2 ^ 53) (Z.pos my) ltac:(lia)) as Hr.
  unfold Z.div, Z.modulo in Hdm, Hr. fold q0 in Hdm.
  unfold q0, Z.div.
  destruct (Z.div_eucl (Z.pos mx * 2 ^ 53) (Z.pos my)) as [q r].
  cbn [fst snd xorb] in *.
  assert (Hq : 2 ^ 52 <= q < 2 ^ 54) by nia.
  assert (Hlog : 52 <= Z.log2 q <= 53).
  { split; [apply Z.log2_le_pow2; lia|].
    assert (Z.log2 q < 54) by (apply Z.log2_lt_pow2; lia). lia. }
  set (a := inject_Z (Z.pos mx)). set (b := inject_Z (Z.pos my)).
  assert (Hb : (0 < b)%Q) by (unfold b; rewrite <- (Zlt_Qlt 0); lia).
  pose proof (pow2_pos ex) as Hpx. pose proof (pow2_pos ey) as Hpy.
  assert (E0 : (2 ^ (ex - ey - 53) == 2 ^ ex / (2 ^ ey * inject_Z (2 ^ 53)))%Q).
  { rewrite <- pow2_Z by lia.
    rewrite !Qpower_minus by discriminate.
    field. apply Qpower_not_0; discriminate. }
  assert (EV : (V == (a * inject_Z (2 ^ 53) / b) * 2 ^ (ex - ey - 53))%Q).
  { unfold V. fold a b. rewrite E0. field.
    repeat split; try lra. discriminate. }
  assert (EW : (a * inject_Z (2 ^ 53) == b * inject_Z q + inject_Z r)%Q).
  { unfold a, b. rewrite <- !inject_Z_mult, <- inject_Z_plus. now rewrite Hdm. }
  assert (Hr0 : (0 <= inject_Z r)%Q) by (rewrite <- (Zle_Qle 0); lia).
  assert (Hr1 : (inject_Z r < b)%Q) by (unfold b; rewrite <- Zlt_Qlt; lia).
  pose proof (pow2_pos (ex - ey - 53)) as Hp0.
  destruct (round_real q (ex - ey - 53) (new_location (Z.pos my) r) V B)
    as (mr & er & Hres & Hmr & Her & Habs & HRB & Hexact); try lia.
  - rewrite EV. apply Qmult_le_r_pos; [exact Hp0|].
    apply Qle_shift_div_l; [exact Hb|]. rewrite EW. lra.
  - rewrite EV. apply Qmult_lt_r_pos; [exact Hp0|].
    apply Qlt_shift_div_r; [exact Hb|]. rewrite EW, inject_Z_plus.
    change (inject_Z 1) with 1%Q. lra.
  - intros Hl. apply new_location_inexact in Hl.
    rewrite EV. apply Qmult_lt_r_pos; [exact Hp0|].
    apply Qlt_shift_div_l; [exact Hb|]. rewrite EW.
    assert ((0 < inject_Z r)%Q) by (rewrite <- (Zlt_Qlt 0); lia). lra.
  - exact HB.
  - exists mr, er. split; [exact Hres|]. split; [exact Hmr|]. split; [lia|].
    split; [|split; [exact HRB|]].
    + apply Qle_trans with (2 ^ (ex - ey - 53 + (Z.log2 q - 52)))%Q;
        [exact Habs|].
      apply Qpower_le_compat_l; [lia|discriminate].
    + intros Hd H2. apply Hexact; [|exact H2].
      assert (r = 0); [|subst r; apply new_location_exact].
      destruct Hd as [k Hk].
      assert (Hrk : r = (k - q) * Z.pos my) by lia.
      destruct (Z.lt_trichotomy k q) as [Hkq|[Hkq|Hkq]]; nia.
Qed.

(** The product of two positive doubles with mantissas of 53 digits. *)
Lemma multiply_real (mx my : positive) (ex ey : Z) (B : Z) :
  2 ^ 52 <= Z.pos mx < 2 ^ 53 -> 2 ^ 52 <= Z.pos my < 2 ^ 53 ->
  -1074 <= ex + ey <= -53 ->
  let V := ((inject_Z (Z.pos mx) * 2 ^ ex) * (inject_Z (Z.pos my) * 2 ^ ey))%Q in
  let M := Z.pos mx * Z.pos my in
  (V <= inject_Z B)%Q ->
  exists mr er,
    multiply (S754_finite false mx ex) (S754_finite false my ey)
    = S754_finite false mr er
    /\ 2 ^ 52 <= Z.pos mr < 2 ^ 53
    /\ (Qabs (inject_Z (Z.pos mr) * 2 ^ er - V) <= 2 ^ er)%Q
    /\ (inject_Z (Z.pos mr) * 2 ^ er <= inject_Z B)%Q
    /\ ((2 ^ (Z.log2 M - 52) | M) ->
        Z.pos mr = M / 2 ^ (Z.log2 M - 52)
        /\ er = ex + ey + (Z.log2 M - 52)).
Proof.
  intros Hx Hy He V M HB.
  unfold multiply, SFmul. cbn [xorb]. rewrite Pos2Z.inj_mul. fold M.
  assert (HM : 2 ^ 104 <= M < 2 ^ 106).
  { unfold M. change (2 ^ 104) with (2 ^ 52 * 2 ^ 52).
    change (2 ^ 106) with (2 ^ 53 * 2 ^ 53). nia. }
  assert (Hlog : 104 <= Z.log2 M <= 105).
  { split; [apply Z.log2_le_pow2; lia|].
    assert (Z.log2 M < 106) by (apply Z.log2_lt_pow2; lia). lia. }
  assert (EV : (V == inject_Z M * 2 ^ (ex + ey))%Q).
  { unfold V, M. rewrite inject_Z_mult, pow2_add. ring. }
  pose proof (pow2_pos (ex + ey)) as Hp0.
  destruct (round_real M (ex + ey) loc_Exact V B)
    as (mr & er & Hres & Hmr & Her & Habs & HRB & Hexact); try lia.
  - rewrite EV. apply Qle_refl.
  - rewrite EV. apply Qmult_lt_r_pos; [exact Hp0|]. rewrite <- Zlt_Qlt. lia.
  - intros H. now destruct H.
  - exact HB.
  - exists mr, er. split; [exact Hres|]. split; [exact Hmr|].
    split; [|split; [exact HRB|]].
    + apply Qle_trans with (2 ^ (ex + ey + (Z.log2 M - 52)))%Q; [exact Habs|].
      apply Qpower_le_compat_l; [lia|discriminate].
    + intros Hd. now apply Hexact.
Qed.

(** A positive integer becomes a positive double, or +Infinity. *)
Lemma toDouble_positive p :
  0 < p ->
  (exists m e, toDouble p = S754_finite false m e)
  \/ toDouble p = S754_infinity false.
Proof.
  intros Hp. destruct p as [|p|p]; try lia.
  rewrite toDouble_round.
  pose proof (Z.log2_nonneg (Z.pos p)) as Hl.
  set (m := Z.pos p * 2 ^ Z.max 0 (52 - Z.log2 (Z.pos p))).
  assert (Hm : 2 ^ 52 <= m).
  { unfold m. destruct (Z.le_gt_cases (Z.log2 (Z.pos p)) 52) as [H|H].
    - rewrite Z.max_r by lia. apply log2_scaled; lia.
    - rewrite Z.max_l by lia. change (2 ^ 0) with 1.
      assert (52 <= Z.log2 (Z.pos p)) by lia.
      apply Z.log2_le_pow2 in H0; lia. }
  destruct (binary_round_aux_normal m (Z.min 0 (Z.log2 (Z.pos p) - 52)) loc_Exact)
    as (m2 & _ & _ & _ & ->); [exact Hm|lia|].
  destruct (m2 <? 2 ^ 53); match goal with |- context [if ?c then _ else _] =>
    destruct c end; eauto.
Qed.

Lemma toDouble_hundred :
  toDouble 100 = S754_finite false 7036874417766400 (-46).
Proof. reflexivity. Qed.

Lemma real_toDouble p :
  0 < p < 2 ^ 53 ->
  (inject_Z (Z.pos (Z.to_pos (p * 2 ^ (52 - Z.log2 p)))) * 2 ^ (Z.log2 p - 52)
   == inject_Z p)%Q.
Proof.
  intros Hp.
  assert (Hl : Z.log2 p <= 52).
  { assert (Z.log2 p < 53) by (apply Z.log2_lt_pow2; lia). lia. }
  pose proof (log2_scaled p ltac:(lia) Hl) as Hs.
  rewrite Z2Pos.id by lia. rewrite inject_Z_mult, <- pow2_Z by lia.
  rewrite <- Qmult_assoc, <- pow2_add.
  replace (52 - Z.log2 p + (Z.log2 p - 52)) with 0 by lia.
  change (2 ^ 0)%Q with 1%Q. ring.
Qed.

Lemma mantissa_exponent (m : positive) (e k : Z) (B : Q) :
  2 ^ 52 <= Z.pos m -> (inject_Z (Z.pos m) * 2 ^ e <= B)%Q -> (B < 2 ^ k)%Q ->
  e <= k - 53.
Proof.
  intros Hm HB Hk.
  assert (H : (2 ^ (52 + e) < 2 ^ k)%Q).
  { apply Qle_lt_trans with B; [|exact Hk].
    apply Qle_trans with (inject_Z (Z.pos m) * 2 ^ e)%Q; [|exact HB].
    rewrite pow2_add. apply Qmult_le_r_pos; [apply pow2_pos|].
    rewrite pow2_Z by lia. now rewrite <- Zle_Qle. }
  apply Qpower_lt_compat_l_inv in H; [lia|reflexivity].
Qed.

(** The rate for [c] tasks done out of [t]. *)
Lemma rate_spec c t :
  0 < c <= t -> t < 2 ^ 53 ->
  exists mr er,
    rate c t = S754_finite false mr er
    /\ (0 < inject_Z (Z.pos mr) * 2 ^ er <= 100)%Q
    /\ (Qabs (inject_Z (Z.pos mr) * 2 ^ er - 100 * inject_Z c / inject_Z t)
        <= 2 ^ (-44))%Q.
Proof.
  intros Hc Ht. unfold rate.
  rewrite (toDouble_exact c), (toDouble_exact t), toDouble_hundred by lia.
  assert (Hlc : 0 <= Z.log2 c <= 52).
  { split; [apply Z.log2_nonneg|].
    assert (Z.log2 c < 53) by (apply Z.log2_lt_pow2; lia). lia. }
  assert (Hlt : 0 <= Z.log2 t <= 52).
  { split; [apply Z.log2_nonneg|].
    assert (Z.log2 t < 53) by (apply Z.log2_lt_pow2; lia). lia. }
  pose proof (log2_scaled c ltac:(lia) ltac:(lia)) as Hsc.
  pose proof (log2_scaled t ltac:(lia) ltac:(lia)) as Hst.
  pose proof (real_toDouble c ltac:(lia)) as Rc.
  pose proof (real_toDouble t ltac:(lia)) as Rt.
  set (Mc := Z.to_pos (c * 2 ^ (52 - Z.log2 c))) in *.
  set (Mt := Z.to_pos (t * 2 ^ (52 - Z.log2 t))) in *.
  assert (HMc : 2 ^ 52 <= Z.pos Mc < 2 ^ 53) by (unfold Mc; rewrite Z2Pos.id; lia).
  assert (HMt : 2 ^ 52 <= Z.pos Mt < 2 ^ 53) by (unfold Mt; rewrite Z2Pos.id; lia).
  assert (Qc : (0 < inject_Z c)%Q) by (rewrite <- (Zlt_Qlt 0); lia).
  assert (Qt : (0 < inject_Z t)%Q) by (rewrite <- (Zlt_Qlt 0); lia).
  assert (Qct : (inject_Z c <= inject_Z t)%Q) by (rewrite <- Zle_Qle; lia).
  assert (HX : (inject_Z c / inject_Z t <= 1)%Q).
  { apply Qle_shift_div_r; [exact Qt|]. lra. }
  assert (HX0 : (0 < inject_Z c / inject_Z t)%Q).
  { apply Qlt_shift_div_l; [exact Qt|]. lra. }
  destruct (divide_real Mc Mt (Z.log2 c - 52) (Z.log2 t - 52) 1 HMc HMt)
    as (mq & eq & -> & Hmq & Heq & Habs & HR1 & _); [lia| |].
  { rewrite Rc, Rt. exact HX. }
  rewrite Rc, Rt in Habs.
  set (Rq := (inject_Z (Z.pos mq) * 2 ^ eq)%Q) in *.
  assert (Heq' : eq <= -52).
  { assert (eq <= 0 + 1 - 53); [|lia].
    apply (mantissa_exponent mq eq 1 1); [lia|exact HR1|reflexivity]. }
  assert (E100 : (inject_Z (Z.pos 7036874417766400) * 2 ^ (-46) == 100)%Q)
    by reflexivity.
  destruct (multiply_real mq 7036874417766400 eq (-46) 100 Hmq)
    as (mr & er & -> & Hmr & Habs' & HR100 & _); [lia|lia| |].
  { fold Rq. rewrite E100. change (inject_Z 100) with 100%Q.
    change (inject_Z 1) with 1%Q in HR1. lra. }
  fold Rq in Habs'. rewrite E100 in Habs'.
  set (Rp := (inject_Z (Z.pos mr) * 2 ^ er)%Q) in *.
  assert (Her : er <= -46).
  { assert (er <= 7 - 53); [|lia].
    apply (mantissa_exponent mr er 7 100); [lia|exact HR100|reflexivity]. }
  exists mr, er. split; [reflexivity|]. fold Rp.
  assert (Hpos : (0 < Rp)%Q).
  { unfold Rp. apply Qmult_lt_0_compat; [|apply pow2_pos].
    rewrite <- (Zlt_Qlt 0). lia. }
  split; [split; [exact Hpos|exact HR100]|].
  assert (U1 : (2 ^ eq <= 2 ^ (-52))%Q)
    by (apply Qpower_le_compat_l; [lia|discriminate]).
  assert (U2 : (2 ^ er <= 2 ^ (-46))%Q)
    by (apply Qpower_le_compat_l; [lia|discriminate]).
  apply Qabs_Qle_condition in Habs, Habs'.
  apply Qabs_Qle_condition.
  assert (Ediv : (100 * inject_Z c / inject_Z t
                  == 100 * (inject_Z c / inject_Z t))%Q).
  { field. lra. }
  rewrite Ediv.
  change (2 ^ (-52))%Q with (1 # 4503599627370496)%Q in U1.
  change (2 ^ (-46))%Q with (1 # 70368744177664)%Q in U2.
  change (2 ^ (-44))%Q with (1 # 17592186044416)%Q.
  split; lra.
Qed.

(** Everything done: the quotient is 1 and the rate is 100, exactly. *)
Lemma rate_all t : 0 < t < 2 ^ 53 -> rate t t = toDouble 100.
Proof.
  intros Ht. unfold rate. rewrite (toDouble_exact t) by lia.
  assert (Hlt : 0 <= Z.log2 t <= 52).
  { split; [apply Z.log2_nonneg|].
    assert (Z.log2 t < 53) by (apply Z.log2_lt_pow2; lia). lia. }
  pose proof (log2_scaled t ltac:(lia) ltac:(lia)) as Hst.
  set (Mt := Z.to_pos (t * 2 ^ (52 - Z.log2 t))) in *.
  assert (HMt : 2 ^ 52 <= Z.pos Mt < 2 ^ 53) by (unfold Mt; rewrite Z2Pos.id; lia).
  destruct (divide_real Mt Mt (Z.log2 t - 52) (Z.log2 t - 52) 1 HMt HMt)
    as (mq & eq & -> & _ & _ & _ & _ & Hexact); [lia| |].
  { assert (E : (inject_Z (Z.pos Mt) * 2 ^ (Z.log2 t - 52)
                 / (inject_Z (Z.pos Mt) * 2 ^ (Z.log2 t - 52)) == 1)%Q).
    { field. split; [apply Qpower_not_0; discriminate|].
      intros H. assert (Hz : (0 < inject_Z (Z.pos Mt))%Q) by reflexivity.
      rewrite H in Hz. now apply Qlt_irrefl in Hz. }
    rewrite E. apply Qle_refl. }
  assert (Eq0 : Z.pos Mt * 2 ^ 53 / Z.pos Mt = 2 ^ 53).
  { rewrite Z.mul_comm. apply Z.div_mul. lia. }
  rewrite Eq0 in Hexact. rewrite Z.log2_pow2 in Hexact by lia.
  destruct Hexact as [Em Ee].
  - apply Z.divide_factor_l.
  - exists (2 ^ 52). reflexivity.
  - assert (mq = 4503599627370496%positive).
    { change (2 ^ 53 / 2 ^ (53 - 52)) with (Z.pos 4503599627370496) in Em.
      now injection Em. }
    subst mq. rewrite Ee.
    replace (Z.log2 t - 52 - (Z.log2 t - 52) - 53 + (53 - 52)) with (-52) by lia.
    reflexivity.
Qed.

(** Nothing done: the quotient is +0 and so is the rate. *)
Lemma rate_none t : 0 < t -> rate 0 t = toDouble 0.
Proof.
  intros Ht. unfold rate.
  destruct (toDouble_positive t Ht) as [(m & e & ->)| ->]; reflexivity.
Qed.

End DoubleFacts.

(** ** ProgressSummary *)

Module ProgressFacts.
Import JS DateFns ProgressSummary Order Deadline.

Lemma filter_narrow {A} (p q : A -> bool) (l : list A) :
  (forall a, p a = true -> q a = true) ->
  List.filter p (List.filter q l) = List.filter p l.
Proof.
  intros Hpq. induction l as [|h t IH]; simpl; [reflexivity|].
  destruct (q h) eqn:Eq; simpl.
  - destruct (p h); now rewrite IH.
  - destruct (p h) eqn:Ep; [|exact IH].
    apply Hpq in Ep. congruence.
Qed.



Lemma In_take {A} (a : A) (n : nat) (l : list A) :
  In a (take n l) -> In a l.
Proof.
  intros H. rewrite <- (take_drop n l). apply in_or_app. now left.
Qed.

Lemma Status_eqb_eq (a b : Status) : Status_eqb a b = true <-> a = b.
Proof. destruct a, b; simpl; split; congruence. Qed.

(** The three filters keep only records whose due date is there and is read
    by [parseISO]. *)
Lemma isUrgent_hasDueDate tz now item :
  isUrgent tz now item = true -> hasDueDate tz item = true.
Proof.
  unfold isUrgent, hasDueDate.
  destruct (truthy (due_date item)); simpl; [|discriminate].
  destruct (parseISOOf tz (due_date item)); [reflexivity|].
  rewrite DateFacts.isToday_NaN, DateFacts.isTomorrow_NaN. now rewrite andb_false_r.
Qed.

Lemma isUrgent_dueSoon tz now item :
  isUrgent tz now item = true -> dueSoon tz now item.
Proof.
  unfold isUrgent, dueSoon.
  destruct (truthy (due_date item)); simpl; [|discriminate].
  intros H. apply andb_prop in H as [Hs Hd].
  apply Status_eqb_eq in Hs. apply orb_prop in Hd. auto.
Qed.

Lemma todayTasks_hasDueDate tz now item items :
  In item (todayTasks tz now items) -> hasDueDate tz item = true.
Proof.
  unfold todayTasks, hasDueDate. rewrite filter_In. intros [_ H].
  apply andb_prop in H as [H Hd]. apply andb_prop in H as [_ ->].
  destruct (parseISOOf tz (due_date item)); [reflexivity|].
  now rewrite DateFacts.isToday_NaN in Hd.
Qed.

Lemma overdueTasks_hasDueDate tz now item items :
  In item (overdueTasks tz now items) -> hasDueDate tz item = true.
Proof.
  unfold overdueTasks, hasDueDate. rewrite filter_In. intros [_ H].
  apply andb_prop in H as [H Hd]. apply andb_prop in H as [_ ->].
  destruct (parseISOOf tz (due_date item)); [reflexivity|].
  now rewrite DateFacts.isBefore_NaN in Hd.
Qed.




Lemma urgentDeadlines_In tz now item items :
  In item (urgentDeadlines tz now items) ->
  In item items /\ isUrgent tz now item = true.
Proof.
  unfold urgentDeadlines, slice0. intros H.
  apply In_take, (SortFacts.sort_In byDueDate), filter_In in H. exact H.
Qed.

(** During the day on which a task is due, the first millisecond apart,
    the badge is Overdue; the badge Due Today shows at midnight only. *)
Lemma getUrgencyBadge_on_the_day tz s d ms :
  parseCalendarDate s = Some d -> 0 < ms < msPerDay ->
  getUrgencyBadge tz (d * msPerDay - tz + ms) (Some s) = Some Overdue.
Proof.
  intros Hs Hms. unfold getUrgencyBadge. simpl.
  destruct (DateFacts.isBefore_on_the_day tz s d ms Hs Hms) as [-> _].
  reflexivity.
Qed.

Lemma getUrgencyBadge_at_midnight tz s d :
  parseCalendarDate s = Some d ->
  getUrgencyBadge tz (d * msPerDay - tz) (Some s) = Some DueToday.
Proof.
  intros Hs. unfold getUrgencyBadge, isBefore, isToday, isSameDay. simpl.
  rewrite (DateFacts.parseISO_calendar tz _ _ Hs). simpl. rewrite Z.ltb_irrefl.
  now rewrite Z.eqb_refl.
Qed.

(** C1, at the failing input.  The clock reads 2024-06-10 10:00 (UTC, time
    value 1718013600000) and an open task is due 2024-06-10.  The claim
    puts the task in the bucket DueToday and keeps Overdue and DueToday
    apart; [getUrgencyBadge] answers Overdue, and the task is counted both
    among [todayTasks] and among [overdueTasks]. *)
Theorem due_today_is_badged_overdue :
  let now := 1718013600000 in
  let item := task "report" (Some "2024-06-10"%string) ToDo in
  getUrgencyBadge 0 now (due_date item) = Some Overdue
  /\ isToday 0 now (parseISOOf 0 (due_date item)) = true
  /\ todayTasks 0 now [item] = [item]
  /\ overdueTasks 0 now [item] = [item].
Proof. vm_compute. repeat split. Qed.




(** C9. A record whose due date is missing or is not read by [parseISO]
    appears in none of the urgent list, the due-today list and the overdue
    list, and each of the three is what it would be with those records
    removed from the input: they are skipped.  The functions are total, and
    [parseISO] answers an unparsable string with an Invalid Date, which is
    never today, tomorrow or before another date. *)
Theorem invalid_due_dates_are_skipped (tz now : Z) (actionItems : list ActionItem) :
  let valid := List.filter (hasDueDate tz) actionItems in
  Forall (fun item => hasDueDate tz item = true) (urgentDeadlines tz now actionItems)
  /\ Forall (fun item => hasDueDate tz item = true) (todayTasks tz now actionItems)
  /\ Forall (fun item => hasDueDate tz item = true) (overdueTasks tz now actionItems)
  /\ urgentDeadlines tz now actionItems = urgentDeadlines tz now valid
  /\ length (todayTasks tz now actionItems) = length (todayTasks tz now valid)
  /\ length (overdueTasks tz now actionItems) = length (overdueTasks tz now valid).
Proof.
  simpl. repeat split.
  - apply List.Forall_forall. intros item H.
    apply urgentDeadlines_In in H as [_ H]. eapply isUrgent_hasDueDate, H.
  - apply List.Forall_forall. intros item. apply todayTasks_hasDueDate.
  - apply List.Forall_forall. intros item. apply overdueTasks_hasDueDate.
  - unfold urgentDeadlines. rewrite filter_narrow; [reflexivity|].
    intros a. apply isUrgent_hasDueDate.
  - f_equal. unfold todayTasks at 2. rewrite filter_narrow; [reflexivity|].
    intros a Ha. apply (todayTasks_hasDueDate tz now a [a]).
    unfold todayTasks. simpl. rewrite Ha. now left.
  - f_equal. unfold overdueTasks at 2. rewrite filter_narrow; [reflexivity|].
    intros a Ha. apply (overdueTasks_hasDueDate tz now a [a]).
    unfold overdueTasks. simpl. rewrite Ha. now left.
Qed.

Lemma completedTasks_le_totalTasks (actionItems : list ActionItem) :
  (completedTasks actionItems <= totalTasks actionItems)%nat.
Proof. apply List.filter_length_le. Qed.

Lemma completionRate_rate (actionItems : list ActionItem) :
  completionRate actionItems
  = if (0 <? totalTasks actionItems)%nat
    then Double.rate (Z.of_nat (completedTasks actionItems))
                     (Z.of_nat (totalTasks actionItems))
    else toDouble 0.
Proof. reflexivity. Qed.

(** C6, the counterexample.  With 11 tasks done out of 20 the quotient
    11 / 20 is rounded, its product by 100 is rounded again, and the rate
    is the double next above 55: it is not 100 * 11 / 20, which is the
    double 55. *)
Lemma completionRate_is_rounded :
  let items := List.repeat (task "done" None Done) 11
               ++ List.repeat (task "open" None ToDo) 9 in
  completedTasks items = 11%nat
  /\ totalTasks items = 20%nat
  /\ completionRate items = S754_finite false 7740561859543041 (-47)
  /\ toDouble 55 = S754_finite false 7740561859543040 (-47)
  /\ exists v, Double.value (completionRate items) = Some v
       /\ (v - 100 * 11 / 20 == 2 ^ (-47))%Q
       /\ ~ (v == 100 * 11 / 20)%Q.
Proof.
  cbv zeta. split; [reflexivity|]. split; [reflexivity|].
  split; [vm_compute; reflexivity|]. split; [vm_compute; reflexivity|].
  eexists. split; [vm_compute; reflexivity|]. split.
  - vm_compute. reflexivity.
  - intros H. vm_compute in H. discriminate H.
Qed.

(** C6. [completionRate] is the double (done / total) * 100.  It is +0 for
    the empty list and when no task is done.  For a list of fewer than 2^53
    tasks (an array has fewer than 2^32 entries) it lies in [0, 100], it is
    exactly 100 when every task is done, and it is within 2^-44 of
    100 * done / total.  For two done tasks and an open one it is the
    double 66.66666666666666, which is 66.67 within half a hundredth. *)
Theorem completionRate_spec (actionItems : list ActionItem) :
  let done := Z.of_nat (completedTasks actionItems) in
  let total := Z.of_nat (totalTasks actionItems) in
  completionRate [] = toDouble 0
  /\ (total = 0 -> completionRate actionItems = toDouble 0)
  /\ (done = 0 -> completionRate actionItems = toDouble 0)
  /\ (total < 2 ^ 53 ->
      (done = total -> total <> 0 ->
       completionRate actionItems = toDouble 100)
      /\ exists v, Double.value (completionRate actionItems) = Some v
           /\ (0 <= v <= 100)%Q
           /\ (total <> 0 ->
               (Qabs (v - 100 * inject_Z done / inject_Z total)
                <= 2 ^ (-44))%Q))
  /\ (completionRate [task "a" None Done; task "b" None Done;
                      task "c" None ToDo]
      = S754_finite false 4691249611844266 (-46)
      /\ exists v, Double.value (completionRate [task "a" None Done;
                                                 task "b" None Done;
                                                 task "c" None ToDo]) = Some v
           /\ (Qabs (v - (6667 # 100)) <= 5 # 1000)%Q).
Proof.
  pose proof (completedTasks_le_totalTasks actionItems) as Hle.
  cbv zeta. rewrite (completionRate_rate actionItems).
  set (c := completedTasks actionItems) in *.
  set (t := totalTasks actionItems) in *.
  assert (Hnone : Z.of_nat c = 0 ->
                  (if (0 <? t)%nat then Double.rate (Z.of_nat c) (Z.of_nat t)
                   else toDouble 0) = toDouble 0).
  { intros ->. destruct (Nat.ltb_spec 0 t) as [Ht|Ht]; [|reflexivity].
    apply DoubleFacts.rate_none. lia. }
  assert (Hempty : Z.of_nat t = 0 ->
                   (if (0 <? t)%nat then Double.rate (Z.of_nat c) (Z.of_nat t)
                    else toDouble 0) = toDouble 0).
  { intros Ht. replace (0 <? t)%nat with false; [reflexivity|].
    symmetry. apply Nat.ltb_ge. lia. }
  refine (conj eq_refl (conj Hempty (conj Hnone (conj _ _)))).
  - intros Ht. split.
    + intros Hall Hpos. replace (0 <? t)%nat with true
        by (symmetry; apply Nat.ltb_lt; lia).
      rewrite Hall. apply DoubleFacts.rate_all. lia.
    + destruct (Z.eq_dec (Z.of_nat c) 0) as [Hc|Hc].
      * rewrite (Hnone Hc), Hc. exists 0%Q. split; [reflexivity|].
        split; [split; discriminate|]. intros _.
        apply Qabs_Qle_condition. split; vm_compute; discriminate.
      * replace (0 <? t)%nat with true by (symmetry; apply Nat.ltb_lt; lia).
        destruct (DoubleFacts.rate_spec (Z.of_nat c) (Z.of_nat t))
          as (mr & er & -> & Hv & Habs); [lia|lia|].
        eexists. split; [reflexivity|].
        apply Qabs_Qle_condition in Habs.
        split; [lra|]. intros _. apply Qabs_Qle_condition. lra.
  - split; [vm_compute; reflexivity|].
    eexists. split; [vm_compute; reflexivity|].
    apply Qabs_Qle_condition. split; vm_compute; discriminate.
Qed.

Lemma completionRate_spec_witness :
  let items := [task "a" None Done; task "b" None Done; task "c" None ToDo] in
  Z.of_nat (totalTasks items) < 2 ^ 53
  /\ exists v, Double.value (completionRate items) = Some v
       /\ (0 <= v <= 100)%Q
       /\ (Z.of_nat (totalTasks items) <> 0 ->
           (Qabs (v - 100 * inject_Z (Z.of_nat (completedTasks items))
                      / inject_Z (Z.of_nat (totalTasks items)))
            <= 2 ^ (-44))%Q).
Proof.
  cbv zeta.
  assert (H : Z.of_nat (totalTasks [task "a" None Done; task "b" None Done;
                                    task "c" None ToDo]) < 2 ^ 53)
    by reflexivity.
  split; [exact H|].
  exact (proj2 (proj1 (proj2 (proj2 (proj2
           (completionRate_spec [task "a" None Done; task "b" None Done;
                                 task "c" None ToDo])))) H)).
Defined.

End ProgressFacts.

(** ** The idea voting board *)

Module BoardFacts.
Import JS IdeaVotingBoard Order Board.

(** *** Sorting the ideas *)

Lemma compareIdeas_votes (a b : Idea) :
  compareIdeas "votes" a b = sub (voteCount b) (voteCount a).
Proof. reflexivity. Qed.

Lemma compareIdeas_newest (a b : Idea) :
  compareIdeas "newest" a b = sub (createdTime b) (createdTime a).
Proof. reflexivity. Qed.

(** C7. Sorted by "votes", the ideas are the same ideas, in descending
    order of vote count, and the ideas with one vote count keep their input
    order; ideas with 5, 5 and 3 votes given as A, B, C come out as
    A, B, C. *)
Theorem sortedIdeas_by_votes (ideas : list Idea) :
  let sorted := sortedIdeas ideas "votes" in
  Permutation ideas sorted
  /\ descending voteCount sorted
  /\ (forall z, with_key voteCount z sorted = with_key voteCount z ideas)
  /\ sortedIdeas [idea "A" 5 None; idea "B" 5 None; idea "C" 3 None] "votes"
     = [idea "A" 5 None; idea "B" 5 None; idea "C" 3 None].
Proof.
  simpl. unfold sortedIdeas. repeat split.
  - apply SortFacts.sort_Permutation.
  - apply (SortFacts.sort_descending _ voteCount compareIdeas_votes).
    apply List.Forall_forall. intros i _. unfold voteCount. eauto.
  - intros z.
    apply (SortFacts.sort_stable_reversed _ voteCount compareIdeas_votes).
Qed.

(** What does hold of the sort by "newest": when every idea has a creation
    timestamp that the Date constructor reads, the ideas come out in
    descending order of that timestamp. *)
Lemma sortedIdeas_newest_all_dated (ideas : list Idea) :
  Forall (fun i => is_Some (createdTime i)) ideas ->
  descending createdTime (sortedIdeas ideas "newest").
Proof.
  apply (SortFacts.sort_descending _ createdTime compareIdeas_newest).
Qed.

(** An idea without timestamp compares as NaN with every other idea. *)
Lemma compareIdeas_missing_l (a b : Idea) :
  truthy (created_at a) = false -> compareIdeas "newest" a b = NaN.
Proof.
  rewrite compareIdeas_newest. unfold createdTime, or_empty, truthy.
  intros H. destruct (created_at a) as [s|].
  - destruct (String.eqb s ""); [|discriminate].
    destruct (getTime _); reflexivity.
  - destruct (getTime _); reflexivity.
Qed.

(** C4, at the failing input.  Idea A has no creation timestamp and idea B
    was created 2024-01-01.  The claim sorts A after B; the comparator
    yields NaN for the pair, the sort reads it as a tie, and A stays before
    B.  With a third idea D created 2024-03-01 behind them, D is not moved
    before B either. *)
Theorem newest_leaves_undated_idea_in_place :
  let a := idea "A" 0 None in
  let b := idea "B" 0 (Some "2024-01-01"%string) in
  let d := idea "D" 0 (Some "2024-03-01"%string) in
  compareIdeas "newest" a b = NaN
  /\ compareIdeas "newest" b a = NaN
  /\ sortedIdeas [a; b] "newest" = [a; b]
  /\ sortedIdeas [b; a; d] "newest" = [b; a; d]
  /\ sortedIdeas [b; d] "newest" = [d; b].
Proof. vm_compute. repeat split. Qed.

(** *** The vote cache *)

Lemma VoteType_eqb_eq (a b : VoteType) : VoteType_eqb a b = true <-> a = b.
Proof. destruct a, b; simpl; split; congruence. Qed.

Lemma hasVoted_voted (userVotes : gmap string (list IdeaVote)) ideaId kind :
  hasVoted userVotes ideaId kind = true <-> voted userVotes ideaId kind.
Proof.
  unfold hasVoted, voted. rewrite existsb_exists.
  split; intros (v & Hin & Hv); exists v; split; try exact Hin;
    now apply VoteType_eqb_eq.
Qed.

Lemma existingVotes_addVote_same (acc : gmap string (list IdeaVote)) v :
  existingVotes (addVote acc v) (idea_id v)
  = existingVotes acc (idea_id v) ++ [v].
Proof.
  unfold existingVotes, addVote.
  destruct (acc !! idea_id v) as [group|] eqn:E;
    now rewrite lookup_insert_eq.
Qed.

Lemma existingVotes_addVote_other (acc : gmap string (list IdeaVote)) v ideaId :
  ideaId <> idea_id v ->
  existingVotes (addVote acc v) ideaId = existingVotes acc ideaId.
Proof.
  intros Hne. unfold existingVotes, addVote.
  destruct (acc !! idea_id v) as [group|] eqn:E;
    now rewrite lookup_insert_ne.
Qed.

(** Recording a vote adds its kind for its idea and changes nothing else. *)
Lemma hasVoted_addVote (acc : gmap string (list IdeaVote)) v ideaId kind :
  hasVoted (addVote acc v) ideaId kind
  = hasVoted acc ideaId kind
    || (String.eqb ideaId (idea_id v) && VoteType_eqb (vote_type v) kind).
Proof.
  unfold hasVoted. destruct (String.eqb_spec ideaId (idea_id v)) as [->|Hne].
  - rewrite existingVotes_addVote_same, existsb_app. simpl.
    now rewrite orb_false_r.
  - rewrite existingVotes_addVote_other by exact Hne. simpl.
    now rewrite orb_false_r.
Qed.

(** The cache built from the fetched rows answers [hasVoted] as a search
    through the rows would. *)
Lemma hasVoted_votesByIdea (data : list IdeaVote) ideaId kind :
  hasVoted (votesByIdea data) ideaId kind
  = existsb (fun v => String.eqb ideaId (idea_id v)
                      && VoteType_eqb (vote_type v) kind) data.
Proof.
  unfold votesByIdea.
  induction data as [|v data IH] using rev_ind.
  - reflexivity.
  - rewrite fold_left_app. simpl.
    rewrite hasVoted_addVote, IH, existsb_app. simpl.
    now rewrite orb_false_r.
Qed.

(** C8. After an upvote by voter U on idea I is recorded in the index,
    [hasVoted] is true for (I, upvote) and is what it was for
    (I, downvote); and [hasVoted] is true exactly when the group of the
    idea is there and holds a vote of the kind. *)
Theorem hasVoted_after_upvote (index : gmap string (list IdeaVote))
    (name I U : string) :
  let index' := addVote index (vote name I U upvote) in
  hasVoted index' I upvote = true
  /\ hasVoted index' I downvote = hasVoted index I downvote
  /\ (forall (idx : gmap string (list IdeaVote)) ideaId kind,
        hasVoted idx ideaId kind = true <->
        exists group v,
          idx !! ideaId = Some group /\ In v group /\ vote_type v = kind)
  /\ (forall (idx : gmap string (list IdeaVote)) ideaId kind,
        idx !! ideaId = None -> hasVoted idx ideaId kind = false).
Proof.
  simpl. refine (conj _ (conj _ (conj _ _))).
  - rewrite hasVoted_addVote. simpl. rewrite String.eqb_refl.
    apply orb_true_r.
  - rewrite hasVoted_addVote. simpl. now rewrite andb_false_r, orb_false_r.
  - intros idx ideaId kind. rewrite hasVoted_voted.
    unfold voted, existingVotes. split.
    + intros (v & Hin & Hv).
      destruct (idx !! ideaId) as [group|]; simpl in Hin; [eauto|contradiction].
    + intros (group & v & Hg & Hin & Hv). exists v. rewrite Hg. auto.
  - intros idx ideaId kind Hnone. unfold hasVoted, existingVotes.
    now rewrite Hnone.
Qed.

(** *** Casting a vote *)

Lemma find_existsb {A} (f : A -> bool) (l : list A) :
  existsb f l = match find f l with Some _ => true | None => false end.
Proof.
  induction l as [|h t IH]; simpl; [reflexivity|].
  destruct (f h); [reflexivity|exact IH].
Qed.

Section HandleVote.
Variable rejects : Request -> bool.
Variable gen_id : list IdeaVote -> string.
Variable ideas : list Idea.
Variable userVotes : gmap string (list IdeaVote).
Variable userId : string.

(** Every path through [handleVote]. *)
Lemma handleVote_cases (ideaId : string) (kind : VoteType) (w : World) :
  handleVote rejects gen_id ideas userVotes userId ideaId kind w =
  if hasVoted userVotes ideaId kind then
    (Returned tt, notified (AlreadyVoted kind) w)
  else
    let r1 := InsertVote ideaId userId kind in
    let w1 := sent rejects gen_id r1 w in
    if rejects r1 then (Returned tt, notified FailedToAddVote w1)
    else
      match find (fun i => String.eqb (id i) ideaId) ideas with
      | None => (Returned tt, w1)
      | Some currentIdea =>
          let r2 := UpdateVotes ideaId (votes currentIdea + voteChange kind) in
          let w2 := sent rejects gen_id r2 w1 in
          if rejects r2 then (Returned tt, notified FailedToAddVote w2)
          else
            (Returned tt,
             {| backend := backend w2; requests := requests w2;
                toasts := toasts w2 ++ [VoteAdded kind];
                updates := S (updates w2) |})
      end.
Proof.
  unfold hasVoted. rewrite find_existsb.
  unfold handleVote, try_catch, bind, send, throw_if, throw, ret, toast,
    onUpdate, notified, sent.
  destruct (find _ (existingVotes userVotes ideaId)); [reflexivity|].
  simpl. destruct (rejects (InsertVote ideaId userId kind)); [reflexivity|].
  destruct (find _ ideas) as [currentIdea|]; [|reflexivity].
  simpl. destruct (rejects (UpdateVotes _ _)); reflexivity.
Qed.
End HandleVote.

Lemma app_one_neq {A} (l : list A) (x : A) : l <> l ++ [x].
Proof.
  intros H. apply (f_equal (@length A)) in H.
  rewrite length_app in H. simpl in H. lia.
Qed.

(** C2. [handleVote] answers "Already voted" exactly when the cached votes
    of the current user hold a vote of that kind for that idea; it then
    returns with the store untouched and no request sent.  Otherwise the
    vote goes on to the store, the insert being the first request.  A
    cached vote of one kind leaves the other kind open, and closes its
    own. *)
Theorem duplicate_vote_rejected_before_store
    (rejects : Request -> bool) (gen_id : list IdeaVote -> string)
    (ideas : list Idea) (userVotes : gmap string (list IdeaVote))
    (userId ideaId : string) (kind : VoteType) (w : World) :
  let out := handleVote rejects gen_id ideas userVotes userId ideaId kind w in
  (toasts out.2 = toasts w ++ [AlreadyVoted kind]
     <-> voted userVotes ideaId kind)
  /\ (voted userVotes ideaId kind ->
      out = (Returned tt, notified (AlreadyVoted kind) w))
  /\ (~ voted userVotes ideaId kind ->
      exists rest,
        requests out.2 = requests w ++ InsertVote ideaId userId kind :: rest)
  /\ (forall v, vote_type v <> kind ->
        hasVoted (addVote userVotes v) ideaId kind
        = hasVoted userVotes ideaId kind)
  /\ (forall name,
        hasVoted (addVote userVotes (vote name ideaId userId kind)) ideaId kind
        = true).
Proof.
  intros out.
  pose proof (handleVote_cases rejects gen_id ideas userVotes userId
                ideaId kind w) as Hout.
  cbv zeta in Hout. unfold sent in Hout. fold out in Hout.
  rewrite <- hasVoted_voted.
  destruct (hasVoted userVotes ideaId kind) eqn:Hv.
  - rewrite Hout. refine (conj _ (conj _ (conj _ (conj _ _)))).
    + split; reflexivity || auto.
    + reflexivity.
    + intros H. now contradict H.
    + intros v Hne. rewrite hasVoted_addVote, Hv. reflexivity.
    + intros name. rewrite hasVoted_addVote, Hv. reflexivity.
  - refine (conj _ (conj _ (conj _ (conj _ _)))).
    + split; [|discriminate]. rewrite Hout. intros H. exfalso.
      destruct (rejects (InsertVote ideaId userId kind)); simpl in H.
      * apply app_inv_head in H. discriminate.
      * destruct (find _ ideas) as [currentIdea|]; simpl in H.
        -- destruct (rejects (UpdateVotes _ _)); simpl in H;
             apply app_inv_head in H; discriminate.
        -- now apply app_one_neq in H.
    + discriminate.
    + intros _. rewrite Hout.
      destruct (rejects (InsertVote ideaId userId kind)); simpl.
      * now exists [].
      * destruct (find _ ideas) as [currentIdea|]; simpl.
        -- destruct (rejects (UpdateVotes _ _)); simpl;
             rewrite <- app_assoc; eauto.
        -- now exists [].
    + intros v Hne. rewrite hasVoted_addVote, Hv. simpl.
      destruct (VoteType_eqb (vote_type v) kind) eqn:E.
      * apply VoteType_eqb_eq in E. contradiction.
      * apply andb_false_r.
    + intros name. rewrite hasVoted_addVote. simpl.
      rewrite String.eqb_refl. destruct kind; apply orb_true_r.
Qed.

(** C5. A vote that passes the check, is stored, and is for an idea of the
    snapshot sends the count of that idea plus one for an upvote and minus
    one for a downvote; the store, when it accepts the update, holds that
    count for the idea.  The count is not clamped: the new count is the
    integer sum whatever its sign. *)
Theorem vote_changes_count_by_one
    (rejects : Request -> bool) (gen_id : list IdeaVote -> string)
    (ideas : list Idea) (userVotes : gmap string (list IdeaVote))
    (userId ideaId : string) (kind : VoteType) (currentIdea : Idea)
    (w : World) :
  hasVoted userVotes ideaId kind = false ->
  rejects (InsertVote ideaId userId kind) = false ->
  find (fun i => String.eqb (id i) ideaId) ideas = Some currentIdea ->
  let newCount :=
    match kind with
    | upvote => votes currentIdea + 1
    | downvote => votes currentIdea - 1
    end in
  let out := handleVote rejects gen_id ideas userVotes userId ideaId kind w in
  requests out.2
  = requests w ++ [InsertVote ideaId userId kind; UpdateVotes ideaId newCount]
  /\ (rejects (UpdateVotes ideaId newCount) = false ->
      Forall (fun i => id i = ideaId -> votes i = newCount)
             (ideas_table (backend out.2))).
Proof.
  intros Hv Hins Hfind newCount out.
  pose proof (handleVote_cases rejects gen_id ideas userVotes userId
                ideaId kind w) as Hout.
  cbv zeta in Hout. unfold sent in Hout. fold out in Hout.
  rewrite Hv, Hins, Hfind in Hout.
  assert (Hcount : votes currentIdea + voteChange kind = newCount).
  { unfold newCount. destruct kind; simpl; lia. }
  rewrite Hcount in Hout. rewrite Hout. split.
  - destruct (rejects (UpdateVotes ideaId newCount)); simpl;
      now rewrite <- app_assoc.
  - intros Hupd. rewrite Hupd. simpl.
    apply List.Forall_forall. intros i Hi. apply in_map_iff in Hi as (j & <- & _).
    destruct (String.eqb_spec (id j) ideaId); simpl; [reflexivity|contradiction].
Qed.

(** C5 at a concrete input: an upvote on an idea that has 10 votes. *)
Lemma vote_changes_count_by_one_witness :
  let out := handleVote accepts_all next_id [idea "A" 10 None] ∅ "u" "A"
               upvote (world [] [idea "A" 10 None]) in
  requests out.2 = [InsertVote "A" "u" upvote; UpdateVotes "A" 11]
  /\ (accepts_all (UpdateVotes "A" 11) = false ->
      Forall (fun i => id i = "A"%string -> votes i = 11)
             (ideas_table (backend out.2))).
Proof.
  exact (vote_changes_count_by_one accepts_all next_id [idea "A" 10 None] ∅
           "u" "A" upvote (idea "A" 10 None) (world [] [idea "A" 10 None])
           eq_refl eq_refl eq_refl).
Defined.

Example downvote_on_ten_votes :
  (handleVote accepts_all next_id [idea "A" 10 None] ∅ "u" "A" downvote
     (world [] [idea "A" 10 None])).2
  = {| backend := {| idea_votes := [vote "v" "A" "u" downvote];
                     ideas_table := [idea "A" 9 None] |};
       requests := [InsertVote "A" "u" downvote; UpdateVotes "A" 9];
       toasts := [VoteAdded downvote]; updates := 1 |}.
Proof. reflexivity. Qed.

Example downvote_below_zero :
  ideas_table (backend
    (handleVote accepts_all next_id [idea "A" 0 None] ∅ "u" "A" downvote
       (world [] [idea "A" 0 None])).2)
  = [idea "A" (-1) None].
Proof. reflexivity. Qed.

(** C10. A vote that passes the check for an idea that the snapshot does
    not list: the vote row is stored, then the handler returns; it shows no
    notice, sends no update, leaves every row of the ideas table as it was
    and does not ask for a refresh. *)
Theorem vote_on_unlisted_idea
    (rejects : Request -> bool) (gen_id : list IdeaVote -> string)
    (ideas : list Idea) (userVotes : gmap string (list IdeaVote))
    (userId ideaId : string) (kind : VoteType) (w : World) :
  hasVoted userVotes ideaId kind = false ->
  find (fun i => String.eqb (id i) ideaId) ideas = None ->
  rejects (InsertVote ideaId userId kind) = false ->
  handleVote rejects gen_id ideas userVotes userId ideaId kind w
  = (Returned tt,
     {| backend :=
          {| idea_votes :=
               idea_votes (backend w)
               ++ [vote (gen_id (idea_votes (backend w))) ideaId userId kind];
             ideas_table := ideas_table (backend w) |};
        requests := requests w ++ [InsertVote ideaId userId kind];
        toasts := toasts w;
        updates := updates w |}).
Proof.
  intros Hv Hfind Hins.
  pose proof (handleVote_cases rejects gen_id ideas userVotes userId
                ideaId kind w) as Hout.
  cbv zeta in Hout. unfold sent in Hout.
  rewrite Hv, Hins, Hfind in Hout. exact Hout.
Qed.

(** C10 at a concrete input: the store lists idea Z with 3 votes, the
    snapshot of the component does not. *)
Lemma vote_on_unlisted_idea_witness :
  handleVote accepts_all next_id [idea "A" 10 None] ∅ "u" "Z" upvote
    (world [] [idea "A" 10 None; idea "Z" 3 None])
  = (Returned tt,
     {| backend := {| idea_votes := [vote "v" "Z" "u" upvote];
                      ideas_table := [idea "A" 10 None; idea "Z" 3 None] |};
        requests := [InsertVote "Z" "u" upvote];
        toasts := []; updates := 0 |}).
Proof.
  exact (vote_on_unlisted_idea accepts_all next_id [idea "A" 10 None] ∅
           "u" "Z" upvote (world [] [idea "A" 10 None; idea "Z" 3 None])
           eq_refl eq_refl eq_refl).
Defined.

End BoardFacts.

(** ** Calendar days *)

Module CalendarFacts.
Import JS DateFns Calendar.

Lemma msPerDay_pos : 0 < msPerDay.
Proof. reflexivity. Qed.

Lemma startOfDay_localDay tz t :
  startOfDay tz (Some t) = Some (localDay tz t * msPerDay - tz).
Proof.
  unfold startOfDay, localDay. f_equal.
  pose proof (Z.div_mod (t + tz) msPerDay) as H.
  pose proof msPerDay_pos. lia.
Qed.

Lemma isSameDay_localDay tz a b :
  isSameDay tz (Some a) (Some b) = (localDay tz a =? localDay tz b).
Proof.
  unfold isSameDay. rewrite !startOfDay_localDay. simpl.
  pose proof msPerDay_pos.
  destruct (Z.eqb_spec (localDay tz a) (localDay tz b)) as [->|Hne].
  - apply Z.eqb_refl.
  - apply Z.eqb_neq. nia.
Qed.

Lemma localDay_of_midnight tz n : localDay tz (n * msPerDay - tz) = n.
Proof.
  unfold localDay. replace (n * msPerDay - tz + tz) with (n * msPerDay) by lia.
  apply Z.div_mul. unfold msPerDay. lia.
Qed.

Lemma localDay_next tz t : localDay tz (t + 1 * msPerDay) = localDay tz t + 1.
Proof.
  unfold localDay. replace (t + 1 * msPerDay + tz) with (t + tz + 1 * msPerDay) by lia.
  apply Z.div_add. unfold msPerDay. lia.
Qed.

(** [isToday], [isTomorrow] and [isBefore] on a date read by [parseISO], in
    terms of the day that the string names. *)
Lemma isToday_parseISO tz now s :
  isToday tz now (parseISO tz s)
  = match parseDay s with
    | Some n => n =? localDay tz now
    | None => false
    end.
Proof.
  unfold isToday, parseISO. destruct (parseDay s) as [n|]; [|reflexivity].
  now rewrite isSameDay_localDay, localDay_of_midnight.
Qed.

Lemma isTomorrow_parseISO tz now s :
  isTomorrow tz now (parseISO tz s)
  = match parseDay s with
    | Some n => n =? localDay tz now + 1
    | None => false
    end.
Proof.
  unfold isTomorrow, parseISO, addDays.
  destruct (parseDay s) as [n|]; [|reflexivity].
  now rewrite isSameDay_localDay, localDay_of_midnight, localDay_next.
Qed.

Lemma isBefore_parseISO tz now s :
  isBefore (parseISO tz s) (Some now)
  = match parseDay s with
    | Some n => (n <? localDay tz now)
                || ((n =? localDay tz now) && negb (atMidnight tz now))
    | None => false
    end.
Proof.
  unfold isBefore, parseISO, atMidnight, localDay.
  destruct (parseDay s) as [n|]; [|reflexivity]. simpl.
  pose proof msPerDay_pos as Hpos.
  pose proof (Z.div_mod (now + tz) msPerDay) as Hdm.
  pose proof (Z.mod_pos_bound (now + tz) msPerDay Hpos) as Hb.
  set (q := (now + tz) / msPerDay) in *.
  set (r := (now + tz) mod msPerDay) in *.
  destruct (Z.ltb_spec (n * msPerDay - tz) now) as [Hlt|Hge];
    destruct (Z.ltb_spec n q) as [Hnq|Hnq]; simpl;
    destruct (Z.eqb_spec n q) as [Heq|Hne]; simpl;
    destruct (Z.eqb_spec r 0) as [Hr|Hr]; simpl; try reflexivity;
    exfalso; nia.
Qed.

End CalendarFacts.

(** ** ProgressSummary: the counters and the badges *)

Module ProgressExtra.
Import JS DateFns ProgressSummary UpcomingMeetings ProgressCounts Calendar
  Schedule Deadline.

Lemma parseISOOf_dueDay tz item :
  parseISOOf tz (due_date item)
  = match dueDay item with
    | Some n => Some (n * msPerDay - tz)
    | None => NaN
    end.
Proof. unfold dueDay, parseISOOf. destruct (due_date item); reflexivity. Qed.

Lemma dueDay_truthy item n : dueDay item = Some n -> truthy (due_date item) = true.
Proof.
  unfold dueDay, truthy. destruct (due_date item) as [s|]; [|discriminate].
  destruct s; [discriminate|reflexivity].
Qed.

Lemma isToday_dueDay tz now item :
  isToday tz now (parseISOOf tz (due_date item))
  = match dueDay item with Some n => n =? localDay tz now | None => false end.
Proof.
  unfold dueDay. destruct (due_date item) as [s|]; [|reflexivity].
  apply CalendarFacts.isToday_parseISO.
Qed.

Lemma isTomorrow_dueDay tz now item :
  isTomorrow tz now (parseISOOf tz (due_date item))
  = match dueDay item with Some n => n =? localDay tz now + 1 | None => false end.
Proof.
  unfold dueDay. destruct (due_date item) as [s|]; [|reflexivity].
  apply CalendarFacts.isTomorrow_parseISO.
Qed.

Lemma isBefore_dueDay tz now item :
  isBefore (parseISOOf tz (due_date item)) (Some now)
  = match dueDay item with
    | Some n => (n <? localDay tz now)
                || ((n =? localDay tz now) && negb (atMidnight tz now))
    | None => false
    end.
Proof.
  unfold dueDay. destruct (due_date item) as [s|]; [|reflexivity].
  apply CalendarFacts.isBefore_parseISO.
Qed.

(** X1. The number of pending tasks shown in the chart is the number of
    open action items; it is never negative. *)
Theorem pendingTasks_counts_open (actionItems : list ActionItem) :
  pendingTasks actionItems
  = Z.of_nat (length (List.filter (fun item => Status_eqb (status item) ToDo)
                                  actionItems))
  /\ 0 <= pendingTasks actionItems.
Proof.
  assert (H : pendingTasks actionItems
              = Z.of_nat (length (List.filter
                  (fun item => Status_eqb (status item) ToDo) actionItems))).
  { unfold pendingTasks, totalTasks, completedTasks.
    induction actionItems as [|item items IH]; simpl; [reflexivity|].
    destruct (status item); simpl; lia. }
  split; [exact H|]. rewrite H. lia.
Qed.

(** X2. The due-today list holds exactly the open action items whose due
    date names the local calendar day of the clock, whatever the time of
    day. *)
Theorem todayTasks_iff (tz now : Z) (actionItems : list ActionItem)
    (item : ActionItem) :
  In item (todayTasks tz now actionItems)
  <-> In item actionItems /\ status item = ToDo
      /\ dueDay item = Some (localDay tz now).
Proof.
  unfold todayTasks. rewrite filter_In, isToday_dueDay.
  rewrite !andb_true_iff, ProgressFacts.Status_eqb_eq.
  split.
  - intros (Hin & (Hs & _) & Hd). repeat split; try assumption.
    destruct (dueDay item) as [n|]; [|discriminate].
    apply Z.eqb_eq in Hd. now subst.
  - intros (Hin & Hs & Hd). rewrite Hd, Z.eqb_refl.
    repeat split; try assumption. eapply dueDay_truthy, Hd.
Qed.

Lemma todayTasks_dueDay tz now actionItems item :
  In item (todayTasks tz now actionItems) ->
  In item actionItems /\ status item = ToDo
  /\ dueDay item = Some (localDay tz now).
Proof.
  unfold todayTasks. rewrite filter_In, isToday_dueDay.
  intros (Hin & H). apply andb_prop in H as [H Hd].
  apply andb_prop in H as [Hs _]. apply ProgressFacts.Status_eqb_eq in Hs.
  destruct (dueDay item) as [n|]; [|discriminate].
  apply Z.eqb_eq in Hd. subst. auto.
Qed.

(** X3. The overdue list holds exactly the open action items due on an
    earlier day and, once the clock is past the local midnight, those due
    on the day itself.  So at any moment but midnight every task counted
    as due today is counted as overdue too, and at midnight none is. *)
Theorem overdueTasks_iff (tz now : Z) (actionItems : list ActionItem) :
  (forall item,
     In item (overdueTasks tz now actionItems)
     <-> In item actionItems /\ status item = ToDo
         /\ exists n, dueDay item = Some n
              /\ (n < localDay tz now
                  \/ (n = localDay tz now /\ atMidnight tz now = false)))
  /\ (atMidnight tz now = false ->
      forall item, In item (todayTasks tz now actionItems) ->
                   In item (overdueTasks tz now actionItems))
  /\ (atMidnight tz now = true ->
      forall item, In item (todayTasks tz now actionItems) ->
                   ~ In item (overdueTasks tz now actionItems)).
Proof.
  assert (Hiff : forall item,
     In item (overdueTasks tz now actionItems)
     <-> In item actionItems /\ status item = ToDo
         /\ exists n, dueDay item = Some n
              /\ (n < localDay tz now
                  \/ (n = localDay tz now /\ atMidnight tz now = false))).
  { intros item. unfold overdueTasks. rewrite filter_In, isBefore_dueDay.
    rewrite !andb_true_iff, ProgressFacts.Status_eqb_eq.
    split.
    - intros (Hin & (Hs & _) & Hd). repeat split; try assumption.
      destruct (dueDay item) as [n|]; [|discriminate].
      exists n. split; [reflexivity|].
      apply orb_prop in Hd as [Hd|Hd].
      + left. now apply Z.ltb_lt.
      + right. apply andb_prop in Hd as [Hd Hm]. apply Z.eqb_eq in Hd.
        now apply negb_true_iff in Hm.
    - intros (Hin & Hs & n & Hd & Hn). rewrite Hd.
      repeat split; try assumption; [eapply dueDay_truthy, Hd|].
      destruct Hn as [Hn|[-> Hm]].
      + apply Z.ltb_lt in Hn. now rewrite Hn.
      + rewrite Z.eqb_refl, Hm. apply orb_true_r. }
  split; [exact Hiff|]. split.
  - intros Hm item Ht. apply todayTasks_dueDay in Ht as (Hin & Hs & Hd).
    apply Hiff. repeat split; try assumption. eauto.
  - intros Hm item Ht Ho. apply todayTasks_dueDay in Ht as (_ & _ & Hd).
    apply Hiff in Ho as (_ & _ & n & Hn & Hcase).
    rewrite Hd in Hn. injection Hn as <-.
    destruct Hcase as [Hlt|[_ Hf]]; [lia|congruence].
Qed.

(** X4. The badge of a due date, by the day that the string names: Overdue
    for an earlier day and, past midnight, for the day itself; Due Today
    for the day itself at midnight only; Due Tomorrow for the next day;
    nothing for a later day or for a string that [parseISO] cannot read. *)
Theorem getUrgencyBadge_by_day (tz now : Z) (dueDate : string) :
  getUrgencyBadge tz now (Some dueDate)
  = match parseDay dueDate with
    | None => None
    | Some n =>
        if n <? localDay tz now then Some Overdue
        else if n =? localDay tz now then
          Some (if atMidnight tz now then DueToday else Overdue)
        else if n =? localDay tz now + 1 then Some DueTomorrow
        else None
    end.
Proof.
  unfold getUrgencyBadge. cbn [parseISOOf].
  rewrite CalendarFacts.isBefore_parseISO, CalendarFacts.isToday_parseISO,
    CalendarFacts.isTomorrow_parseISO.
  destruct (parseDay dueDate) as [n|]; [|reflexivity].
  destruct (n <? localDay tz now); [reflexivity|]. simpl.
  destruct (n =? localDay tz now); [|reflexivity]. simpl.
  destruct (atMidnight tz now); reflexivity.
Qed.

(** X5. Every entry of the urgent list is rendered with a badge: Due
    Tomorrow when it is due on the next day, and when it is due on the day
    itself Overdue, or Due Today if the clock reads midnight. *)
Theorem urgent_entries_have_a_badge (tz now : Z) (actionItems : list ActionItem) :
  Forall (fun item =>
            (dueDay item = Some (localDay tz now + 1)
             /\ getUrgencyBadge tz now (due_date item) = Some DueTomorrow)
            \/ (dueDay item = Some (localDay tz now)
                /\ getUrgencyBadge tz now (due_date item)
                   = Some (if atMidnight tz now then DueToday else Overdue)))
         (urgentDeadlines tz now actionItems).
Proof.
  apply List.Forall_forall. intros item H.
  apply ProgressFacts.urgentDeadlines_In in H as [_ H].
  apply ProgressFacts.isUrgent_dueSoon in H as [_ H].
  rewrite isToday_dueDay, isTomorrow_dueDay in H.
  unfold getUrgencyBadge.
  rewrite isBefore_dueDay, isToday_dueDay, isTomorrow_dueDay.
  destruct (dueDay item) as [n|]; [|destruct H; discriminate].
  destruct H as [H|H]; apply Z.eqb_eq in H; subst n.
  - right. split; [reflexivity|].
    rewrite Z.ltb_irrefl, Z.eqb_refl. simpl.
    destruct (atMidnight tz now); reflexivity.
  - left. split; [reflexivity|].
    replace (localDay tz now + 1 <? localDay tz now) with false
      by (symmetry; apply Z.ltb_ge; lia).
    replace (localDay tz now + 1 =? localDay tz now) with false
      by (symmetry; apply Z.eqb_neq; lia).
    simpl. now rewrite Z.eqb_refl.
Qed.

Lemma filter_sublist {A} (f : A -> bool) (l : list A) :
  List.filter f l `sublist_of` l.
Proof.
  induction l as [|a l IH]; simpl; [constructor|].
  destruct (f a); now constructor.
Qed.

Lemma take_filter_all {A} (f : A -> bool) (n : nat) (l : list A) (a : A) :
  (length (take n (List.filter f l)) < n)%nat ->
  In a l -> f a = true -> In a (take n (List.filter f l)).
Proof.
  intros Hlen Hin Hf.
  rewrite take_ge.
  - apply filter_In. auto.
  - rewrite length_take in Hlen. lia.
Qed.

Lemma ge_true (a : Date) (now : Z) :
  ge a (Some now) = true <-> exists t, a = Some t /\ now <= t.
Proof.
  unfold ge. destruct a as [t|].
  - rewrite Z.leb_le. split; [eauto|]. now intros (t' & [= <-] & H).
  - split; [discriminate|]. now intros (t' & [=] & _).
Qed.

(** X6. The upcoming meetings of the summary: at most three; each one not
    archived and dated, as the Date constructor reads the date, at or after
    the clock; in the order of the input; and when fewer than three are
    shown, no such meeting of the input is left out.  A meeting whose date
    cannot be read is never shown. *)
Theorem upcomingMeetings_spec (now : Z) (meetings : list Meeting) :
  let upcoming := upcomingMeetings now meetings in
  (length upcoming <= 3)%nat
  /\ upcoming `sublist_of` meetings
  /\ Forall (fun m => is_archived m = false /\ notBefore now m) upcoming
  /\ ((length upcoming < 3)%nat ->
      forall m, In m meetings -> is_archived m = false -> notBefore now m ->
                In m upcoming)
  /\ (forall m, In m upcoming -> newDateOf (date m) <> NaN).
Proof.
  simpl. unfold upcomingMeetings, slice0.
  assert (Hin : forall m,
            In m (take 3 (List.filter (fun meeting =>
                     negb (is_archived meeting)
                     && ge (newDateOf (date meeting)) (Some now)) meetings)) ->
            is_archived m = false /\ notBefore now m).
  { intros m H. apply ProgressFacts.In_take, filter_In in H as [_ H].
    apply andb_prop in H as [Ha Hd]. apply negb_true_iff in Ha.
    split; [exact Ha|]. now apply ge_true. }
  refine (conj _ (conj _ (conj _ (conj _ _)))).
  - apply firstn_le_length.
  - etransitivity; [apply sublist_take|apply filter_sublist].
  - apply List.Forall_forall. exact Hin.
  - intros Hlen m Hm Ha Hd.
    apply (take_filter_all _ 3 meetings m Hlen Hm).
    rewrite Ha. simpl. now apply ge_true.
  - intros m Hm. apply Hin in Hm as [_ (t & Ht & _)]. rewrite Ht. discriminate.
Qed.

(** X7. The active and the archived meetings split the list: every
    meeting is in exactly one of the two, each keeps the order of the
    input, and the two counts shown on the tabs add up to the number of
    meetings. *)
Theorem active_and_archived_split (meetings : list Meeting) :
  (forall m, In m meetings
             <-> In m (activeMeetings meetings) \/ In m (archivedMeetings meetings))
  /\ (forall m, ~ (In m (activeMeetings meetings)
                   /\ In m (archivedMeetings meetings)))
  /\ activeMeetings meetings `sublist_of` meetings
  /\ archivedMeetings meetings `sublist_of` meetings
  /\ (length (activeMeetings meetings) + length (archivedMeetings meetings)
      = length meetings)%nat.
Proof.
  unfold activeMeetings, archivedMeetings.
  refine (conj _ (conj _ (conj _ (conj _ _)))).
  - intros m. rewrite !filter_In. destruct (is_archived m); simpl; intuition discriminate.
  - intros m. rewrite !filter_In. destruct (is_archived m); simpl; intuition discriminate.
  - apply filter_sublist.
  - apply filter_sublist.
  - induction meetings as [|m l IH]; simpl; [reflexivity|].
    destruct (is_archived m); simpl; lia.
Qed.

End ProgressExtra.

(** ** The idea voting board: order and cache *)

Module BoardExtra.
Import JS IdeaVotingBoard Order Board VoteCache.

Lemma insert_in_front {A} (comparefn : A -> A -> number) (a : A) (l : list A) :
  (forall h, head l = Some h -> goes_after comparefn a h = false) ->
  insert comparefn a l = a :: l.
Proof.
  destruct l as [|h t]; simpl; [reflexivity|].
  intros H. now rewrite (H h eq_refl).
Qed.

Lemma sort_descending_fixed (l : list Idea) :
  descending voteCount l -> sort (compareIdeas "votes") l = l.
Proof.
  unfold descending. intros Hs.
  induction Hs as [|a l Hs IH Ha]; simpl; [reflexivity|].
  rewrite IH. apply insert_in_front.
  intros h Hh. destruct l as [|h' t]; [discriminate|].
  injection Hh as ->. apply Forall_cons in Ha as [Ha _].
  unfold goes_after, compareIdeas, voteCount in *. simpl in *.
  apply Z.ltb_ge. lia.
Qed.

(** X8. Sorting by votes a list that is already in descending order of
    votes, as the list that the page loads is, changes nothing; so sorting
    twice is sorting once. *)
Theorem sortedIdeas_by_votes_idempotent (ideas : list Idea) :
  (descending voteCount ideas -> sortedIdeas ideas "votes" = ideas)
  /\ sortedIdeas (sortedIdeas ideas "votes") "votes" = sortedIdeas ideas "votes".
Proof.
  split.
  - apply sort_descending_fixed.
  - apply sort_descending_fixed.
    apply (SortFacts.sort_descending _ voteCount BoardFacts.compareIdeas_votes).
    apply List.Forall_forall. intros i _. unfold voteCount. eauto.
Qed.

(** X9. Sorted by newest, a list in which every idea has a creation
    timestamp that the Date constructor reads comes out with the same
    ideas, the latest first, the ideas of one timestamp in input order. *)
Theorem sortedIdeas_newest_dated (ideas : list Idea) :
  Forall (fun i => is_Some (createdTime i)) ideas ->
  let sorted := sortedIdeas ideas "newest" in
  Permutation ideas sorted
  /\ descending createdTime sorted
  /\ (forall z, with_key createdTime z sorted = with_key createdTime z ideas).
Proof.
  intros Hdated. simpl. refine (conj _ (conj _ _)).
  - apply SortFacts.sort_Permutation.
  - now apply BoardFacts.sortedIdeas_newest_all_dated.
  - intros z.
    apply (SortFacts.sort_stable_reversed _ createdTime
             BoardFacts.compareIdeas_newest).
Qed.

Lemma sortedIdeas_newest_dated_witness :
  let ideas := [idea "B" 0 (Some "2024-01-01T09:30:00.123456+00:00"%string);
                idea "D" 0 (Some "2024-03-01T18:05:10+00:00"%string);
                idea "E" 0 (Some "2024-01-01T09:30:00.123456+00:00"%string);
                idea "F" 0 (Some "2024-02-10T08:00:00.500Z"%string)] in
  let sorted := sortedIdeas ideas "newest" in
  Permutation ideas sorted
  /\ descending createdTime sorted
  /\ (forall z, with_key createdTime z sorted = with_key createdTime z ideas).
Proof.
  apply (sortedIdeas_newest_dated
           [idea "B" 0 (Some "2024-01-01T09:30:00.123456+00:00"%string);
            idea "D" 0 (Some "2024-03-01T18:05:10+00:00"%string);
            idea "E" 0 (Some "2024-01-01T09:30:00.123456+00:00"%string);
            idea "F" 0 (Some "2024-02-10T08:00:00.500Z"%string)]).
  repeat constructor; vm_compute; eauto.
Defined.

Example newest_first :
  map id (sortedIdeas
            [idea "B" 0 (Some "2024-01-01T09:30:00.123456+00:00"%string);
             idea "D" 0 (Some "2024-03-01T18:05:10+00:00"%string);
             idea "E" 0 (Some "2024-01-01T09:30:00.123456+00:00"%string);
             idea "F" 0 (Some "2024-02-10T08:00:00.500Z"%string)] "newest")
  = ["D"; "F"; "B"; "E"]%string.
Proof. reflexivity. Qed.

(** The Date constructor on timestamps as the store returns them, on a time
    in another zone, and on what it does not read. *)
Example timestamps_read :
  newDate "2024-01-01T09:30:00.123456+00:00" = Some 1704101400123
  /\ newDate "2024-02-10T08:00:00.500Z" = Some 1707552000500
  /\ newDate "2024-06-10T12:00:00+02:00" = Some 1718013600000
  /\ newDate "2024-06-10T24:00:00Z" = newDate "2024-06-11"
  /\ newDate "2024-02-30" = newDate "2024-03-01"
  /\ newDate "" = NaN
  /\ newDate "20240610" = NaN.
Proof. vm_compute. repeat split. Qed.

(** The groups of the index, one reducer step at a time. *)
Lemma addVote_lookup (acc : gmap string (list IdeaVote)) v ideaId :
  addVote acc v !! ideaId
  = if String.eqb (idea_id v) ideaId
    then Some (default [] (acc !! ideaId) ++ [v])
    else acc !! ideaId.
Proof.
  unfold addVote. destruct (String.eqb_spec (idea_id v) ideaId) as [<-|Hne].
  - destruct (acc !! idea_id v) as [g|] eqn:E; now rewrite lookup_insert_eq.
  - destruct (acc !! idea_id v) as [g|] eqn:E; now rewrite lookup_insert_ne.
Qed.

(** X10. The index built from the fetched votes: under each idea, the
    votes for that idea, all of them and in the order fetched; an idea
    without a vote has no entry, so no group is empty. *)
Theorem votesByIdea_lookup (data : list IdeaVote) (ideaId : string) :
  votesByIdea data !! ideaId
  = match List.filter (fun v => String.eqb (idea_id v) ideaId) data with
    | [] => None
    | group => Some group
    end.
Proof.
  unfold votesByIdea.
  induction data as [|v data IH] using rev_ind; [reflexivity|].
  rewrite fold_left_app. simpl. rewrite addVote_lookup, IH.
  rewrite List.filter_app. simpl.
  destruct (String.eqb (idea_id v) ideaId).
  - destruct (List.filter _ data) as [|v' g]; reflexivity.
  - now rewrite app_nil_r.
Qed.

Lemma selectUserVotes_In ideas userId rows v :
  In v (selectUserVotes ideas userId rows)
  <-> In v rows /\ user_id v = userId
      /\ exists i, In i ideas /\ id i = idea_id v.
Proof.
  unfold selectUserVotes. rewrite filter_In, andb_true_iff, existsb_exists.
  rewrite String.eqb_eq. split.
  - intros (Hin & Hu & i & Hi & He). apply String.eqb_eq in He. eauto 6.
  - intros (Hin & Hu & i & Hi & He). repeat split; try assumption.
    exists i. split; [exact Hi|]. now apply String.eqb_eq.
Qed.

Lemma hasVoted_fetched ideas userId rows ideaId kind :
  hasVoted (votesByIdea (selectUserVotes ideas userId rows)) ideaId kind = true
  <-> (exists i, In i ideas /\ id i = ideaId)
      /\ exists v, In v rows /\ user_id v = userId
                   /\ idea_id v = ideaId /\ vote_type v = kind.
Proof.
  rewrite BoardFacts.hasVoted_votesByIdea, existsb_exists. split.
  - intros (v & Hv & H). apply andb_prop in H as [Hi Hk].
    apply String.eqb_eq in Hi. apply BoardFacts.VoteType_eqb_eq in Hk.
    apply selectUserVotes_In in Hv as (Hin & Hu & i & Hii & He).
    split; [exists i; split; congruence|]. exists v. auto.
  - intros ((i & Hi & He) & v & Hin & Hu & Hv & Hk).
    exists v. split.
    + apply selectUserVotes_In. repeat split; try assumption.
      exists i. split; congruence.
    + apply andb_true_intro. split.
      * now apply String.eqb_eq.
      * now apply BoardFacts.VoteType_eqb_eq.
Qed.

(** X11. Loading the votes of the user.  With no ideas on the board, or
    when the query fails, the cache is left as it was.  Otherwise the new
    cache says that the user has voted on an idea with a kind exactly when
    the idea is on the board and the table holds a vote of this user, for
    this idea and of this kind. *)
Theorem fetchUserVotes_spec (error : bool) (ideas : list Idea)
    (userId : string) (rows : list IdeaVote)
    (userVotes : gmap string (list IdeaVote)) :
  let fetched := fetchUserVotes error ideas userId rows userVotes in
  (ideas = [] -> fetched = userVotes)
  /\ (error = true -> fetched = userVotes)
  /\ (ideas <> [] -> error = false ->
      forall ideaId kind,
        hasVoted fetched ideaId kind = true
        <-> (exists i, In i ideas /\ id i = ideaId)
            /\ exists v, In v rows /\ user_id v = userId
                         /\ idea_id v = ideaId /\ vote_type v = kind).
Proof.
  simpl. unfold fetchUserVotes. refine (conj _ (conj _ _)).
  - now intros ->.
  - intros ->. now destruct (length ideas =? 0)%nat.
  - intros Hne -> ideaId kind.
    destruct ideas as [|i ideas']; [contradiction|].
    cbn [length Nat.eqb]. apply hasVoted_fetched.
Qed.

(** X12. Vote, reload, vote again.  After a vote that the store has taken
    for an idea of the board, once the votes of the user are loaded again
    for a board that still lists the idea, the same vote is answered with
    "Already voted" and changes nothing in the store. *)
Theorem repeated_vote_is_rejected_after_reload
    (rejects : Request -> bool) (gen_id : list IdeaVote -> string)
    (ideas ideas' : list Idea) (userVotes : gmap string (list IdeaVote))
    (userId ideaId : string) (kind : VoteType) (w : World) :
  hasVoted userVotes ideaId kind = false ->
  rejects (InsertVote ideaId userId kind) = false ->
  (exists i, In i ideas' /\ id i = ideaId) ->
  let w1 := (handleVote rejects gen_id ideas userVotes userId ideaId kind w).2 in
  let reloaded :=
    fetchUserVotes false ideas' userId (idea_votes (backend w1)) userVotes in
  handleVote rejects gen_id ideas' reloaded userId ideaId kind w1
  = (Returned tt, notified (AlreadyVoted kind) w1).
Proof.
  intros Hv Hins Hlisted w1 reloaded.
  assert (Hrow : In (vote (gen_id (idea_votes (backend w))) ideaId userId kind)
                    (idea_votes (backend w1))).
  { unfold w1.
    rewrite (BoardFacts.handleVote_cases rejects gen_id ideas userVotes
               userId ideaId kind w).
    rewrite Hv. cbv zeta. unfold sent. rewrite Hins.
    destruct (find _ ideas) as [cur|]; simpl.
    - destruct (rejects (UpdateVotes _ _)); simpl;
        apply in_or_app; right; now left.
    - apply in_or_app; right; now left. }
  assert (Hre : hasVoted reloaded ideaId kind = true).
  { unfold reloaded, fetchUserVotes.
    destruct Hlisted as (i & Hi & He).
    destruct ideas' as [|i0 rest]; [contradiction|].
    cbn [length Nat.eqb]. apply hasVoted_fetched. split; [eauto|].
    eexists. split; [exact Hrow|]. simpl. auto. }
  rewrite (BoardFacts.handleVote_cases rejects gen_id ideas' reloaded
             userId ideaId kind w1).
  now rewrite Hre.
Qed.

Lemma repeated_vote_is_rejected_after_reload_witness :
  let w := world [] [idea "A" 10 None] in
  let w1 := (handleVote accepts_all next_id [idea "A" 10 None] ∅ "u" "A"
               upvote w).2 in
  let reloaded :=
    fetchUserVotes false [idea "A" 11 None] "u" (idea_votes (backend w1)) ∅ in
  handleVote accepts_all next_id [idea "A" 11 None] reloaded "u" "A" upvote w1
  = (Returned tt, notified (AlreadyVoted upvote) w1).
Proof.
  apply (repeated_vote_is_rejected_after_reload accepts_all next_id
           [idea "A" 10 None] [idea "A" 11 None] ∅ "u" "A" upvote
           (world [] [idea "A" 10 None])).
  - reflexivity.
  - reflexivity.
  - exists (idea "A" 11 None). split; [now left|reflexivity].
Defined.

End BoardExtra.

(** ** Settings: the theme *)

Module ThemeFacts.
Import JS Theme.

Lemma savedOrSystem_stored prefersDark (storage : gmap string string) b :
  storage !! "darkMode"%string = Some (boolToString b) ->
  savedOrSystem prefersDark storage = b.
Proof.
  unfold savedOrSystem. intros ->. destruct b; reflexivity.
Qed.

Lemma updateTheme_dark isDark (classes : gset string) :
  "dark"%string ∈ updateTheme isDark classes <-> isDark = true.
Proof.
  unfold updateTheme. destruct isDark; set_solver.
Qed.

Lemma updateTheme_other isDark (classes : gset string) (c : string) :
  c <> "dark"%string -> c ∈ updateTheme isDark classes <-> c ∈ classes.
Proof.
  unfold updateTheme. destruct isDark; set_solver.
Qed.

Lemma step_keeps_stored_choice p e :
  stored_choice_agrees p -> stored_choice_agrees (step p e).
Proof.
  unfold stored_choice_agrees. intros H. destruct e as [prefersDark|]; simpl.
  - rewrite H. f_equal. f_equal. symmetry. now apply savedOrSystem_stored.
  - apply lookup_insert_eq.
Qed.

Lemma run_keeps_stored_choice events p :
  stored_choice_agrees p -> stored_choice_agrees (run events p).
Proof.
  unfold run. revert p.
  induction events as [|e events IH]; intros p H; simpl; [exact H|].
  apply IH, step_keeps_stored_choice, H.
Qed.

(** X13. The choice made with the switch is kept.  A click stores the new
    mode, and whatever the page goes through afterwards (more first
    renders, whatever the system then prefers, more clicks), the stored
    value is the mode shown; a first render right after a click shows the
    mode the click chose.  Without a stored value, or with an empty one, a
    first render follows the system; with any other stored value it shows
    dark only for "true". *)
Theorem theme_choice_is_kept (p : Page) (prefersDark : bool)
    (events : list Event) :
  darkMode (mount prefersDark (toggleDarkMode p)) = negb (darkMode p)
  /\ (let q := run (Toggled :: events) p in
      localStorage q !! "darkMode"%string = Some (boolToString (darkMode q)))
  /\ (truthy (localStorage p !! "darkMode"%string) = false ->
      darkMode (mount prefersDark p) = prefersDark)
  /\ (forall s, localStorage p !! "darkMode"%string = Some s -> s <> ""%string ->
      darkMode (mount prefersDark p) = String.eqb s "true").
Proof.
  refine (conj _ (conj _ (conj _ _))).
  - simpl. apply savedOrSystem_stored, lookup_insert_eq.
  - simpl. apply run_keeps_stored_choice. apply lookup_insert_eq.
  - simpl. unfold savedOrSystem, truthy.
    destruct (localStorage p !! "darkMode"%string) as [s|]; [|now intros _].
    destruct (String.eqb_spec s ""); [subst; now intros _|discriminate].
  - intros s Hs Hne. simpl. unfold savedOrSystem, truthy. rewrite Hs.
    destruct (String.eqb_spec s ""); [contradiction|]. simpl.
    apply orb_false_r.
Qed.

(** X14. After every first render and every click, the root element has
    the class "dark" exactly when the switch is on; no other class and no
    other key of the local storage is ever touched. *)
Theorem theme_class_follows_switch (p : Page) (e : Event) (events : list Event) :
  let q := run (events ++ [e]) p in
  ("dark"%string ∈ classList q <-> darkMode q = true)
  /\ (forall c, c <> "dark"%string -> c ∈ classList q <-> c ∈ classList p)
  /\ (forall k, k <> "darkMode"%string ->
        localStorage q !! k = localStorage p !! k).
Proof.
  simpl. unfold run. rewrite fold_left_app. simpl.
  fold (run events p).
  assert (Hframe : forall evs (r : Page),
            (forall c, c <> "dark"%string ->
                       c ∈ classList (run evs r) <-> c ∈ classList r)
            /\ (forall k, k <> "darkMode"%string ->
                  localStorage (run evs r) !! k = localStorage r !! k)).
  { unfold run. induction evs as [|e' evs IH]; intros r; simpl.
    - split; reflexivity.
    - destruct (IH (step r e')) as [Hc Hk]. split.
      + intros c Hne. rewrite (Hc c Hne).
        destruct e'; simpl; now apply updateTheme_other.
      + intros k Hne. rewrite (Hk k Hne).
        destruct e'; simpl; [reflexivity|]. now apply lookup_insert_ne. }
  refine (conj _ (conj _ _)).
  - destruct e; simpl; apply updateTheme_dark.
  - intros c Hne. destruct (Hframe events p) as [Hc _].
    rewrite <- (Hc c Hne). destruct e; simpl; now apply updateTheme_other.
  - intros k Hne. destruct (Hframe events p) as [_ Hk].
    rewrite <- (Hk k Hne). destruct e; simpl; [reflexivity|].
    now apply lookup_insert_ne.
Qed.

End ThemeFacts.

(** ** UpcomingMeetings: the agenda of the form *)

Module AgendaFacts.
Import JS UpcomingMeetings MeetingForm.

Lemma split_nonempty text : split text <> [].
Proof.
  destruct text as [|c rest]; simpl; [discriminate|].
  destruct (Ascii.eqb c newline); [discriminate|].
  destruct (split rest); discriminate.
Qed.

Lemma split_oneLine text : Forall (fun piece => oneLine piece = true) (split text).
Proof.
  induction text as [|c rest IH]; simpl.
  - repeat constructor.
  - destruct (Ascii.eqb c newline) eqn:E.
    + constructor; [reflexivity|exact IH].
    + destruct (split rest) as [|piece pieces].
      * repeat constructor. simpl. now rewrite E.
      * apply Forall_cons in IH as [Hp Hps].
        constructor; [|exact Hps]. simpl. now rewrite E.
Qed.

Lemma split_single item : oneLine item = true -> split item = [item].
Proof.
  induction item as [|c rest IH]; simpl; [reflexivity|].
  intros H. apply andb_prop in H as [Hc Hr].
  apply negb_true_iff in Hc. rewrite Hc, (IH Hr). reflexivity.
Qed.

Lemma split_append item text :
  oneLine item = true ->
  split (item ++ String newline text) = item :: split text.
Proof.
  induction item as [|c rest IH]; simpl.
  - reflexivity.
  - intros H. apply andb_prop in H as [Hc Hr].
    apply negb_true_iff in Hc. rewrite Hc, (IH Hr). reflexivity.
Qed.

Lemma split_join items :
  items <> [] -> Forall (fun item => oneLine item = true) items ->
  split (join items) = items.
Proof.
  induction items as [|item rest IH]; [contradiction|].
  intros _ H. apply Forall_cons in H as [Hi Hr].
  destruct rest as [|item' rest'].
  - simpl. now apply split_single.
  - change (join (item :: item' :: rest'))
      with (item ++ String newline (join (item' :: rest')))%string.
    rewrite split_append by exact Hi. f_equal. now apply IH.
Qed.

Section Trim.
Variable isWhiteSpace : ascii -> bool.

Lemma trimStart_idempotent s :
  trimStart isWhiteSpace (trimStart isWhiteSpace s) = trimStart isWhiteSpace s.
Proof.
  induction s as [|c rest IH]; simpl; [reflexivity|].
  destruct (isWhiteSpace c) eqn:E; [exact IH|]. simpl. now rewrite E.
Qed.

Lemma trimEnd_cons c rest :
  trimEnd isWhiteSpace (String c rest)
  = match trimEnd isWhiteSpace rest with
    | EmptyString => if isWhiteSpace c then EmptyString else String c EmptyString
    | kept => String c kept
    end.
Proof. reflexivity. Qed.

Lemma trimEnd_idempotent s :
  trimEnd isWhiteSpace (trimEnd isWhiteSpace s) = trimEnd isWhiteSpace s.
Proof.
  induction s as [|c rest IH]; [reflexivity|].
  rewrite trimEnd_cons.
  destruct (trimEnd isWhiteSpace rest) as [|c' kept] eqn:E.
  - destruct (isWhiteSpace c) eqn:Ec; [reflexivity|].
    rewrite trimEnd_cons. simpl. now rewrite Ec.
  - rewrite trimEnd_cons, IH. reflexivity.
Qed.

Lemma trimStart_keeps_end s :
  trimEnd isWhiteSpace s = s ->
  trimEnd isWhiteSpace (trimStart isWhiteSpace s) = trimStart isWhiteSpace s.
Proof.
  induction s as [|c rest IH]; [reflexivity|].
  intros H. cbn [trimStart]. destruct (isWhiteSpace c) eqn:Ec; [|exact H].
  apply IH. rewrite trimEnd_cons in H.
  destruct (trimEnd isWhiteSpace rest) as [|c' kept] eqn:E.
  - rewrite Ec in H. discriminate.
  - now injection H.
Qed.

Lemma trim_idempotent s :
  trim isWhiteSpace (trim isWhiteSpace s) = trim isWhiteSpace s.
Proof.
  unfold trim.
  rewrite (trimStart_keeps_end _ (trimEnd_idempotent s)).
  apply trimStart_idempotent.
Qed.

Lemma trimStart_oneLine s :
  oneLine s = true -> oneLine (trimStart isWhiteSpace s) = true.
Proof.
  induction s as [|c rest IH]; simpl; [reflexivity|].
  intros H. destruct (isWhiteSpace c); [|exact H].
  apply andb_prop in H as [_ Hr]. now apply IH.
Qed.

Lemma trimEnd_oneLine s :
  oneLine s = true -> oneLine (trimEnd isWhiteSpace s) = true.
Proof.
  induction s as [|c rest IH]; simpl; [reflexivity|].
  intros H. apply andb_prop in H as [Hc Hr]. specialize (IH Hr).
  destruct (trimEnd isWhiteSpace rest) as [|c' kept].
  - destruct (isWhiteSpace c); [reflexivity|]. simpl. now rewrite Hc.
  - simpl in *. now rewrite Hc, IH.
Qed.

Lemma nonempty_length s : (0 <? String.length s)%nat = true <-> s <> EmptyString.
Proof.
  destruct s as [|c rest]; simpl; split; intros H.
  - discriminate H.
  - now contradiction H.
  - discriminate.
  - reflexivity.
Qed.

Lemma agendaArray_tidy text :
  Forall (tidy isWhiteSpace) (agendaArray isWhiteSpace text).
Proof.
  unfold agendaArray. apply List.Forall_forall. intros item H.
  apply filter_In in H as [H Hlen]. apply in_map_iff in H as (piece & <- & Hp).
  pose proof (split_oneLine text) as Hone.
  rewrite List.Forall_forall in Hone. specialize (Hone piece Hp).
  repeat split.
  - apply trim_idempotent.
  - now apply nonempty_length.
  - unfold trim. now apply trimStart_oneLine, trimEnd_oneLine.
Qed.

Lemma agendaArray_join items :
  Forall (tidy isWhiteSpace) items ->
  agendaArray isWhiteSpace (join items) = items.
Proof.
  intros H. unfold agendaArray.
  destruct items as [|item rest]; [reflexivity|].
  rewrite split_join.
  - induction H as [|i l (Ht & Hne & _) Hl IH]; [reflexivity|].
    cbn [map List.filter]. rewrite Ht.
    apply nonempty_length in Hne. rewrite Hne. f_equal. exact IH.
  - discriminate.
  - eapply Forall_impl; [exact H|]. now intros i (_ & _ & Hi).
Qed.

(** X15. Every agenda item that the meeting form sends to the store is
    not empty, has no white space left at either end and no line feed
    inside; blank lines of the text are dropped. *)
Theorem agenda_items_are_tidy (agenda_items : string) :
  Forall (tidy isWhiteSpace) (agendaArray isWhiteSpace agenda_items)
  /\ (length (agendaArray isWhiteSpace agenda_items)
      <= length (split agenda_items))%nat
  /\ agendaArray isWhiteSpace "" = [].
Proof.
  refine (conj (agendaArray_tidy _) (conj _ _)).
  - unfold agendaArray.
    etransitivity; [apply List.filter_length_le|]. now rewrite length_map.
  - reflexivity.
Qed.

(** X16. Editing a meeting and saving it with the agenda untouched stores
    the agenda it had: the text that [handleEdit] builds from tidy items is
    read back by the form as the same items, in the same order.  In
    particular what the form has stored once it stores again. *)
Theorem agenda_survives_edit (m : Meeting) (text : string) :
  (Forall (tidy isWhiteSpace) (agenda_items m) ->
   agendaArray isWhiteSpace (agendaText m) = agenda_items m)
  /\ agendaArray isWhiteSpace (join (agendaArray isWhiteSpace text))
     = agendaArray isWhiteSpace text.
Proof.
  split.
  - apply agendaArray_join.
  - apply agendaArray_join, agendaArray_tidy.
Qed.
End Trim.

Example agenda_of_text :
  agendaArray asciiWhiteSpace
    (String "a" (String newline (String " " (String newline
       (String " " (String "b" (String " " EmptyString)))))))
  = ["a"; "b"]%string.
Proof. reflexivity. Qed.

End AgendaFacts.

(** ** The due date of a new action item, written and read back *)

Module DateFormatFacts.
Import JS DateFns Calendar DateFormat.

(** In this module [lia] reads [x / c] and [x mod c] through the equations
    of Euclidean division. *)
Ltac Zify.zify_post_hook ::= Z.to_euclidean_division_equations.

(** [civilFromDays] yields a date of the calendar, and [daysFromCivil]
    takes it back to the day number. *)
Lemma civilFromDays_inverse (n : Z) :
  let '(y, m, d) := civilFromDays n in
  daysFromCivil y m d = n /\ 1 <= m <= 12 /\ 1 <= d.
Proof.
  unfold civilFromDays, daysFromCivil.
  set (z := n + 719468).
  set (era := z / 146097).
  set (doe := z - era * 146097).
  assert (Hdoe : 0 <= doe < 146097) by (unfold doe, era; lia).
  set (yoe := (doe - doe / 1460 + doe / 36524 - doe / 146096) / 365).
  set (doy := doe - (365 * yoe + yoe / 4 - yoe / 100)).
  assert (Hy : 0 <= yoe <= 399 /\ 0 <= doy <= 365)
    by (unfold doy, yoe; lia).
  set (mp := (5 * doy + 2) / 153).
  assert (Hmp : 0 <= mp <= 11) by (unfold mp; lia).
  set (d := doy - (153 * mp + 2) / 5 + 1).
  assert (Hd : 1 <= d) by (unfold d, mp; lia).
  cbv zeta.
  destruct (Z.ltb_spec mp 10).
  - destruct (Z.leb_spec (mp + 3) 2); [lia|].
    destruct (Z.ltb_spec 2 (mp + 3)); [|lia].
    replace (mp + 3 - 3) with mp by lia.
    replace ((yoe + era * 400) / 400) with era by lia.
    split; [|lia]. unfold d. lia.
  - destruct (Z.leb_spec (mp - 9) 2); [|lia].
    destruct (Z.ltb_spec 2 (mp - 9)); [lia|].
    replace (mp - 9 + 9) with mp by lia.
    replace ((yoe + era * 400 + 1 - 1) / 400) with era by lia.
    split; [|lia]. unfold d. lia.
Qed.

Lemma civilFromDays_day (n : Z) :
  let '(y, m, d) := civilFromDays n in d <= daysInMonth y m.
Proof.
  unfold civilFromDays.
  set (z := n + 719468).
  set (era := z / 146097).
  set (doe := z - era * 146097).
  assert (Hdoe : 0 <= doe < 146097) by (unfold doe, era; lia).
  set (yoe := (doe - doe / 1460 + doe / 36524 - doe / 146096) / 365).
  set (doy := doe - (365 * yoe + yoe / 4 - yoe / 100)).
  assert (Hy : 0 <= yoe <= 399 /\ 0 <= doy <= 365) by (unfold doy, yoe; lia).
  set (mp := (5 * doy + 2) / 153).
  assert (Hmp : 0 <= mp <= 11) by (unfold mp; lia).
  set (d := doy - (153 * mp + 2) / 5 + 1).
  cbv zeta.
  assert (Hcases : mp = 0 \/ mp = 1 \/ mp = 2 \/ mp = 3 \/ mp = 4 \/ mp = 5
                   \/ mp = 6 \/ mp = 7 \/ mp = 8 \/ mp = 9 \/ mp = 10
                   \/ mp = 11) by lia.
  unfold daysInMonth, isLeapYear.
  destruct Hcases as [E|[E|[E|[E|[E|[E|[E|[E|[E|[E|[E|E]]]]]]]]]]];
    rewrite E; simpl (_ <? _); cbv iota; simpl (_ <=? _); simpl (_ =? _);
    cbv iota; cbn [orb andb negb]; cbv iota;
    try (unfold d, mp in *; lia).
  set (y := yoe + era * 400 + 1).
  destruct (Z.eqb_spec (y mod 4) 0), (Z.eqb_spec (y mod 100) 0),
    (Z.eqb_spec (y mod 400) 0); cbn [orb andb negb];
    unfold d, mp, y in *; clear Hy; unfold doy in *; lia.
Qed.

Lemma civilFromDays_year (n : Z) :
  firstDay <= n <= lastDay ->
  let '(y, m, d) := civilFromDays n in 1 <= y <= 9999.
Proof.
  unfold firstDay, lastDay, civilFromDays. intros Hn.
  set (z := n + 719468).
  set (era := z / 146097).
  set (doe := z - era * 146097).
  assert (Hdoe : 0 <= doe < 146097) by (unfold doe, era; lia).
  assert (Hera : 0 <= era <= 24) by (unfold era, z; lia).
  set (yoe := (doe - doe / 1460 + doe / 36524 - doe / 146096) / 365).
  set (doy := doe - (365 * yoe + yoe / 4 - yoe / 100)).
  assert (Hy : 0 <= yoe <= 399 /\ 0 <= doy <= 365) by (unfold doy, yoe; lia).
  set (mp := (5 * doy + 2) / 153).
  cbv zeta.
  destruct (Z.ltb_spec mp 10) as [Hmp|Hmp].
  - destruct (Z.leb_spec (mp + 3) 2); [unfold mp in *; lia|].
    unfold mp, doy, yoe, doe, era, z in *. lia.
  - destruct (Z.leb_spec (mp - 9) 2).
    + unfold mp, doy, yoe, doe, era, z in *. lia.
    + unfold mp, doy, yoe, doe, era, z in *. lia.
Qed.

Lemma below_all (P : Z -> bool) (n : Z) :
  forallb P (map Z.of_nat (seq 0 (Z.to_nat n))) = true ->
  forall z, 0 <= z < n -> P z = true.
Proof.
  intros H z Hz. rewrite forallb_forall in H. apply H.
  apply in_map_iff. exists (Z.to_nat z). split; [lia|].
  apply in_seq. lia.
Qed.

Lemma addLeadingZeros_4 y :
  0 <= y <= 9999 ->
  addLeadingZeros y 4
  = String (digitChar (y / 1000)) (String (digitChar (y / 100 mod 10))
      (String (digitChar (y / 10 mod 10)) (String (digitChar (y mod 10)) ""))).
Proof.
  intros Hy. apply String.eqb_eq.
  apply (below_all (fun y =>
           String.eqb (addLeadingZeros y 4)
             (String (digitChar (y / 1000)) (String (digitChar (y / 100 mod 10))
                (String (digitChar (y / 10 mod 10))
                   (String (digitChar (y mod 10)) ""))))) 10000).
  - vm_compute. reflexivity.
  - lia.
Qed.

Lemma addLeadingZeros_2 m :
  0 <= m <= 99 ->
  addLeadingZeros m 2
  = String (digitChar (m / 10)) (String (digitChar (m mod 10)) "").
Proof.
  intros Hm. apply String.eqb_eq.
  apply (below_all (fun m =>
           String.eqb (addLeadingZeros m 2)
             (String (digitChar (m / 10)) (String (digitChar (m mod 10)) "")))
           100).
  - vm_compute. reflexivity.
  - lia.
Qed.

Lemma digit_digitChar k : 0 <= k <= 9 -> digit (digitChar k) = Some k.
Proof.
  intros Hk.
  assert (H : (match digit (digitChar k) with
               | Some j => j =? k
               | None => false
               end) = true).
  { apply (below_all (fun k => match digit (digitChar k) with
                               | Some j => j =? k
                               | None => false
                               end) 10); [reflexivity|lia]. }
  destruct (digit (digitChar k)) as [j|]; [|discriminate].
  apply Z.eqb_eq in H. now subst.
Qed.

(** What [format] prints for a date of the years 1 to 9999,
    [parseCalendarDate] reads as the same day. *)
Lemma parse_printed y m d :
  1 <= y <= 9999 -> 1 <= m <= 12 -> 1 <= d <= daysInMonth y m ->
  parseCalendarDate (addLeadingZeros y 4 ++ "-" ++ addLeadingZeros m 2
                     ++ "-" ++ addLeadingZeros d 2)
  = Some (daysFromCivil y m d).
Proof.
  intros Hy Hm Hd. pose proof (DateFacts.daysInMonth_le_31 y m) as H31.
  rewrite addLeadingZeros_4, !addLeadingZeros_2 by lia.
  cbv [String.append parseCalendarDate].
  rewrite !digit_digitChar by lia. cbv beta iota zeta.
  replace (1000 * (y / 1000) + 100 * (y / 100 mod 10) + 10 * (y / 10 mod 10)
           + y mod 10) with y by lia.
  replace (10 * (m / 10) + m mod 10) with m by lia.
  replace (10 * (d / 10) + d mod 10) with d by lia.
  replace ((1 <=? m) && (m <=? 12) && (1 <=? d) && (d <=? daysInMonth y m))
    with true; [reflexivity|].
  symmetry. rewrite !andb_true_iff, !Z.leb_le. lia.
Qed.

Lemma format_parse tz t :
  firstDay <= localDay tz t <= lastDay ->
  exists s, format_yyyy_MM_dd tz (Some t) = Some s
            /\ parseCalendarDate s = Some (localDay tz t).
Proof.
  intros Hrange. unfold format_yyyy_MM_dd.
  pose proof (civilFromDays_inverse (localDay tz t)) as Hinv.
  pose proof (civilFromDays_day (localDay tz t)) as Hday.
  pose proof (civilFromDays_year (localDay tz t) Hrange) as Hyear.
  destruct (civilFromDays (localDay tz t)) as [[y m] d].
  destruct Hinv as (Hn & Hm & Hd).
  replace (0 <? y) with true by (symmetry; apply Z.ltb_lt; lia).
  eexists. split; [reflexivity|].
  rewrite parse_printed by lia. now rewrite Hn.
Qed.

(** X17. The due date of a new action item, written by the form and read
    back.  For a picked instant whose local date lies in the years 1 to
    9999, [format(date, 'yyyy-MM-dd')] prints a string that [parseISO]
    reads as the local midnight of the picked day and the Date constructor
    as midnight UTC of that day; so the summary counts the task as due
    today exactly on the picked day. *)
Theorem due_date_is_read_back (tz t : Z) :
  firstDay <= localDay tz t <= lastDay ->
  exists s,
    format_yyyy_MM_dd tz (Some t) = Some s
    /\ parseISO tz s = startOfDay tz (Some t)
    /\ newDate s = Some (localDay tz t * msPerDay)
    /\ (forall now, isToday tz now (parseISO tz s)
                    = (localDay tz t =? localDay tz now))
    /\ (forall now, isTomorrow tz now (parseISO tz s)
                    = (localDay tz t =? localDay tz now + 1)).
Proof.
  intros Hrange. destruct (format_parse tz t Hrange) as (s & Hs & Hp).
  exists s. refine (conj Hs (conj _ (conj _ (conj _ _)))).
  - rewrite CalendarFacts.startOfDay_localDay.
    apply (DateFacts.parseISO_calendar tz _ _ Hp).
  - apply (DateFacts.newDate_calendar _ _ Hp).
  - intros now. rewrite CalendarFacts.isToday_parseISO.
    now rewrite (DateFacts.parseDay_calendar _ _ Hp).
  - intros now. rewrite CalendarFacts.isTomorrow_parseISO.
    now rewrite (DateFacts.parseDay_calendar _ _ Hp).
Qed.

Lemma due_date_is_read_back_witness :
  exists s,
    format_yyyy_MM_dd 0 (Some 1718013600000) = Some s
    /\ parseISO 0 s = startOfDay 0 (Some 1718013600000)
    /\ newDate s = Some (localDay 0 1718013600000 * msPerDay)
    /\ (forall now, isToday 0 now (parseISO 0 s)
                    = (localDay 0 1718013600000 =? localDay 0 now))
    /\ (forall now, isTomorrow 0 now (parseISO 0 s)
                    = (localDay 0 1718013600000 =? localDay 0 now + 1)).
Proof.
  apply (due_date_is_read_back 0 1718013600000).
  vm_compute. split; discriminate.
Defined.

Example format_of_the_tenth_of_june :
  format_yyyy_MM_dd 0 (Some 1718013600000) = Some "2024-06-10"%string.
Proof. reflexivity. Qed.

Ltac Zify.zify_post_hook ::= idtac.

End DateFormatFacts.

(** ** The handlers that write to the store *)

Module HandlerFacts.
Import JS Store.

Lemma setStatus_same (item : ActionItem) :
  setStatus (ProgressSummary.status item) item = item.
Proof. now destruct item. Qed.

Lemma newStatusOf_twice (s : Status) :
  ActionItems.newStatusOf (ActionItems.newStatusOf s) = s.
Proof. now destruct s. Qed.

Section Handlers.
Variable rejects : Request -> bool.
Variable new_item : string -> string -> string -> field -> Database -> ActionItem.

(** *** ActionItems.toggleStatus *)

Lemma toggleStatus_cases id s (w : World ActionItems.State) :
  ActionItems.toggleStatus rejects new_item id s w
  = let r := UpdateStatus id (ActionItems.newStatusOf s) in
    if rejects r
    then (Returned tt,
          shown (failure "Failed to update task status")
                (after rejects new_item r w))
    else (Returned tt,
          refreshed
            (shown (success ("Task marked as "
                             ++ ActionItems.statusText (ActionItems.newStatusOf s)))
                   (after rejects new_item r w))).
Proof.
  unfold ActionItems.toggleStatus, try_catch, bind, send, throw_if, throw,
    ret, toast, onUpdate, shown, refreshed, after.
  cbv zeta. destruct (rejects (UpdateStatus id _)); reflexivity.
Qed.

Lemma toggled_back id s (items : list ActionItem) :
  Forall (fun item => ProgressSummary.id item = id ->
                      ProgressSummary.status item = s) items ->
  map (fun item => if String.eqb (ProgressSummary.id item) id
                   then setStatus s item else item)
      (map (fun item => if String.eqb (ProgressSummary.id item) id
                        then setStatus (ActionItems.newStatusOf s) item else item)
           items)
  = items.
Proof.
  intros H. induction H as [|item items Hitem _ IH]; [reflexivity|].
  cbn [map]. rewrite IH. f_equal.
  destruct (String.eqb_spec (ProgressSummary.id item) id) as [E|E].
  - cbn. rewrite E, String.eqb_refl. rewrite <- (Hitem E). now destruct item.
  - destruct (String.eqb_spec (ProgressSummary.id item) id); [contradiction|].
    reflexivity.
Qed.

(** X18. Ticking a task and ticking it again.  A click on the box of a
    task sends one update of the status.  When the store takes the
    updates, a second click, made on the status that the first one set,
    brings every table back to what it was.  A click that the store
    refuses changes no table; it reports the failure and does not ask for
    a refresh. *)
Theorem toggleStatus_twice (id : string) (s : Status)
    (w : World ActionItems.State) :
  let w1 := (ActionItems.toggleStatus rejects new_item id s w).2 in
  let w2 := (ActionItems.toggleStatus rejects new_item id
               (ActionItems.newStatusOf s) w1).2 in
  ((forall newStatus, rejects (UpdateStatus id newStatus) = false) ->
   Forall (fun item => ProgressSummary.id item = id ->
                       ProgressSummary.status item = s)
          (action_items (db w)) ->
   db w2 = db w
   /\ sent w2 = sent w ++ [UpdateStatus id (ActionItems.newStatusOf s);
                           UpdateStatus id s]
   /\ updates w2 = S (S (updates w)))
  /\ (rejects (UpdateStatus id (ActionItems.newStatusOf s)) = true ->
      db w1 = db w
      /\ toasts w1 = toasts w ++ [failure "Failed to update task status"]
      /\ updates w1 = updates w).
Proof.
  intros w1 w2. unfold w2, w1. split.
  - intros Hacc Hrows.
    rewrite !toggleStatus_cases. cbv zeta.
    rewrite !Hacc. cbn [snd]. rewrite newStatusOf_twice.
    unfold refreshed, shown, after. cbn [db sent toasts updates ui].
    rewrite !Hacc. refine (conj _ (conj _ _)).
    + destruct (db w) as [ms items ideas votes]. cbn in *.
      f_equal. now apply toggled_back.
    + now rewrite <- app_assoc.
    + reflexivity.
  - intros Hrej. rewrite toggleStatus_cases. cbv zeta. rewrite Hrej.
    unfold shown, after. cbn. now rewrite Hrej.
Qed.

Lemma untouched_rows id s (items : list ActionItem) :
  ~ In id (map ProgressSummary.id items) ->
  map (fun item => if String.eqb (ProgressSummary.id item) id
                   then setStatus s item else item) items
  = items.
Proof.
  induction items as [|a l IH]; [reflexivity|].
  intros H. cbn [map]. rewrite IH by (intros Hin; apply H; now right).
  destruct (String.eqb_spec (ProgressSummary.id a) id) as [E|E]; [|reflexivity].
  exfalso. apply H. now left.
Qed.

Lemma completedTasks_cons (a : ActionItem) (l : list ActionItem) :
  Z.of_nat (ProgressSummary.completedTasks (a :: l))
  = Z.of_nat (ProgressSummary.completedTasks l)
    + match ProgressSummary.status a with
      | ProgressSummary.Done => 1
      | ProgressSummary.ToDo => 0
      end.
Proof.
  unfold ProgressSummary.completedTasks. cbn [List.filter].
  destruct (ProgressSummary.status a); cbn [ProgressSummary.Status_eqb length]; lia.
Qed.

Lemma completed_after_toggle id (item : ActionItem) (items : list ActionItem) :
  List.NoDup (map ProgressSummary.id items) ->
  In item items -> ProgressSummary.id item = id ->
  Z.of_nat (ProgressSummary.completedTasks
              (map (fun i => if String.eqb (ProgressSummary.id i) id
                             then setStatus (ActionItems.newStatusOf
                                               (ProgressSummary.status item)) i
                             else i) items))
  = Z.of_nat (ProgressSummary.completedTasks items)
    + match ProgressSummary.status item with
      | ProgressSummary.ToDo => 1
      | ProgressSummary.Done => -1
      end.
Proof.
  intros Hnd Hin Hid. induction items as [|a l IH]; [contradiction|].
  cbn [map] in Hnd. apply List.NoDup_cons_iff in Hnd as [Hfresh Hnd].
  cbn [map]. destruct (String.eqb_spec (ProgressSummary.id a) id) as [E|E].
  - assert (a = item) as ->.
    { destruct Hin as [Ha|Hl]; [exact Ha|]. exfalso. apply Hfresh.
      rewrite E, <- Hid. now apply in_map. }
    rewrite untouched_rows by (rewrite <- Hid; exact Hfresh).
    rewrite !completedTasks_cons.
    destruct (ProgressSummary.status item); cbn; lia.
  - destruct Hin as [Ha|Hl]; [congruence|].
    rewrite !completedTasks_cons, (IH Hnd Hl). lia.
Qed.

(** X19. Ticking a task moves it, and only it, between the two bars of the
    summary.  When the identifiers of the action items are distinct and
    the store takes the update, a click on the box of a task leaves the
    number of tasks as it is and changes the number of completed tasks by
    one: up for an open task, down for a done one. *)
Theorem toggleStatus_moves_one_task (item : ActionItem)
    (w : World ActionItems.State) :
  let id := ProgressSummary.id item in
  let s := ProgressSummary.status item in
  rejects (UpdateStatus id (ActionItems.newStatusOf s)) = false ->
  List.NoDup (map ProgressSummary.id (action_items (db w))) ->
  In item (action_items (db w)) ->
  let items' :=
    action_items (db (ActionItems.toggleStatus rejects new_item id s w).2) in
  ProgressSummary.totalTasks items'
  = ProgressSummary.totalTasks (action_items (db w))
  /\ Z.of_nat (ProgressSummary.completedTasks items')
     = Z.of_nat (ProgressSummary.completedTasks (action_items (db w)))
       + match s with
         | ProgressSummary.ToDo => 1
         | ProgressSummary.Done => -1
         end.
Proof.
  intros id s Hacc Hnd Hin items'. unfold items'.
  rewrite toggleStatus_cases. cbv zeta. rewrite Hacc.
  unfold refreshed, shown, after. cbn [snd db]. rewrite Hacc.
  cbn [apply_request action_items]. split.
  - unfold ProgressSummary.totalTasks. apply length_map.
  - now apply completed_after_toggle.
Qed.

(** *** IdeaVotingBoard.handleDeleteIdea *)

Lemma handleDeleteIdea_cases (w : World IdeaDeletion.State) :
  IdeaDeletion.handleDeleteIdea rejects new_item w
  = match IdeaDeletion.selectedIdea (ui w) with
    | None => (Returned tt, w)
    | Some selected =>
        let r1 := DeleteVotesOfIdea (IdeaVotingBoard.id selected) in
        let r2 := DeleteIdea (IdeaVotingBoard.id selected) in
        let w1 := after rejects new_item r1 w in
        let w2 := after rejects new_item r2 w1 in
        if rejects r1
        then (Returned tt, shown (failure "Failed to delete idea") w1)
        else if rejects r2
        then (Returned tt, shown (failure "Failed to delete idea") w2)
        else (Returned tt,
              refreshed
                (with_ui {| IdeaDeletion.selectedIdea := None;
                            IdeaDeletion.isDeleteDialogOpen := false |}
                         (shown (success "Idea deleted successfully") w2)))
    end.
Proof.
  unfold IdeaDeletion.handleDeleteIdea, bind, getState.
  destruct (IdeaDeletion.selectedIdea (ui w)) as [selected|]; [|reflexivity].
  unfold try_catch, bind, send, throw_if, throw, ret, toast, onUpdate,
    setState, shown, refreshed, with_ui, after.
  cbv zeta. destruct (rejects (DeleteVotesOfIdea _)); [reflexivity|].
  cbn. destruct (rejects (DeleteIdea _)); reflexivity.
Qed.

(** X20. Deleting the selected idea, when the store takes both requests:
    the votes for the idea go first, then the idea; what is left are the
    other ideas and the votes for them, in their order; the meetings and
    the action items are as before; the dialog is closed, the selection
    cleared and a refresh asked for.  A cache of votes loaded afterwards
    holds no vote for the idea. *)
Theorem idea_is_deleted_with_its_votes (selected : Idea)
    (w : World IdeaDeletion.State) :
  IdeaDeletion.selectedIdea (ui w) = Some selected ->
  rejects (DeleteVotesOfIdea (IdeaVotingBoard.id selected)) = false ->
  rejects (DeleteIdea (IdeaVotingBoard.id selected)) = false ->
  let id := IdeaVotingBoard.id selected in
  let w' := (IdeaDeletion.handleDeleteIdea rejects new_item w).2 in
  sent w' = sent w ++ [DeleteVotesOfIdea id; DeleteIdea id]
  /\ idea_votes (db w')
     = List.filter (fun v => negb (String.eqb (IdeaVotingBoard.idea_id v) id))
                   (idea_votes (db w))
  /\ ideas (db w')
     = List.filter (fun i => negb (String.eqb (IdeaVotingBoard.id i) id))
                   (ideas (db w))
  /\ meetings (db w') = meetings (db w)
  /\ action_items (db w') = action_items (db w)
  /\ ui w' = {| IdeaDeletion.selectedIdea := None;
                IdeaDeletion.isDeleteDialogOpen := false |}
  /\ updates w' = S (updates w)
  /\ (forall kind,
        IdeaVotingBoard.hasVoted
          (IdeaVotingBoard.votesByIdea (idea_votes (db w'))) id kind = false).
Proof.
  intros Hsel Hr1 Hr2 id w'. subst id w'.
  rewrite handleDeleteIdea_cases, Hsel. cbv zeta.
  rewrite Hr1. unfold after at 1. cbn [sent db]. rewrite Hr2.
  unfold refreshed, with_ui, shown, after.
  cbn [snd db sent toasts updates ui]. rewrite Hr1, Hr2.
  cbn [apply_request idea_votes ideas meetings action_items].
  refine (conj _ (conj eq_refl (conj eq_refl (conj eq_refl (conj eq_refl
            (conj eq_refl (conj eq_refl _))))))).
  - now rewrite <- app_assoc.
  - intros kind. rewrite BoardFacts.hasVoted_votesByIdea.
    apply not_true_is_false. rewrite existsb_exists.
    intros (v & Hv & H). apply filter_In in Hv as [_ Hv].
    apply andb_prop in H as [H _]. rewrite String.eqb_sym in H.
    rewrite H in Hv. discriminate.
Qed.

(** X21. Deleting an idea, the other ways out.  With no idea selected the
    handler does nothing at all.  When the store refuses the deletion of
    the votes, nothing else is sent and no table changes.  When it takes
    that one and refuses the deletion of the idea, the idea stays and its
    votes are gone.  In both cases the failure is reported, the dialog
    stays as it is and no refresh is asked for. *)
Theorem idea_deletion_failures (w : World IdeaDeletion.State) :
  let out := IdeaDeletion.handleDeleteIdea rejects new_item w in
  (IdeaDeletion.selectedIdea (ui w) = None -> out = (Returned tt, w))
  /\ (forall selected,
        IdeaDeletion.selectedIdea (ui w) = Some selected ->
        rejects (DeleteVotesOfIdea (IdeaVotingBoard.id selected)) = true ->
        out = (Returned tt,
               {| db := db w;
                  sent := sent w ++ [DeleteVotesOfIdea (IdeaVotingBoard.id selected)];
                  toasts := toasts w ++ [failure "Failed to delete idea"];
                  updates := updates w; ui := ui w |}))
  /\ (forall selected,
        IdeaDeletion.selectedIdea (ui w) = Some selected ->
        rejects (DeleteVotesOfIdea (IdeaVotingBoard.id selected)) = false ->
        rejects (DeleteIdea (IdeaVotingBoard.id selected)) = true ->
        ideas (db out.2) = ideas (db w)
        /\ idea_votes (db out.2)
           = List.filter (fun v => negb (String.eqb (IdeaVotingBoard.idea_id v)
                                           (IdeaVotingBoard.id selected)))
                         (idea_votes (db w))
        /\ toasts out.2 = toasts w ++ [failure "Failed to delete idea"]
        /\ updates out.2 = updates w
        /\ ui out.2 = ui w).
Proof.
  intros out. unfold out. rewrite handleDeleteIdea_cases.
  refine (conj _ (conj _ _)).
  - now intros ->.
  - intros selected -> Hr1. cbv zeta. rewrite Hr1.
    unfold shown, after. cbn. now rewrite Hr1.
  - intros selected -> Hr1 Hr2. cbv zeta. rewrite Hr1.
    unfold after at 1. cbn [sent db]. rewrite Hr2.
    unfold shown, after. cbn. rewrite Hr1, Hr2. cbn. auto.
Qed.

(** *** Settings *)

Context {U : Type}.

Lemma archiveAllMeetings_cases (w : World U) :
  Settings.archiveAllMeetings rejects new_item w
  = if rejects ArchiveMeetings
    then (Returned tt,
          shown (failure "Failed to archive meetings")
                (after rejects new_item ArchiveMeetings w))
    else (Returned tt,
          refreshed (shown (success "All meetings have been archived")
                           (after rejects new_item ArchiveMeetings w))).
Proof.
  unfold Settings.archiveAllMeetings, try_catch, bind, send, throw_if, throw,
    ret, toast, onUpdate, shown, refreshed, after.
  destruct (rejects ArchiveMeetings); reflexivity.
Qed.

Lemma archived_all (ms : list Meeting) :
  map (fun m => if UpcomingMeetings.is_archived m then m else archived m) ms
  = map archived ms.
Proof.
  apply map_ext. intros m.
  destruct (UpcomingMeetings.is_archived m) eqn:E; [|reflexivity].
  destruct m. cbn in *. now subst.
Qed.

Lemma filter_archived_none (f : Meeting -> bool) (ms : list Meeting) :
  (forall m, f (archived m) = false) ->
  List.filter f (map archived ms) = [].
Proof.
  intros Hf. induction ms as [|m ms IH]; [reflexivity|].
  cbn. now rewrite Hf.
Qed.

Lemma filter_archived_all (ms : list Meeting) :
  List.filter (fun m => UpcomingMeetings.is_archived m) (map archived ms)
  = map archived ms.
Proof.
  induction ms as [|m ms IH]; [reflexivity|]. cbn. now rewrite IH.
Qed.

(** X22. Archiving all meetings.  When the store takes the request, every
    meeting is the meeting it was with the mark "archived" set; so the
    list of active meetings and the upcoming meetings of the summary are
    empty, and all meetings are under "Archived".  No other table
    changes.  When the store refuses, nothing changes and the failure is
    reported. *)
Theorem archiveAllMeetings_spec (w : World U) (now : Z) :
  let w' := (Settings.archiveAllMeetings rejects new_item w).2 in
  (rejects ArchiveMeetings = false ->
   meetings (db w') = map archived (meetings (db w))
   /\ UpcomingMeetings.activeMeetings (meetings (db w')) = []
   /\ UpcomingMeetings.archivedMeetings (meetings (db w')) = meetings (db w')
   /\ ProgressCounts.upcomingMeetings now (meetings (db w')) = []
   /\ action_items (db w') = action_items (db w)
   /\ ideas (db w') = ideas (db w)
   /\ idea_votes (db w') = idea_votes (db w))
  /\ (rejects ArchiveMeetings = true ->
      db w' = db w
      /\ toasts w' = toasts w ++ [failure "Failed to archive meetings"]
      /\ updates w' = updates w).
Proof.
  intros w'. subst w'. rewrite archiveAllMeetings_cases. split.
  - intros Hacc. rewrite Hacc. unfold refreshed, shown, after.
    cbn [snd db]. rewrite Hacc. cbn [apply_request meetings action_items
                                       ideas idea_votes].
    rewrite archived_all.
    refine (conj eq_refl (conj _ (conj _ (conj _ (conj eq_refl
              (conj eq_refl eq_refl)))))).
    + apply filter_archived_none. reflexivity.
    + apply filter_archived_all.
    + unfold ProgressCounts.upcomingMeetings, slice0.
      rewrite filter_archived_none; reflexivity.
  - intros Hrej. rewrite Hrej. unfold shown, after. cbn. now rewrite Hrej.
Qed.

Lemma clearCompletedTasks_cases (w : World U) :
  Settings.clearCompletedTasks rejects new_item w
  = if rejects DeleteDoneItems
    then (Returned tt,
          shown (failure "Failed to clear completed tasks")
                (after rejects new_item DeleteDoneItems w))
    else (Returned tt,
          refreshed (shown (success "Completed tasks have been cleared")
                           (after rejects new_item DeleteDoneItems w))).
Proof.
  unfold Settings.clearCompletedTasks, try_catch, bind, send, throw_if, throw,
    ret, toast, onUpdate, shown, refreshed, after.
  destruct (rejects DeleteDoneItems); reflexivity.
Qed.

Lemma open_filter (p : ActionItem -> bool) (items : list ActionItem) :
  (forall item, p item = true ->
                ProgressSummary.status item = ProgressSummary.ToDo) ->
  List.filter p
    (List.filter (fun item => negb (ProgressSummary.Status_eqb
                                      (ProgressSummary.status item)
                                      ProgressSummary.Done)) items)
  = List.filter p items.
Proof.
  intros H. apply ProgressFacts.filter_narrow.
  intros item Hp. now rewrite (H item Hp).
Qed.

Lemma completed_of_open (items : list ActionItem) :
  ProgressSummary.completedTasks
    (List.filter (fun item => negb (ProgressSummary.Status_eqb
                                      (ProgressSummary.status item)
                                      ProgressSummary.Done)) items)
  = 0%nat.
Proof.
  unfold ProgressSummary.completedTasks.
  induction items as [|a l IH]; [reflexivity|].
  cbn [List.filter].
  destruct (ProgressSummary.status a) eqn:E;
    cbn [ProgressSummary.Status_eqb negb]; [|exact IH].
  cbn [List.filter]. rewrite E. exact IH.
Qed.

Lemma total_of_open (items : list ActionItem) :
  Z.of_nat (ProgressSummary.totalTasks
              (List.filter (fun item => negb (ProgressSummary.Status_eqb
                                                (ProgressSummary.status item)
                                                ProgressSummary.Done)) items))
  = ProgressCounts.pendingTasks items.
Proof.
  unfold ProgressCounts.pendingTasks, ProgressSummary.totalTasks,
    ProgressSummary.completedTasks.
  induction items as [|a l IH]; [reflexivity|].
  cbn [List.filter]. destruct (ProgressSummary.status a);
    cbn [ProgressSummary.Status_eqb negb length]; lia.
Qed.

(** X23. Clearing the completed tasks.  When the store takes the request,
    the open tasks are left, in their order; the summary then shows the
    same tasks due today, the same overdue tasks and the same urgent
    deadlines as before, the same number of pending tasks, no completed
    task and a completion rate of 0. *)
Theorem clearCompletedTasks_spec (w : World U) (tz now : Z) :
  rejects DeleteDoneItems = false ->
  let items := action_items (db w) in
  let items' :=
    action_items (db (Settings.clearCompletedTasks rejects new_item w).2) in
  items' = List.filter (fun item =>
                          ProgressSummary.Status_eqb (ProgressSummary.status item)
                                                     ProgressSummary.ToDo) items
  /\ ProgressSummary.todayTasks tz now items'
     = ProgressSummary.todayTasks tz now items
  /\ ProgressSummary.overdueTasks tz now items'
     = ProgressSummary.overdueTasks tz now items
  /\ ProgressSummary.urgentDeadlines tz now items'
     = ProgressSummary.urgentDeadlines tz now items
  /\ ProgressCounts.pendingTasks items' = ProgressCounts.pendingTasks items
  /\ ProgressSummary.completedTasks items' = 0%nat
  /\ ProgressSummary.completionRate items' = JS.toDouble 0.
Proof.
  intros Hacc items items'. subst items' items.
  rewrite clearCompletedTasks_cases, Hacc.
  unfold refreshed, shown, after. cbn [snd db]. rewrite Hacc.
  cbn [apply_request action_items].
  refine (conj _ (conj _ (conj _ (conj _ (conj _
            (conj (completed_of_open _) _)))))).
  - apply List.filter_ext. intros item.
    now destruct (ProgressSummary.status item).
  - apply open_filter. intros item H.
    apply andb_prop in H as [H _]. apply andb_prop in H as [H _].
    now apply ProgressFacts.Status_eqb_eq.
  - apply open_filter. intros item H.
    apply andb_prop in H as [H _]. apply andb_prop in H as [H _].
    now apply ProgressFacts.Status_eqb_eq.
  - unfold ProgressSummary.urgentDeadlines. f_equal. f_equal.
    apply open_filter. intros item H.
    now apply ProgressFacts.isUrgent_dueSoon in H as [H _].
  - unfold ProgressCounts.pendingTasks at 1.
    rewrite completed_of_open, total_of_open. lia.
  - rewrite ProgressFacts.completionRate_rate, completed_of_open.
    destruct (Nat.ltb_spec 0 (ProgressSummary.totalTasks
                (List.filter (fun item => negb (ProgressSummary.Status_eqb
                   (ProgressSummary.status item) ProgressSummary.Done))
                   (action_items (db w))))) as [Ht|Ht]; [|reflexivity].
    apply DoubleFacts.rate_none. lia.
Qed.

Lemma deleteAllArchivedMeetings_cases (w : World U) :
  Settings.deleteAllArchivedMeetings rejects new_item w
  = let failed := failure "Failed to delete archived meetings" in
    let done :=
      success "All archived meetings and related action items have been deleted" in
    let w0 := after rejects new_item SelectArchivedIds w in
    let ids := map UpcomingMeetings.id
                   (UpcomingMeetings.archivedMeetings (meetings (db w))) in
    let r1 := DeleteItemsOfMeetings ids in
    let w1 := after rejects new_item r1 w0 in
    let w2 := after rejects new_item DeleteArchivedMeetings w1 in
    if rejects SelectArchivedIds then (Returned tt, shown failed w0)
    else match ids with
         | [] => (Returned tt, refreshed (shown done w0))
         | _ :: _ =>
             if rejects r1 then (Returned tt, shown failed w1)
             else if rejects DeleteArchivedMeetings
             then (Returned tt, shown failed w2)
             else (Returned tt, refreshed (shown done w2))
         end.
Proof.
  unfold Settings.deleteAllArchivedMeetings, UpcomingMeetings.archivedMeetings,
    try_catch, bind, send, getDb, throw_if, throw, ret, toast, onUpdate,
    shown, refreshed, after.
  cbv zeta.
  destruct (rejects SelectArchivedIds) eqn:E0; [reflexivity|].
  cbn [db sent toasts updates ui apply_request].
  destruct (List.filter _ (meetings (db w))) as [|m ms]; [reflexivity|].
  cbn [length Nat.ltb Nat.leb map].
  destruct (rejects (DeleteItemsOfMeetings _)); [reflexivity|].
  cbn. destruct (rejects DeleteArchivedMeetings); reflexivity.
Qed.

Lemma filter_nothing {A} (f : A -> bool) (l : list A) :
  (forall a, In a l -> f a = true) -> List.filter f l = l.
Proof.
  intros H. induction l as [|a l IH]; [reflexivity|].
  cbn. rewrite (H a) by now left. f_equal. apply IH.
  intros b Hb. apply H. now right.
Qed.

(** X24. Deleting the archived meetings, when the store takes every
    request.  The active meetings are left, and the action items that
    belong to none of the archived meetings, each list in its order: an
    action item without a meeting, or of an active meeting, stays, and no
    action item that is left belongs to a deleted meeting.  Ideas and
    votes are untouched. *)
Theorem archived_meetings_are_deleted (w : World U) :
  (forall r, rejects r = false) ->
  let gone := map UpcomingMeetings.id
                  (UpcomingMeetings.archivedMeetings (meetings (db w))) in
  let w' := (Settings.deleteAllArchivedMeetings rejects new_item w).2 in
  meetings (db w') = UpcomingMeetings.activeMeetings (meetings (db w))
  /\ action_items (db w')
     = List.filter (fun item => negb (refersTo gone item)) (action_items (db w))
  /\ Forall (fun item => forall mid,
               ProgressSummary.meeting_id item = Some mid -> ~ In mid gone)
            (action_items (db w'))
  /\ (forall item, In item (action_items (db w)) ->
                   ProgressSummary.meeting_id item = None ->
                   In item (action_items (db w')))
  /\ ideas (db w') = ideas (db w)
  /\ idea_votes (db w') = idea_votes (db w)
  /\ updates w' = S (updates w).
Proof.
  intros Hacc gone w'.
  assert (Hdb : meetings (db w')
                = UpcomingMeetings.activeMeetings (meetings (db w))
                /\ action_items (db w')
                   = List.filter (fun item => negb (refersTo gone item))
                                 (action_items (db w))
                /\ ideas (db w') = ideas (db w)
                /\ idea_votes (db w') = idea_votes (db w)
                /\ updates w' = S (updates w)).
  { subst w'. rewrite deleteAllArchivedMeetings_cases. cbv zeta.
    rewrite Hacc. fold gone.
    destruct gone as [|g gs] eqn:Egone.
    - unfold refreshed, shown, after. cbn [snd db updates]. rewrite Hacc.
      cbn [apply_request]. repeat split.
      + unfold UpcomingMeetings.activeMeetings. symmetry.
        apply filter_nothing. intros m Hm.
        destruct (UpcomingMeetings.is_archived m) eqn:E; [|reflexivity].
        exfalso. assert (Hin : In (UpcomingMeetings.id m) gone).
        { unfold gone. apply in_map. apply filter_In. auto. }
        rewrite Egone in Hin. contradiction.
      + symmetry. apply filter_nothing. intros item _.
        unfold refersTo. now destruct (ProgressSummary.meeting_id item).
    - rewrite !Hacc. unfold refreshed, shown, after.
      cbn [snd db updates sent]. rewrite !Hacc.
      cbn [apply_request meetings action_items ideas idea_votes].
      repeat split. }
  destruct Hdb as (Hm & Hi & Hideas & Hvotes & Hup).
  refine (conj Hm (conj Hi (conj _ (conj _ (conj Hideas (conj Hvotes Hup)))))).
  - rewrite Hi. apply List.Forall_forall. intros item H mid Hmid Hin.
    apply filter_In in H as [_ H]. apply negb_true_iff in H.
    unfold refersTo in H. rewrite Hmid in H.
    assert (Ht : existsb (String.eqb mid) gone = true).
    { apply existsb_exists. exists mid. split; [exact Hin|apply String.eqb_refl]. }
    congruence.
  - intros item Hin Hnone. rewrite Hi. apply filter_In. split; [exact Hin|].
    unfold refersTo. now rewrite Hnone.
Qed.


Lemma clearAllData_run (w : World U) :
  Settings.clearAllData rejects new_item w
  = (Returned tt,
     refreshed
       (shown (success "All data has been cleared")
          (after rejects new_item (DeleteIdeasBut Settings.nil_uuid)
             (after rejects new_item (DeleteMeetingsBut Settings.nil_uuid)
                (after rejects new_item (DeleteItemsBut Settings.nil_uuid) w))))).
Proof. reflexivity. Qed.

(** X26. Clearing all data reports success whatever the store answers:
    the three deletions go out in the order action items, meetings, ideas,
    their answers are not looked at, and the failure notice is never
    shown.  The votes are never deleted here.  When the store takes the
    three requests, the only rows left in the three tables are those with
    the all-zero identifier. *)
Theorem clearAllData_always_reports_success (w : World U) :
  let out := Settings.clearAllData rejects new_item w in
  let zero := Settings.nil_uuid in
  sent out.2 = sent w ++ [DeleteItemsBut zero; DeleteMeetingsBut zero;
                          DeleteIdeasBut zero]
  /\ toasts out.2 = toasts w ++ [success "All data has been cleared"]
  /\ updates out.2 = S (updates w)
  /\ idea_votes (db out.2) = idea_votes (db w)
  /\ ((forall r, rejects r = false) ->
      Forall (fun item => ProgressSummary.id item = zero) (action_items (db out.2))
      /\ Forall (fun m => UpcomingMeetings.id m = zero) (meetings (db out.2))
      /\ Forall (fun i => IdeaVotingBoard.id i = zero) (ideas (db out.2))).
Proof.
  intros out zero. subst out. rewrite clearAllData_run.
  unfold refreshed, shown, after. cbn [snd db sent toasts updates].
  fold zero. refine (conj _ (conj eq_refl (conj eq_refl (conj _ _)))).
  - now rewrite <- !app_assoc.
  - destruct (rejects (DeleteItemsBut zero)), (rejects (DeleteMeetingsBut zero)),
      (rejects (DeleteIdeasBut zero)); reflexivity.
  - intros Hacc. rewrite !Hacc.
    cbn [apply_request meetings action_items ideas].
    repeat split; apply List.Forall_forall; intros x Hx;
      apply filter_In in Hx as [_ Hx]; now apply String.eqb_eq.
Qed.

(** *** ActionItems.handleSubmit *)

Variable tz : Z.

Abbreviation required := ActionItems.required.
Abbreviation not_created := ActionItems.not_created.

Lemma handleSubmit_cases (w : World ActionItems.State) :
  ActionItems.handleSubmit tz rejects new_item w
  = let form := ActionItems.formData (ui w) in
    match ActionItems.due_date form with
    | None => (Returned tt, shown required w)
    | Some date =>
        if String.eqb (ActionItems.description form) ""
           || String.eqb (ActionItems.assignee form) ""
        then (Returned tt, shown required w)
        else
          match DateFormat.format_yyyy_MM_dd tz date with
          | None => (Returned tt, shown not_created w)
          | Some due =>
              let r := InsertActionItem (ActionItems.description form)
                         (ActionItems.assignee form) due
                         (ActionItems.or_null (ActionItems.meeting_id form)) in
              if rejects r
              then (Returned tt, shown not_created (after rejects new_item r w))
              else (Returned tt,
                    refreshed
                      (with_ui {| ActionItems.formData := ActionItems.emptyForm;
                                  ActionItems.isDialogOpen := false |}
                         (shown (success "Action item created successfully")
                                (after rejects new_item r w))))
          end
    end.
Proof.
  unfold ActionItems.handleSubmit, bind, getState. cbv zeta.
  destruct (ActionItems.due_date _) as [date|]; [|reflexivity].
  destruct (_ || _); [reflexivity|].
  unfold try_catch.
  destruct (DateFormat.format_yyyy_MM_dd tz date) as [due|]; [|reflexivity].
  unfold bind, send, throw_if, throw, ret, toast, onUpdate, setState, shown,
    refreshed, with_ui, after, ActionItems.not_created.
  destruct (rejects _); reflexivity.
Qed.

(** X27. A new action item.  With a description, an assignee and a picked
    date of the years 1 to 9999, and a store that takes the request, the
    form sends one insert: the texts as typed, the meeting or null when
    none was chosen, and as due date a string that [parseISO] reads as the
    local midnight of the picked day.  It then empties the form, closes
    the dialog and asks for a refresh. *)
Theorem new_action_item_is_sent (t : Z) (w : World ActionItems.State) :
  let form := ActionItems.formData (ui w) in
  ActionItems.description form <> ""%string ->
  ActionItems.assignee form <> ""%string ->
  ActionItems.due_date form = Some (Some t) ->
  DateFormat.firstDay <= Calendar.localDay tz t <= DateFormat.lastDay ->
  (forall r, rejects r = false) ->
  let w' := (ActionItems.handleSubmit tz rejects new_item w).2 in
  exists due,
    sent w' = sent w ++ [InsertActionItem (ActionItems.description form)
                           (ActionItems.assignee form) due
                           (ActionItems.or_null (ActionItems.meeting_id form))]
    /\ DateFns.parseISO tz due = DateFns.startOfDay tz (Some t)
    /\ (forall now, DateFns.isToday tz now (DateFns.parseISO tz due)
                    = (Calendar.localDay tz t =? Calendar.localDay tz now))
    /\ ui w' = {| ActionItems.formData := ActionItems.emptyForm;
                  ActionItems.isDialogOpen := false |}
    /\ updates w' = S (updates w).
Proof.
  intros form Hd Ha Hdate Hrange Hacc w'. subst w'.
  rewrite handleSubmit_cases. cbv zeta. fold form. rewrite Hdate.
  apply String.eqb_neq in Hd, Ha. rewrite Hd, Ha. cbn [orb].
  destruct (DateFormatFacts.format_parse tz t Hrange) as (due & Hfmt & Hparse).
  rewrite Hfmt, Hacc. exists due.
  unfold refreshed, with_ui, shown, after. cbn [snd sent ui updates].
  refine (conj eq_refl (conj _ (conj _ (conj eq_refl eq_refl)))).
  - rewrite CalendarFacts.startOfDay_localDay.
    apply (DateFacts.parseISO_calendar tz _ _ Hparse).
  - intros now. rewrite CalendarFacts.isToday_parseISO.
    now rewrite (DateFacts.parseDay_calendar _ _ Hparse).
Qed.

(** X28. What the form of a new action item does not send.  When the
    description or the assignee is empty, or no date is picked, nothing
    goes to the store and the user is asked to fill in the fields.  When
    the picked date is an Invalid Date, formatting it throws, nothing goes
    to the store and the failure is reported.  When the store refuses the
    insert, the form keeps what was typed, the dialog stays open and no
    refresh is asked for. *)
Theorem new_action_item_is_not_sent (w : World ActionItems.State) :
  let form := ActionItems.formData (ui w) in
  let out := ActionItems.handleSubmit tz rejects new_item w in
  ((ActionItems.description form = ""%string
    \/ ActionItems.assignee form = ""%string
    \/ ActionItems.due_date form = None) ->
   out = (Returned tt, shown required w))
  /\ (ActionItems.description form <> ""%string ->
      ActionItems.assignee form <> ""%string ->
      ActionItems.due_date form = Some NaN ->
      out = (Returned tt, shown not_created w))
  /\ ((forall r, rejects r = true) ->
      db out.2 = db w /\ ui out.2 = ui w /\ updates out.2 = updates w
      /\ exists t, toasts out.2 = toasts w ++ [t]
                   /\ toast_destructive t = true).
Proof.
  intros form out. subst out. rewrite handleSubmit_cases. cbv zeta. fold form.
  refine (conj _ (conj _ _)).
  - intros [H|[H|H]].
    + rewrite H. destruct (ActionItems.due_date form); reflexivity.
    + rewrite H. destruct (ActionItems.due_date form); [|reflexivity].
      now rewrite orb_true_r.
    + now rewrite H.
  - intros Hd Ha ->. apply String.eqb_neq in Hd, Ha. now rewrite Hd, Ha.
  - intros Hrej.
    destruct (ActionItems.due_date form) as [date|];
      [|cbn; repeat split; eexists; split; reflexivity].
    destruct (_ || _); [cbn; repeat split; eexists; split; reflexivity|].
    destruct (DateFormat.format_yyyy_MM_dd tz date) as [due|];
      [|cbn; repeat split; eexists; split; reflexivity].
    rewrite Hrej. unfold shown, after. cbn. rewrite Hrej.
    repeat split. eexists; split; reflexivity.
Qed.

End Handlers.

Lemma toggleStatus_moves_one_task_witness :
  let item := Deadline.task "a" (Some "2024-06-10"%string) ProgressSummary.ToDo in
  let w := start Sample.database Sample.closedForm in
  let items' :=
    action_items (db (ActionItems.toggleStatus accepts_all plain_item "a"
                        ProgressSummary.ToDo w).2) in
  ProgressSummary.totalTasks items' = ProgressSummary.totalTasks Sample.items
  /\ Z.of_nat (ProgressSummary.completedTasks items')
     = Z.of_nat (ProgressSummary.completedTasks Sample.items) + 1.
Proof.
  apply (toggleStatus_moves_one_task accepts_all plain_item
           (Deadline.task "a" (Some "2024-06-10"%string) ProgressSummary.ToDo)
           (start Sample.database Sample.closedForm)).
  - reflexivity.
  - repeat constructor; cbn; intuition discriminate.
  - now left.
Defined.

Lemma idea_is_deleted_with_its_votes_witness :
  let w := start Sample.database Sample.deleting in
  let w' := (IdeaDeletion.handleDeleteIdea accepts_all plain_item w).2 in
  sent w' = [DeleteVotesOfIdea "A"; DeleteIdea "A"]
  /\ idea_votes (db w') = [Board.vote "v2" "B" "u" IdeaVotingBoard.upvote]
  /\ ideas (db w') = [Board.idea "B" 3 None]
  /\ meetings (db w') = Sample.lists
  /\ action_items (db w') = Sample.items
  /\ ui w' = {| IdeaDeletion.selectedIdea := None;
                IdeaDeletion.isDeleteDialogOpen := false |}
  /\ updates w' = 1%nat
  /\ (forall kind,
        IdeaVotingBoard.hasVoted
          (IdeaVotingBoard.votesByIdea (idea_votes (db w'))) "A" kind = false).
Proof.
  exact (idea_is_deleted_with_its_votes accepts_all plain_item
           (Board.idea "A" 10 None) (start Sample.database Sample.deleting)
           eq_refl eq_refl eq_refl).
Defined.

Lemma clearCompletedTasks_spec_witness :
  let now := 1718013600000 in
  let items' :=
    action_items (db (Settings.clearCompletedTasks accepts_all plain_item
                        (start Sample.database tt)).2) in
  items' = [Deadline.task "a" (Some "2024-06-10"%string) ProgressSummary.ToDo]
  /\ ProgressSummary.todayTasks 0 now items'
     = ProgressSummary.todayTasks 0 now Sample.items
  /\ ProgressSummary.overdueTasks 0 now items'
     = ProgressSummary.overdueTasks 0 now Sample.items
  /\ ProgressSummary.urgentDeadlines 0 now items'
     = ProgressSummary.urgentDeadlines 0 now Sample.items
  /\ ProgressCounts.pendingTasks items' = ProgressCounts.pendingTasks Sample.items
  /\ ProgressSummary.completedTasks items' = 0%nat
  /\ ProgressSummary.completionRate items' = JS.toDouble 0.
Proof.
  exact (clearCompletedTasks_spec accepts_all plain_item
           (start Sample.database tt) 0 1718013600000 eq_refl).
Defined.

Lemma archived_meetings_are_deleted_witness :
  let w' := (Settings.deleteAllArchivedMeetings accepts_all plain_item
               (start Sample.database tt)).2 in
  meetings (db w') = [Schedule.meeting "m1" (Some "2024-06-12"%string) false]
  /\ action_items (db w') = Sample.items
  /\ Forall (fun item => forall mid,
               ProgressSummary.meeting_id item = Some mid -> ~ In mid ["m2"%string])
            (action_items (db w'))
  /\ (forall item, In item Sample.items ->
                   ProgressSummary.meeting_id item = None ->
                   In item (action_items (db w')))
  /\ ideas (db w') = ideas Sample.database
  /\ idea_votes (db w') = idea_votes Sample.database
  /\ updates w' = 1%nat.
Proof.
  exact (archived_meetings_are_deleted accepts_all plain_item
           (start Sample.database tt) (fun r => eq_refl)).
Defined.

Lemma new_action_item_is_sent_witness :
  let w' := (ActionItems.handleSubmit 0 accepts_all plain_item
               (start Sample.database Sample.filledForm)).2 in
  exists due,
    sent w' = [InsertActionItem "Write the report" "Sam" due None]
    /\ DateFns.parseISO 0 due = DateFns.startOfDay 0 (Some 1718013600000)
    /\ (forall now, DateFns.isToday 0 now (DateFns.parseISO 0 due)
                    = (Calendar.localDay 0 1718013600000 =? Calendar.localDay 0 now))
    /\ ui w' = Sample.closedForm
    /\ updates w' = 1%nat.
Proof.
  apply (new_action_item_is_sent accepts_all plain_item 0 1718013600000
           (start Sample.database Sample.filledForm)).
  - discriminate.
  - discriminate.
  - reflexivity.
  - vm_compute. split; discriminate.
  - reflexivity.
Defined.

Example new_action_item_request :
  sent (ActionItems.handleSubmit 0 accepts_all plain_item
          (start Sample.database Sample.filledForm)).2
  = [InsertActionItem "Write the report" "Sam" "2024-06-10" None].
Proof. reflexivity. Qed.

End HandlerFacts.

(** ** The overdue badge of the table and the overdue count of the summary *)

Module RowFacts.
Import JS DateFns ProgressSummary Calendar Schedule.

Lemma newDateOf_storedDay item n :
  storedDay item = Some n -> newDateOf (due_date item) = Some (n * msPerDay).
Proof.
  unfold storedDay, newDateOf.
  destruct (due_date item) as [s|]; [|discriminate].
  apply DateFacts.newDate_calendar.
Qed.

Lemma storedDay_dueDay item n : storedDay item = Some n -> dueDay item = Some n.
Proof.
  unfold storedDay, dueDay.
  destruct (due_date item) as [s|]; [|discriminate].
  apply DateFacts.parseDay_calendar.
Qed.

(** X29. Overdue in the table and in the summary.  For a task with a
    due date in the stored form YYYY-MM-DD, the table of action items shows "Overdue" when the
    task is open and midnight UTC of the due day has passed; the summary
    counts it when it is open and the local midnight has passed.  East of
    Greenwich every task shown as overdue in the table is counted in the
    summary, west of it every counted task is shown; in UTC the two
    agree.  A task without due date is shown as overdue in the table and
    never counted in the summary. *)
Theorem overdue_in_table_and_summary (tz now : Z)
    (actionItems : list ActionItem) (item : ActionItem) :
  In item actionItems ->
  (forall n, storedDay item = Some n ->
     (ActionItems.rowOverdue now item = true
      <-> status item = ToDo /\ n * msPerDay < now)
     /\ (In item (overdueTasks tz now actionItems)
         <-> status item = ToDo /\ n * msPerDay - tz < now)
     /\ (0 <= tz -> ActionItems.rowOverdue now item = true ->
         In item (overdueTasks tz now actionItems))
     /\ (tz <= 0 -> In item (overdueTasks tz now actionItems) ->
         ActionItems.rowOverdue now item = true))
  /\ (due_date item = None -> status item = ToDo -> 0 < now ->
      ActionItems.rowOverdue now item = true
      /\ ~ In item (overdueTasks tz now actionItems)).
Proof.
  intros Hin. split.
  - intros n Hn.
    assert (Hrow : ActionItems.rowOverdue now item = true
                   <-> status item = ToDo /\ n * msPerDay < now).
    { unfold ActionItems.rowOverdue. rewrite (newDateOf_storedDay _ _ Hn).
      cbn [lt]. rewrite andb_true_iff, Z.ltb_lt, ProgressFacts.Status_eqb_eq.
      tauto. }
    assert (Hsum : In item (overdueTasks tz now actionItems)
                   <-> status item = ToDo /\ n * msPerDay - tz < now).
    { unfold overdueTasks. rewrite filter_In.
      rewrite ProgressExtra.parseISOOf_dueDay, (storedDay_dueDay _ _ Hn).
      rewrite (ProgressExtra.dueDay_truthy _ _ (storedDay_dueDay _ _ Hn)).
      cbn [isBefore lt]. rewrite !andb_true_iff, Z.ltb_lt,
        ProgressFacts.Status_eqb_eq. tauto. }
    refine (conj Hrow (conj Hsum (conj _ _))).
    + intros Htz H. apply Hsum. apply Hrow in H. split; [tauto|lia].
    + intros Htz H. apply Hrow. apply Hsum in H. split; [tauto|lia].
  - intros Hnone Hs Hnow. split.
    + unfold ActionItems.rowOverdue. rewrite Hnone, Hs. cbn.
      apply andb_true_intro. split; [now apply Z.ltb_lt|reflexivity].
    + unfold overdueTasks. rewrite filter_In, Hnone. cbn.
      rewrite andb_false_r. intros [_ H]. discriminate.
Qed.

Lemma overdue_in_table_and_summary_witness :
  let item := Deadline.task "a" (Some "2024-06-10"%string) ToDo in
  let now := 1718013600000 in
  (forall n, storedDay item = Some n ->
     (ActionItems.rowOverdue now item = true
      <-> status item = ToDo /\ n * msPerDay < now)
     /\ (In item (overdueTasks 0 now Sample.items)
         <-> status item = ToDo /\ n * msPerDay - 0 < now)
     /\ (0 <= 0 -> ActionItems.rowOverdue now item = true ->
         In item (overdueTasks 0 now Sample.items))
     /\ (0 <= 0 -> In item (overdueTasks 0 now Sample.items) ->
         ActionItems.rowOverdue now item = true))
  /\ (due_date item = None -> status item = ToDo -> 0 < now ->
      ActionItems.rowOverdue now item = true
      /\ ~ In item (overdueTasks 0 now Sample.items)).
Proof.
  apply (overdue_in_table_and_summary 0 1718013600000 Sample.items
           (Deadline.task "a" (Some "2024-06-10"%string) ToDo)).
  now left.
Defined.

End RowFacts.
